(** * Multi-agent debate backend: the round scheduler and its helpers

    A shallow embedding of [backend/graph_converter.py]: the topology
    resolver [build_neighbor_maps], the prompt builders
    [build_system_prompt], [build_initial_prompt], [build_followup_prompt],
    [build_aggregator_prompt], the helper [extract_summary], the response
    parser [parse_summary_json] and the round loop of [run_debate]; and of
    the endpoint [websocket_endpoint] of [backend/main.py], which relays
    the events of a debate as frames.

    Conventions.
    - A Python [str] is a [string]; a character is read as the code point
      0..255 it carries, so whitespace and lower-casing are the ones Python
      applies to those code points.
    - A Python [dict] is an association list with unique keys kept in
      insertion order ([PyDict]); assignment to an existing key keeps the
      key's place, as in Python.
    - Code that may raise returns a [result]; the exceptions that can
      escape the modelled functions are listed in [exn].
    - A generator is a computation that carries the events it has yielded
      so far next to its outcome ([Gen]). *)

From Stdlib Require Import List String Ascii Bool Arith ZArith Lia.
From Stdlib Require Import Numbers.DecimalString.
Import ListNotations.

Set Implicit Arguments.
Set Warnings "-register-all".
Local Open Scope list_scope.
Local Open Scope string_scope.

(* ================================================================== *)
(** ** Python strings *)
(* ================================================================== *)

Module Py.

(** The two characters that cannot be written inside a literal here. *)
Definition NL : string := String "010"%char EmptyString.
Definition DQ : string := String "034"%char EmptyString.

(** [str.isspace] on one character, for code points below 256:
    TAB..CR, FS..US, SPACE, NEL and NO-BREAK SPACE.  The same class is
    what [\s] denotes in a [str] pattern of [re]. *)
Definition isspace (c : ascii) : bool :=
  let n := nat_of_ascii c in
  (((9 <=? n) && (n <=? 13)) || ((28 <=? n) && (n <=? 32))
   || (n =? 133) || (n =? 160))%nat.

(** [str.lower] on one character, for code points below 256. *)
Definition lower_char (c : ascii) : ascii :=
  let n := nat_of_ascii c in
  if (((65 <=? n) && (n <=? 90))
      || ((192 <=? n) && (n <=? 222) && negb (n =? 215)))%nat
  then ascii_of_nat (n + 32) else c.

Fixpoint lower (s : string) : string :=
  match s with
  | EmptyString => EmptyString
  | String c r => String (lower_char c) (lower r)
  end.

(** [s.lstrip()], [s.rstrip()], [s.strip()]. *)
Fixpoint lstrip (s : string) : string :=
  match s with
  | EmptyString => EmptyString
  | String c r => if isspace c then lstrip r else s
  end.

Fixpoint rstrip (s : string) : string :=
  match s with
  | EmptyString => EmptyString
  | String c r =>
      match rstrip r with
      | EmptyString => if isspace c then EmptyString else String c EmptyString
      | r' => String c r'
      end
  end.

Definition strip (s : string) : string := rstrip (lstrip s).

(** Slices [s[n:]], [s[:n]] and [s[a:b]] for indices within
    [0 .. len(s)] (the only ones the program forms). *)
Fixpoint drop (n : nat) (s : string) : string :=
  match n, s with
  | O, _ => s
  | S _, EmptyString => EmptyString
  | S m, String _ r => drop m r
  end.

Fixpoint take (n : nat) (s : string) : string :=
  match n, s with
  | O, _ => EmptyString
  | S _, EmptyString => EmptyString
  | S m, String c r => String c (take m r)
  end.

Definition slice (a b : nat) (s : string) : string := take (b - a) (drop a s).

(** [s.find(c)] for a one-character needle; [None] stands for [-1]. *)
Fixpoint find (c : ascii) (s : string) : option nat :=
  match s with
  | EmptyString => None
  | String d r =>
      if Ascii.eqb d c then Some 0
      else match find c r with Some i => Some (S i) | None => None end
  end.

(** [sep.join(parts)]. *)
Fixpoint join (sep : string) (parts : list string) : string :=
  match parts with
  | [] => EmptyString
  | [p] => p
  | p :: rest => p ++ sep ++ join sep rest
  end.

(** Truth value of a [str]: non-empty. *)
Definition truthy (s : string) : bool :=
  match s with EmptyString => false | _ => true end.

(** [pat in s] for strings. *)
Fixpoint startswith (pat s : string) : bool :=
  match pat, s with
  | EmptyString, _ => true
  | String _ _, EmptyString => false
  | String p pr, String c r => Ascii.eqb p c && startswith pr r
  end.

Fixpoint contains (pat s : string) : bool :=
  startswith pat s ||
  match s with
  | EmptyString => false
  | String _ r => contains pat r
  end.

(** [c in s] for a one-character [c]. *)
Fixpoint has_char (c : ascii) (s : string) : bool :=
  match s with
  | EmptyString => false
  | String d r => Ascii.eqb d c || has_char c r
  end.

(** [x in xs] for a list of strings. *)
Definition mem (x : string) (xs : list string) : bool :=
  existsb (String.eqb x) xs.

(** [str(n)] and [repr(n)] for an [int]. *)
Definition str_of_int (z : Z) : string :=
  NilEmpty.string_of_int (Z.to_int z).

End Py.

(* ================================================================== *)
(** ** Python dictionaries *)
(* ================================================================== *)

Class KeyEq (K : Type) := {
  keq : K -> K -> bool;
  keq_eq : forall a b, keq a b = true <-> a = b
}.

#[export] Instance KeyEq_string : KeyEq string :=
  {| keq := String.eqb; keq_eq := String.eqb_eq |}.

#[export] Instance KeyEq_Z : KeyEq Z :=
  {| keq := Z.eqb; keq_eq := Z.eqb_eq |}.

Module PyDict.
Section Dict.
Context {K V : Type} `{KeyEq K}.

Definition dict := list (K * V).

(** [d.get(k)]. *)
Fixpoint get (k : K) (d : dict) : option V :=
  match d with
  | [] => None
  | (k', v) :: r => if keq k k' then Some v else get k r
  end.

(** [d.get(k, default)]. *)
Definition get_default (k : K) (default : V) (d : dict) : V :=
  match get k d with Some v => v | None => default end.

(** [k in d]. *)
Definition has (k : K) (d : dict) : bool :=
  match get k d with Some _ => true | None => false end.

(** [d[k] = v]: an existing key keeps its place, a new one goes last. *)
Fixpoint set (k : K) (v : V) (d : dict) : dict :=
  match d with
  | [] => [(k, v)]
  | (k', v') :: r =>
      if keq k k' then (k', v) :: r else (k', v') :: set k v r
  end.

Definition keys (d : dict) : list K := map fst d.

(** [{key(x): val(x) for x in xs}]. *)
Definition comprehension {A} (key : A -> K) (val : A -> V) (xs : list A) : dict :=
  fold_left (fun d x => set (key x) (val x) d) xs [].

End Dict.
Arguments dict : clear implicits.
End PyDict.

Abbreviation dict := PyDict.dict.

(* ================================================================== *)
(** ** Exceptions *)
(* ================================================================== *)

(** The exceptions of the modelled code.  [ValueError] stands for
    [ValueError] and its subclass [json.JSONDecodeError], the two classes
    the parser's [except] clause names; [RecursionError] is what
    [json.loads] raises on a text nested deeper than the interpreter has
    stack for; [BackendError] is whatever a model client raises. *)
Inductive exn : Type :=
| KeyError
| IndexError
| AttributeError
| BackendError
| ValueError
| RecursionError.

Inductive result (A : Type) : Type :=
| Ok (a : A)
| Raise (e : exn).
Arguments Ok {A} a.
Arguments Raise {A} e.

Definition rbind {A B} (m : result A) (f : A -> result B) : result B :=
  match m with
  | Ok a => f a
  | Raise e => Raise e
  end.

Declare Scope result_scope.
Delimit Scope result_scope with result.
Notation "x <- m ;; k" := (rbind m (fun x => k))
  (at level 61, m at next level, right associativity) : result_scope.
Notation "' p <- m ;; k" := (rbind m (fun p => k))
  (at level 61, p pattern, m at next level, right associativity) : result_scope.

(** [xs.append(x)]. *)
Definition append_item {A} (xs : list A) (x : A) : list A := (xs ++ [x])%list.

(** [d[k]]: raises [KeyError] on a missing key. *)
Definition getitem {K V} `{KeyEq K} (d : dict K V) (k : K) : result V :=
  match PyDict.get k d with
  | Some v => Ok v
  | None => Raise KeyError
  end.

(* ================================================================== *)
(** ** Configuration records *)
(* ================================================================== *)

(** A node of the configuration: [node["id"]], [node["label"]] and the
    optional [node.get("systemPrompt")] ([None] when the key is absent or
    null).  The sampling temperature only configures the backend client and
    is not modelled. *)
Record Node : Type := mkNode {
  id : string;
  label : string;
  systemPrompt : option string
}.

(** An edge of the configuration, read with [edge.get]: every key may be
    absent ([None]). *)
Record Edge : Type := mkEdge {
  direction : option string;
  from_id : option string;
  to_id : option string
}.

(** [not x] for the result of [edge.get(...)]: [None] and the empty string
    are false. *)
Definition falsy (x : option string) : bool :=
  match x with
  | None => true
  | Some s => negb (Py.truthy s)
  end.

(* ================================================================== *)
(** ** Topology resolver: [build_neighbor_maps] *)
(* ================================================================== *)

Definition neighbor_map := dict string (list string).

(** The closure [add_edge], over the two dictionaries it mutates. *)
Definition add_edge (sender receiver : string)
  (maps : neighbor_map * neighbor_map) : result (neighbor_map * neighbor_map) :=
  let '(outgoing, incoming) := maps in
  if negb (PyDict.has sender outgoing) || negb (PyDict.has receiver outgoing)
  then Ok maps
  else
    (out_s <- getitem outgoing sender ;;
     let outgoing' :=
       if negb (Py.mem receiver out_s)
       then PyDict.set sender (append_item out_s receiver) outgoing
       else outgoing in
     in_r <- getitem incoming receiver ;;
     let incoming' :=
       if negb (Py.mem sender in_r)
       then PyDict.set receiver (append_item in_r sender) incoming
       else incoming in
     Ok (outgoing', incoming'))%result.

(** One iteration of the loop over [edges]. *)
Definition process_edge (edge : Edge)
  (maps : neighbor_map * neighbor_map) : result (neighbor_map * neighbor_map) :=
  let dir := match direction edge with Some d => d | None => "bidirectional" end in
  if falsy (from_id edge) || falsy (to_id edge) then Ok maps
  else
    match from_id edge, to_id edge with
    | Some f, Some t =>
        if String.eqb dir "a_to_b" then add_edge f t maps
        else if String.eqb dir "b_to_a" then add_edge t f maps
        else if String.eqb dir "bidirectional" then
          (maps' <- add_edge f t maps ;; add_edge t f maps')%result
        else Ok maps
    | _, _ => Ok maps
    end.

Fixpoint process_edges (edges : list Edge)
  (maps : neighbor_map * neighbor_map) : result (neighbor_map * neighbor_map) :=
  match edges with
  | [] => Ok maps
  | e :: rest => (maps' <- process_edge e maps ;; process_edges rest maps')%result
  end.

Definition empty_neighbors (nodes : list Node) : neighbor_map :=
  PyDict.comprehension id (fun _ => @nil string) nodes.

Definition build_neighbor_maps (nodes : list Node) (edges : list Edge)
  : result (neighbor_map * neighbor_map) :=
  let outgoing := empty_neighbors nodes in
  let incoming := empty_neighbors nodes in
  process_edges edges (outgoing, incoming).

(* ================================================================== *)
(** ** Prompt builder *)
(* ================================================================== *)

(** [f'"{s}"']. *)
Definition quoted (s : string) : string := Py.DQ ++ s ++ Py.DQ.

Definition KEEP_CONCISE : string :=
  Py.NL ++ Py.NL ++ "Keep your response concise.".

(** The instruction block of round 1. *)
Definition ROUND1_INSTRUCTIONS : string :=
  Py.NL ++ Py.NL ++
  "After your full response, output your position/conclusion in JSON format:"
  ++ Py.NL ++ Py.NL ++
  "SUMMARY_JSON:" ++ Py.NL ++
  "{" ++ quoted "position" ++ ": " ++ quoted "Your brief conclusion in 3-8 words" ++ "}"
  ++ Py.NL ++ Py.NL ++
  "Example:" ++ Py.NL ++
  "SUMMARY_JSON:" ++ Py.NL ++
  "{" ++ quoted "position" ++ ": " ++ quoted "AI is beneficial for humanity" ++ "}"
  ++ Py.NL.

(** [base] before and after the instruction every prompt gets. *)
Definition base_fragment (custom_prompt : string) : string :=
  if Py.truthy custom_prompt then custom_prompt
  else "You are a participant in a multi-agent debate.".

Definition prompt_base (custom_prompt : string) : string :=
  base_fragment custom_prompt ++ KEEP_CONCISE.

(** The instruction block of the later rounds, for the neighbor labels
    [neighbor_names] (non-empty where the builder uses it). *)
Definition followup_instructions (neighbor_names : list string) : string :=
  let neighbor_list := Py.join (quoted ", ") neighbor_names in
  let comments_example :=
    Py.join ", "
      (map (fun name => quoted name ++ ": " ++ quoted "Brief comment")
           (firstn 2 neighbor_names)) in
  let name0 := nth 0 neighbor_names "" in
  let name1 :=
    if (1 <? List.length neighbor_names)%nat then nth 1 neighbor_names "" else name0 in
  Py.NL ++ Py.NL ++
  "After your full response, output your position and comments in JSON format:"
  ++ Py.NL ++ Py.NL ++
  "SUMMARY_JSON:" ++ Py.NL ++
  "{" ++ quoted "position" ++ ": " ++ quoted "Your brief conclusion in 3-8 words"
  ++ ", " ++ quoted "comments" ++ ": {" ++ comments_example ++ "}}"
  ++ Py.NL ++ Py.NL ++
  "Example:" ++ Py.NL ++
  "SUMMARY_JSON:" ++ Py.NL ++
  "{" ++ quoted "position" ++ ": " ++ quoted "AI needs regulation"
  ++ ", " ++ quoted "comments" ++ ": {"
  ++ quoted name0 ++ ": " ++ quoted "I agree with your risk analysis" ++ ", "
  ++ quoted name1 ++ ": " ++ quoted "However, your timeline is too pessimistic"
  ++ "}}"
  ++ Py.NL ++ Py.NL ++
  "Your neighbors are: " ++ neighbor_list
  ++ ". Provide exactly one comment per neighbor.".

Definition build_system_prompt (custom_prompt : string)
  (outgoing_neighbors : list string) (labels : dict string string)
  (round_num : Z) : string :=
  let base := prompt_base custom_prompt in
  if (round_num =? 1)%Z then base ++ ROUND1_INSTRUCTIONS
  else
    match outgoing_neighbors with
    | [] => base
    | _ =>
        let neighbor_names :=
          map (fun nid => PyDict.get_default nid nid labels) outgoing_neighbors in
        base ++ followup_instructions neighbor_names
    end.

Definition build_initial_prompt (question : string) : string :=
  "Let's have a thoughtful debate about the following topic:" ++ Py.NL ++ Py.NL
  ++ quoted question ++ Py.NL ++ Py.NL
  ++ "Share your perspective concisely.".

Definition build_followup_prompt (question : string)
  (neighbor_responses : list string) (round_num max_round : Z) : string :=
  match neighbor_responses with
  | _ :: _ =>
      let neighbor_block :=
        Py.join Py.NL
          (map (fun resp => "One agent solution: " ++ resp) neighbor_responses) in
      "These are the solutions to the problem from other agents:" ++ Py.NL
      ++ neighbor_block ++ Py.NL ++ Py.NL
      ++ "Using the solutions from other agents as additional information," ++ Py.NL
      ++ "can you provide your answer to the problem?" ++ Py.NL
      ++ "The original problem is " ++ question ++ Py.NL
  | [] =>
      "There are no solutions from other agents yet." ++ Py.NL
      ++ "Can you provide your answer to the problem?" ++ Py.NL
      ++ "The original problem is " ++ question ++ Py.NL
  end.

(** The loop of [run_debate] that gathers the previous-round texts of the
    incoming neighbors, with its accumulator [neighbor_responses]. *)
Fixpoint gather_neighbor_responses (labels prev_round : dict string string)
  (neighbor_ids : list string) (neighbor_responses : list string) : list string :=
  match neighbor_ids with
  | [] => neighbor_responses
  | neighbor_id :: rest =>
      let neighbor_responses' :=
        match PyDict.get neighbor_id prev_round with
        | Some prev_text =>
            if Py.truthy prev_text then
              let neighbor_label := PyDict.get_default neighbor_id neighbor_id labels in
              append_item neighbor_responses (neighbor_label ++ ": " ++ prev_text)
            else neighbor_responses
        | None => neighbor_responses
        end in
      gather_neighbor_responses labels prev_round rest neighbor_responses'
  end.

(** The user turn of [run_debate] for [node_id] in round [round_num]. *)
Definition build_user_prompt (question : string) (labels : dict string string)
  (incoming : neighbor_map) (responses_by_round : dict Z (dict string string))
  (rounds : Z) (node_id : string) (round_num : Z) : string :=
  if (round_num =? 1)%Z then build_initial_prompt question
  else
    let prev_round := PyDict.get_default (round_num - 1)%Z [] responses_by_round in
    let neighbor_ids := PyDict.get_default node_id [] incoming in
    let neighbor_responses :=
      gather_neighbor_responses labels prev_round neighbor_ids [] in
    build_followup_prompt question neighbor_responses round_num rounds.

(* ================================================================== *)
(** ** Regular expressions: the fragment of [re] the parser uses *)
(* ================================================================== *)

Module Re.

(** A pattern is a sequence of items: a literal character, compared
    without case under [(?i)], or a greedy starred character class. *)
Inductive item : Type :=
| Lit (c : ascii)
| Star (cls : ascii -> bool).

Definition regex := list item.

Definition char_match_ignorecase (p c : ascii) : bool :=
  Ascii.eqb (Py.lower_char p) (Py.lower_char c).

(** [cls*] followed by the continuation [k]: the longest run first, then
    shorter ones (backtracking). The result is the number of characters
    matched. *)
Fixpoint star_then (cls : ascii -> bool) (k : string -> option nat)
  (s : string) : option nat :=
  match s with
  | EmptyString => k s
  | String c r =>
      if cls c then
        match star_then cls k r with
        | Some n => Some (S n)
        | None => k s
        end
      else k s
  end.

(** Match the pattern at the start of [s]. *)
Fixpoint match_here (p : regex) : string -> option nat :=
  match p with
  | [] => fun _ => Some 0
  | Lit a :: p' =>
      fun s =>
        match s with
        | EmptyString => None
        | String c r =>
            if char_match_ignorecase a c
            then option_map S (match_here p' r)
            else None
        end
  | Star cls :: p' => star_then cls (match_here p')
  end.

(** [re.search]: the leftmost match, as [(match.start(), match.end())]. *)
Fixpoint search_from (p : regex) (s : string) (pos : nat) : option (nat * nat) :=
  match match_here p s with
  | Some n => Some (pos, pos + n)
  | None =>
      match s with
      | EmptyString => None
      | String _ r => search_from p r (S pos)
      end
  end.

Definition search (p : regex) (s : string) : option (nat * nat) :=
  search_from p s 0.

Fixpoint literal (s : string) : regex :=
  match s with
  | EmptyString => []
  | String c r => Lit c :: literal r
  end.

End Re.

(* ================================================================== *)
(** ** JSON values and the [json] library interface *)
(* ================================================================== *)

(** What [json.loads] returns.  An object is the [dict] Python builds from
    it; a number with a fraction or an exponent is a [float], kept here as
    its lexeme. *)
Inductive json : Type :=
| JNull
| JBool (b : bool)
| JInt (z : Z)
| JFloat (lexeme : string)
| JString (s : string)
| JArray (items : list json)
| JObject (members : list (string * json)).

(** The library functions the parser calls: [json.loads], which returns
    the decoded value or raises ([ValueError] for a text that is not JSON,
    [RecursionError] for one nested too deep), and [repr] of a value that
    is not a string, which is what [str] returns for it. *)
Class JsonLib : Type := {
  json_loads : string -> result json;
  py_repr : json -> string
}.

(** [str(v)]. *)
Definition py_str `{JsonLib} (v : json) : string :=
  match v with
  | JString s => s
  | _ => py_repr v
  end.

(* ================================================================== *)
(** ** Response parser: [parse_summary_json] *)
(* ================================================================== *)

Definition is_newline (c : ascii) : bool := Ascii.eqb c "010"%char.

(** The pattern of the marker: newlines, the marker without case,
    whitespace, newlines. *)
Definition MARKER : string := "SUMMARY_JSON:".

Definition MARKER_RE : Re.regex :=
  (Re.Star is_newline :: Re.literal MARKER
   ++ [Re.Star Py.isspace; Re.Star is_newline])%list.

Definition parsed : Type := (string * string * dict string string)%type.

(** [text, "", {nid: "" for nid in expected_neighbors}] *)
Definition no_summary (text : string) (expected_neighbors : list string) : parsed :=
  (text, "", PyDict.comprehension (fun nid => nid) (fun _ => "") expected_neighbors).

(** The loop that looks for the closing brace: [i] is the index of the
    first character of [s] in [json_section]; [None] stands for a
    [json_end] left at [-1]. *)
Fixpoint scan_braces (s : string) (i : nat) (brace_count : Z) : option nat :=
  match s with
  | EmptyString => None
  | String c r =>
      if Ascii.eqb c "{"%char then scan_braces r (S i) (brace_count + 1)%Z
      else if Ascii.eqb c "}"%char then
        let brace_count := (brace_count - 1)%Z in
        if (brace_count =? 0)%Z then Some (i + 1)
        else scan_braces r (S i) brace_count
      else scan_braces r (S i) brace_count
  end.

Definition find_json_end (json_section : string) (json_start : nat) : option nat :=
  scan_braces (Py.drop json_start json_section) json_start 0%Z.

(** [{label.lower(): nid for nid, label in labels.items()}] *)
Definition label_to_id (labels : dict string string) : dict string string :=
  PyDict.comprehension (fun item => Py.lower (snd item)) fst labels.

Section Parser.
Context `{JsonLib}.

(** The body of the loop over [comments_dict.items()]. *)
Definition record_comment (label_to_id : dict string string)
  (expected_neighbors : list string) (comments : dict string string)
  (item : string * json) : dict string string :=
  let '(neighbor_name, comment_text) := item in
  let name_lower := Py.lower (Py.strip neighbor_name) in
  match PyDict.get name_lower label_to_id with
  | Some nid =>
      if Py.mem nid expected_neighbors
      then PyDict.set nid (Py.strip (py_str comment_text)) comments
      else comments
  | None => comments
  end.

(** The comments of rounds 2 and later; [.items()] of a value that is not
    an object raises [AttributeError]. *)
Definition extract_comments (data : dict string json)
  (label_to_id : dict string string) (expected_neighbors : list string)
  (round_num : Z) : result (dict string string) :=
  if (1 <? round_num)%Z && PyDict.has "comments" data then
    (comments_value <- getitem data "comments" ;;
     match comments_value with
     | JObject comments_dict =>
         Ok (fold_left (record_comment label_to_id expected_neighbors)
               comments_dict [])
     | _ => Raise AttributeError
     end)%result
  else Ok [].

(** The final loop: every expected neighbor without a comment gets the
    empty string. *)
Definition fill_missing (expected_neighbors : list string)
  (comments : dict string string) : dict string string :=
  fold_left
    (fun comments nid =>
       if negb (PyDict.has nid comments) then PyDict.set nid "" comments
       else comments)
    expected_neighbors comments.

Definition parse_summary_json (text : string) (expected_neighbors : list string)
  (labels : dict string string) (round_num : Z) : result parsed :=
  match Re.search MARKER_RE text with
  | None => Ok (no_summary text expected_neighbors)
  | Some (m_start, m_end) =>
      let main_text := Py.strip (Py.take m_start text) in
      let json_section := Py.strip (Py.drop m_end text) in
      let label_to_id := label_to_id labels in
      match Py.find "{"%char json_section with
      | None => Ok (no_summary text expected_neighbors)
      | Some json_start =>
          match find_json_end json_section json_start with
          | None => Ok (no_summary text expected_neighbors)
          | Some json_end =>
              let json_str := Py.slice json_start json_end json_section in
              match json_loads json_str with
              | Raise ValueError => Ok (no_summary text expected_neighbors)
              | Raise e => Raise e
              | Ok (JObject data) =>
                  let position :=
                    Py.strip (py_str (PyDict.get_default "position" (JString "") data)) in
                  (comments <- extract_comments data label_to_id
                                 expected_neighbors round_num ;;
                   Ok (main_text, position,
                       fill_missing expected_neighbors comments))%result
              | Ok _ => Raise AttributeError
              end
          end
      end
  end.

End Parser.

(* ================================================================== *)
(** ** A reader for the JSON grammar *)
(* ================================================================== *)

(** An instance of [JsonLib] to run the parser on concrete replies: the
    grammar [json.loads] accepts (objects, arrays, strings with escapes,
    numbers, [true], [false], [null] and Python's [NaN], [Infinity],
    [-Infinity]), over the characters of the model.  A [\u] escape is read
    up to U+00FF, the last character of the model; the reader rejects a
    larger one, which [json.loads] would decode.  The properties of the
    parser below hold for every [JsonLib], not only for this reader. *)
Module JsonReader.

(** The whitespace of the decoder: space, TAB, LF, CR. *)
Definition is_ws (c : ascii) : bool :=
  Ascii.eqb c " "%char || Ascii.eqb c "009"%char
  || Ascii.eqb c "010"%char || Ascii.eqb c "013"%char.

Fixpoint skip_ws (s : string) : string :=
  match s with
  | String c r => if is_ws c then skip_ws r else s
  | EmptyString => s
  end.

Definition is_digit (c : ascii) : bool :=
  let n := nat_of_ascii c in ((48 <=? n) && (n <=? 57))%nat.

Definition hex_value (c : ascii) : option nat :=
  let n := nat_of_ascii c in
  if ((48 <=? n) && (n <=? 57))%nat then Some (n - 48)
  else if ((97 <=? n) && (n <=? 102))%nat then Some (n - 87)
  else if ((65 <=? n) && (n <=? 70))%nat then Some (n - 55)
  else None.

(** The four hex digits of a [\u] escape. *)
Definition read_hex4 (s : string) : option (nat * string) :=
  match s with
  | String a (String b (String c (String d r))) =>
      match hex_value a, hex_value b, hex_value c, hex_value d with
      | Some x, Some y, Some z, Some w => Some (((x * 16 + y) * 16 + z) * 16 + w, r)
      | _, _, _, _ => None
      end
  | _ => None
  end.

(** The characters of a string literal after its opening quote, up to
    the closing one. *)
Fixpoint read_string (fuel : nat) (s : string) : option (string * string) :=
  match fuel with
  | O => None
  | S fuel' =>
      match s with
      | EmptyString => None
      | String c r =>
          if Ascii.eqb c "034"%char then Some (EmptyString, r)
          else if Ascii.eqb c "\"%char then
            match r with
            | EmptyString => None
            | String e r' =>
                let continue (ch : ascii) (rest : string) :=
                  match read_string fuel' rest with
                  | Some (body, rest') => Some (String ch body, rest')
                  | None => None
                  end in
                if Ascii.eqb e "034"%char then continue "034"%char r'
                else if Ascii.eqb e "\"%char then continue "\"%char r'
                else if Ascii.eqb e "/"%char then continue "/"%char r'
                else if Ascii.eqb e "b"%char then continue "008"%char r'
                else if Ascii.eqb e "f"%char then continue "012"%char r'
                else if Ascii.eqb e "n"%char then continue "010"%char r'
                else if Ascii.eqb e "r"%char then continue "013"%char r'
                else if Ascii.eqb e "t"%char then continue "009"%char r'
                else if Ascii.eqb e "u"%char then
                  match read_hex4 r' with
                  | Some (n, r'') =>
                      if (n <? 256)%nat then continue (ascii_of_nat n) r'' else None
                  | None => None
                  end
                else None
            end
          else if (nat_of_ascii c <? 32)%nat then None
          else
            match read_string fuel' r with
            | Some (body, rest) => Some (String c body, rest)
            | None => None
            end
      end
  end.

Fixpoint read_digits (s : string) : string * string :=
  match s with
  | String c r =>
      if is_digit c then let '(ds, rest) := read_digits r in (String c ds, rest)
      else (EmptyString, s)
  | EmptyString => (EmptyString, s)
  end.

Fixpoint digits_value (ds : string) (acc : Z) : Z :=
  match ds with
  | EmptyString => acc
  | String c r => digits_value r (10 * acc + Z.of_nat (nat_of_ascii c - 48))%Z
  end.

(** A number: an optional minus, an integer part without a leading zero,
    an optional fraction and an optional exponent. *)
Definition read_number (s : string) : option (json * string) :=
  let '(sign, s1) :=
    match s with
    | String "-"%char r => ("-", r)
    | _ => ("", s)
    end in
  let '(int_part, s2) :=
    match s1 with
    | String "0"%char r => ("0", r)
    | _ => read_digits s1
    end in
  match int_part with
  | EmptyString => None
  | _ =>
      let '(frac, s3) :=
        match s2 with
        | String "."%char r =>
            match read_digits r with
            | (EmptyString, _) => ("", s2)
            | (ds, rest) => ("." ++ ds, rest)
            end
        | _ => ("", s2)
        end in
      let '(exp, s4) :=
        match s3 with
        | String e r =>
            if Ascii.eqb e "e"%char || Ascii.eqb e "E"%char then
              let '(esign, r1) :=
                match r with
                | String "-"%char r' => ("-", r')
                | String "+"%char r' => ("+", r')
                | _ => ("", r)
                end in
              match read_digits r1 with
              | (EmptyString, _) => ("", s3)
              | (ds, rest) => (String e esign ++ ds, rest)
              end
            else ("", s3)
        | EmptyString => ("", s3)
        end in
      match frac, exp with
      | EmptyString, EmptyString =>
          let n := digits_value int_part 0%Z in
          Some (JInt (if Py.truthy sign then (- n)%Z else n), s4)
      | _, _ => Some (JFloat (sign ++ int_part ++ frac ++ exp), s4)
      end
  end.

Definition expect (lit : string) (v : json) (s : string) : option (json * string) :=
  if Py.startswith lit s then Some (v, Py.drop (String.length lit) s) else None.

(** A literal or a number that is not one raises [JSONDecodeError]. *)
Definition read_literal (read : option (json * string)) : result (json * string) :=
  match read with
  | Some vr => Ok vr
  | None => Raise ValueError
  end.

Section Reader.

(** The number of nested objects and arrays the interpreter has stack
    for when [json.loads] is called. *)
Variable limit : nat.

(** A value, the members of an object after its first key's quote is due,
    and the elements of an array.  [depth] counts the objects and arrays
    that are open; the decoder enters a recursive call for each, and the
    one that does not fit raises [RecursionError] before anything of the
    object or array is read. *)
Fixpoint read_value (fuel depth : nat) (s : string) : result (json * string) :=
  match fuel with
  | O => Raise ValueError
  | S fuel' =>
      match s with
      | EmptyString => Raise ValueError
      | String c r =>
          if Ascii.eqb c "034"%char then
            match read_string (String.length r) r with
            | Some (str, rest) => Ok (JString str, rest)
            | None => Raise ValueError
            end
          else if Ascii.eqb c "{"%char then
            if (limit <=? depth)%nat then Raise RecursionError
            else
              match skip_ws r with
              | String "}"%char rest => Ok (JObject [], rest)
              | r' => read_members fuel' (S depth) r' []
              end
          else if Ascii.eqb c "["%char then
            if (limit <=? depth)%nat then Raise RecursionError
            else
              match skip_ws r with
              | String "]"%char rest => Ok (JArray [], rest)
              | r' => read_elements fuel' (S depth) r' []
              end
          else if Ascii.eqb c "n"%char then read_literal (expect "null" JNull s)
          else if Ascii.eqb c "t"%char then read_literal (expect "true" (JBool true) s)
          else if Ascii.eqb c "f"%char then read_literal (expect "false" (JBool false) s)
          else if Ascii.eqb c "N"%char then read_literal (expect "NaN" (JFloat "NaN") s)
          else if Ascii.eqb c "I"%char
          then read_literal (expect "Infinity" (JFloat "Infinity") s)
          else if Py.startswith "-Infinity" s
          then read_literal (expect "-Infinity" (JFloat "-Infinity") s)
          else read_literal (read_number s)
      end
  end
with read_members (fuel depth : nat) (s : string) (acc : dict string json)
  : result (json * string) :=
  match fuel with
  | O => Raise ValueError
  | S fuel' =>
      match s with
      | String "034"%char r =>
          match read_string (String.length r) r with
          | Some (key, r1) =>
              match skip_ws r1 with
              | String ":"%char r2 =>
                  match read_value fuel' depth (skip_ws r2) with
                  | Ok (v, r3) =>
                      let acc' := PyDict.set key v acc in
                      match skip_ws r3 with
                      | String "}"%char rest => Ok (JObject acc', rest)
                      | String ","%char r4 => read_members fuel' depth (skip_ws r4) acc'
                      | _ => Raise ValueError
                      end
                  | Raise e => Raise e
                  end
              | _ => Raise ValueError
              end
          | None => Raise ValueError
          end
      | _ => Raise ValueError
      end
  end
with read_elements (fuel depth : nat) (s : string) (acc : list json)
  : result (json * string) :=
  match fuel with
  | O => Raise ValueError
  | S fuel' =>
      match read_value fuel' depth s with
      | Ok (v, r1) =>
          let acc' := append_item acc v in
          match skip_ws r1 with
          | String "]"%char rest => Ok (JArray acc', rest)
          | String ","%char r2 => read_elements fuel' depth (skip_ws r2) acc'
          | _ => Raise ValueError
          end
      | Raise e => Raise e
      end
  end.

(** [json.loads]: one value between optional whitespace, nothing after
    it.  Every recursive call of the reader follows at least one consumed
    character, so twice the length of the text is fuel enough. *)
Definition loads (s : string) : result json :=
  match read_value (2 * String.length s + 2) 0 (skip_ws s) with
  | Ok (v, rest) =>
      match skip_ws rest with
      | EmptyString => Ok v
      | _ => Raise ValueError
      end
  | Raise e => Raise e
  end.

End Reader.

(** The default recursion limit of CPython.  The depth left under it at
    the call is smaller and depends on the caller's stack; the samples
    nest two deep. *)
Definition DEFAULT_RECURSION_LIMIT : nat := 1000.

End JsonReader.

(* ================================================================== *)
(** ** [repr] of decoded values *)
(* ================================================================== *)

Module Repr.

Definition hex_digit (n : nat) : ascii :=
  if (n <? 10)%nat then ascii_of_nat (48 + n) else ascii_of_nat (87 + n).

(** The characters [repr] of a [str] writes as they are. *)
Definition printable (c : ascii) : bool :=
  let n := nat_of_ascii c in
  (((32 <=? n) && (n <=? 126))
   || ((161 <=? n) && negb (n =? 173)))%nat.

Definition escape_char (quote c : ascii) : string :=
  if Ascii.eqb c quote || Ascii.eqb c "\"%char then String "\"%char (String c "")
  else if Ascii.eqb c "009"%char then "\t"
  else if Ascii.eqb c "010"%char then "\n"
  else if Ascii.eqb c "013"%char then "\r"
  else if printable c then String c ""
  else
    let n := nat_of_ascii c in
    "\x" ++ String (hex_digit (n / 16)) (String (hex_digit (n mod 16)) "").

Fixpoint escape (quote : ascii) (s : string) : string :=
  match s with
  | EmptyString => EmptyString
  | String c r => escape_char quote c ++ escape quote r
  end.

(** [repr(s)]: single quotes unless the text has one and no double quote. *)
Definition repr_str (s : string) : string :=
  let quote :=
    if Py.has_char "'"%char s && negb (Py.has_char "034"%char s)
    then "034"%char else "'"%char in
  String quote (escape quote s) ++ String quote "".

(** [repr] of a decoded value; [float_repr] gives the text Python prints
    for the [float] a lexeme denotes. *)
Fixpoint repr (float_repr : string -> string) (v : json) : string :=
  match v with
  | JNull => "None"
  | JBool true => "True"
  | JBool false => "False"
  | JInt z => Py.str_of_int z
  | JFloat lexeme => float_repr lexeme
  | JString s => repr_str s
  | JArray items => "[" ++ Py.join ", " (map (repr float_repr) items) ++ "]"
  | JObject members =>
      "{" ++ Py.join ", "
               (map (fun kv =>
                       match kv with
                       | (k, x) => repr_str k ++ ": " ++ repr float_repr x
                       end) members)
      ++ "}"
  end.

End Repr.

(** The library as the examples run it, under the default recursion
    limit. *)
Definition StdJson (float_repr : string -> string) : JsonLib :=
  {| json_loads := JsonReader.loads JsonReader.DEFAULT_RECURSION_LIMIT;
     py_repr := Repr.repr float_repr |}.

(* ================================================================== *)
(** ** Debate scheduler: [run_debate] *)
(* ================================================================== *)

(** The messages of a conversation history. *)
Inductive LLMMessage : Type :=
| SystemMessage (content : string)
| UserMessage (content source : string)
| AssistantMessage (content source : string).

(** The records the generator yields: [{"type": "position", ...}] and
    [{"type": "message", ...}]. *)
Inductive event : Type :=
| PositionEvent (from_ position : string) (round : Z)
| MessageEvent (from_ to_ text summary : string) (round : Z).

(** The model backend: the reply of a node's client to a history and the
    reply of the aggregator's client; [None] when the call raises. *)
Class Backend : Type := {
  create : string -> list LLMMessage -> option string;
  aggregator_create : list LLMMessage -> option string
}.

Definition call (reply : option string) : result string :=
  match reply with
  | Some content => Ok content
  | None => Raise BackendError
  end.

(** A generator: the events yielded so far and how the body went on. *)
Definition Gen (A : Type) : Type := (list event * result A)%type.

Definition gret {A} (a : A) : Gen A := ([], Ok a).

Definition gbind {A B} (m : Gen A) (f : A -> Gen B) : Gen B :=
  match m with
  | (evs, Ok a) => let '(evs', r) := f a in ((evs ++ evs')%list, r)
  | (evs, Raise e) => (evs, Raise e)
  end.

Definition yield (e : event) : Gen unit := ([e], Ok tt).

Definition lift {A} (r : result A) : Gen A := ([], r).

Declare Scope gen_scope.
Delimit Scope gen_scope with gen.
Notation "x <- m ;; k" := (gbind m (fun x => k))
  (at level 61, m at next level, right associativity) : gen_scope.
Notation "' p <- m ;; k" := (gbind m (fun p => k))
  (at level 61, p pattern, m at next level, right associativity) : gen_scope.
Notation "m ;;; k" := (gbind m (fun _ => k))
  (at level 61, right associativity) : gen_scope.

Fixpoint yield_all (evs : list event) : Gen unit :=
  match evs with
  | [] => gret tt
  | e :: rest => (yield e ;;; yield_all rest)%gen
  end.

(** What the round loop reads and never writes. *)
Record plan : Type := mkPlan {
  outgoing : neighbor_map;
  incoming : neighbor_map;
  labels : dict string string;
  question : string;
  rounds : Z
}.

(** What the round loop writes. *)
Record session : Type := mkSession {
  histories : dict string (list LLMMessage);
  responses_by_round : dict Z (dict string string)
}.

Definition AGGREGATOR_SYSTEM_PROMPT : string :=
  "You are the aggregator for a multi-agent debate." ++ Py.NL
  ++ "Summarize all agent responses across all rounds into a concise final summary (3-5 sentences)."
  ++ Py.NL
  ++ "Focus on key points and disagreements without adding new arguments." ++ Py.NL.

Definition DEFAULT_QUESTION : string :=
  "The impact of artificial intelligence on society: Is AI ultimately beneficial or harmful?".

(** [(node.get("systemPrompt") or "").strip()] *)
Definition custom_prompt_of (node : Node) : string :=
  Py.strip (match systemPrompt node with Some s => s | None => "" end).

(** [history[0] = m] *)
Definition set_first (history : list LLMMessage) (m : LLMMessage)
  : result (list LLMMessage) :=
  match history with
  | [] => Raise IndexError
  | _ :: rest => Ok (m :: rest)
  end.

(** The message events of one step. *)
Definition message_events (node_id : string) (recipients : list string)
  (main_text : string) (comments : dict string string) (round_num : Z)
  : list event :=
  match recipients with
  | [] => [MessageEvent node_id "none" main_text "" round_num]
  | _ =>
      map (fun to_id =>
             let comment := PyDict.get_default to_id "" comments in
             MessageEvent node_id to_id main_text comment round_num)
          recipients
  end.

Section Scheduler.
Context `{JsonLib} `{Backend}.

(** The body of the loop over [nodes], for one node in one round. *)
Definition debate_step (p : plan) (round_num : Z) (node : Node)
  (st : session) : Gen session :=
  (let node_id := id node in
   history <- lift (getitem (histories st) node_id) ;;
   let new_system_prompt :=
     build_system_prompt (custom_prompt_of node)
       (PyDict.get_default node_id [] (outgoing p)) (labels p) round_num in
   history <- lift (set_first history (SystemMessage new_system_prompt)) ;;
   let prompt :=
     build_user_prompt (question p) (labels p) (incoming p)
       (responses_by_round st) (rounds p) node_id round_num in
   let history := append_item history (UserMessage prompt "user") in
   content <- lift (call (create node_id history)) ;;
   let history :=
     append_item history
       (AssistantMessage content (PyDict.get_default node_id node_id (labels p))) in
   let histories' := PyDict.set node_id history (histories st) in
   let recipients := PyDict.get_default node_id [] (outgoing p) in
   '(main_text, position, comments) <-
      lift (parse_summary_json content recipients (labels p) round_num) ;;
   round_table <- lift (getitem (responses_by_round st) round_num) ;;
   let responses' :=
     PyDict.set round_num (PyDict.set node_id main_text round_table)
       (responses_by_round st) in
   yield (PositionEvent node_id position round_num) ;;;
   yield_all (message_events node_id recipients main_text comments round_num) ;;;
   gret (mkSession histories' responses'))%gen.

(** The loop over [nodes] of one round. *)
Fixpoint run_nodes (p : plan) (round_num : Z) (nodes : list Node)
  (st : session) : Gen session :=
  match nodes with
  | [] => gret st
  | node :: rest =>
      (st' <- debate_step p round_num node st ;;
       run_nodes p round_num rest st')%gen
  end.

(** One round: a fresh response table, then every node in turn. *)
Definition run_round (p : plan) (nodes : list Node) (round_num : Z)
  (st : session) : Gen session :=
  run_nodes p round_num nodes
    (mkSession (histories st)
       (PyDict.set round_num [] (responses_by_round st))).

(** The loop over the rounds [round_nums]. *)
Fixpoint run_rounds (p : plan) (nodes : list Node) (round_nums : list Z)
  (st : session) : Gen session :=
  match round_nums with
  | [] => gret st
  | round_num :: rest =>
      (st' <- run_round p nodes round_num st ;;
       run_rounds p nodes rest st')%gen
  end.

End Scheduler.

(** The configuration [run_debate] receives: [config.get("nodes", [])],
    [config.get("edges", [])], the round count after [int] ([None] when
    the key is absent) and [config.get("question")]. *)
Record Config : Type := mkConfig {
  cfg_nodes : list Node;
  cfg_edges : list Edge;
  cfg_rounds : option Z;
  cfg_question : option string
}.

(** [sorted] on round numbers. *)
Fixpoint insert_sorted (x : Z) (xs : list Z) : list Z :=
  match xs with
  | [] => [x]
  | y :: rest => if (x <=? y)%Z then x :: xs else y :: insert_sorted x rest
  end.

Definition sorted (xs : list Z) : list Z := fold_right insert_sorted [] xs.

Definition build_aggregator_prompt (question : string)
  (responses_by_round : dict Z (dict string string))
  (labels : dict string string) : string :=
  let lines :=
    flat_map
      (fun round_num =>
         map (fun item =>
                let '(node_id, text) := item in
                let label := PyDict.get_default node_id node_id labels in
                "Round " ++ Py.str_of_int round_num ++ " - " ++ label ++ ": " ++ text)
             (PyDict.get_default round_num [] responses_by_round))
      (sorted (PyDict.keys responses_by_round)) in
  let transcript :=
    match lines with
    | [] => "No responses."
    | _ => Py.join Py.NL lines
    end in
  "Debate topic:" ++ Py.NL
  ++ question ++ Py.NL ++ Py.NL
  ++ "Agent responses by round:" ++ Py.NL
  ++ transcript ++ Py.NL ++ Py.NL
  ++ "Provide a concise final summary.".

(** [range(1, rounds + 1)] *)
Definition round_range (rounds : Z) : list Z :=
  map Z.of_nat (seq 1 (Z.to_nat rounds)).

(** [rounds], [question] and the maps built before the first round. *)
Definition resolve_rounds (config : Config) : Z :=
  Z.max 1 (match cfg_rounds config with Some r => r | None => 3%Z end).

Definition resolve_question (config : Config) : string :=
  let question :=
    Py.strip (match cfg_question config with Some q => q | None => "" end) in
  if Py.truthy question then question else DEFAULT_QUESTION.

Definition node_labels (nodes : list Node) : dict string string :=
  PyDict.comprehension id label nodes.

(** The histories before the first round: one system message per node. *)
Definition initial_histories (nodes : list Node) (outgoing : neighbor_map)
  (labels : dict string string) : dict string (list LLMMessage) :=
  fold_left
    (fun histories node =>
       let prompt :=
         build_system_prompt (custom_prompt_of node)
           (PyDict.get_default (id node) [] outgoing) labels 1 in
       PyDict.set (id node) [SystemMessage prompt] histories)
    nodes [].

Definition make_plan (config : Config) (maps : neighbor_map * neighbor_map) : plan :=
  {| outgoing := fst maps;
     incoming := snd maps;
     labels := node_labels (cfg_nodes config);
     question := resolve_question config;
     rounds := resolve_rounds config |}.

Definition initial_session (p : plan) (nodes : list Node) : session :=
  {| histories := initial_histories nodes (outgoing p) (labels p);
     responses_by_round := [] |}.

Section Debate.
Context `{JsonLib} `{Backend}.

(** The rounds of a debate, up to and including round [n]. *)
Definition debate_rounds (config : Config) (n : nat) : Gen session :=
  (maps <- lift (build_neighbor_maps (cfg_nodes config) (cfg_edges config)) ;;
   let p := make_plan config maps in
   run_rounds p (cfg_nodes config) (map Z.of_nat (seq 1 n))
     (initial_session p (cfg_nodes config)))%gen.

(** The aggregator pass after the last round. *)
Definition aggregate (p : plan) (st : session) : Gen unit :=
  match responses_by_round st with
  | [] => gret tt
  | _ =>
      (let aggregator_prompt :=
         build_aggregator_prompt (question p) (responses_by_round st) (labels p) in
       let aggregator_messages :=
         [SystemMessage AGGREGATOR_SYSTEM_PROMPT;
          UserMessage aggregator_prompt "user"] in
       content <- lift (call (aggregator_create aggregator_messages)) ;;
       yield (MessageEvent "aggregator" "all" "" content (rounds p)))%gen
  end.

Definition run_debate (config : Config) : Gen unit :=
  match cfg_nodes config with
  | [] => gret tt
  | _ =>
      (maps <- lift (build_neighbor_maps (cfg_nodes config) (cfg_edges config)) ;;
       let p := make_plan config maps in
       st <- run_rounds p (cfg_nodes config) (round_range (rounds p))
               (initial_session p (cfg_nodes config)) ;;
       aggregate p st)%gen
  end.

End Debate.

(* ================================================================== *)
(** ** Short summaries: [extract_summary] *)
(* ================================================================== *)

(** [s[:stop]] for any [int]: a negative [stop] counts from the end. *)
Definition slice_to (stop : Z) (s : string) : string :=
  if (stop <? 0)%Z
  then Py.take (Z.to_nat (Z.of_nat (String.length s) + stop)) s
  else Py.take (Z.to_nat stop) s.

(** [s.split(sep)[0]] for a one-character [sep]: the text before the
    first [sep], the whole text when there is none. *)
Definition split_head (sep : ascii) (s : string) : string :=
  match Py.find sep s with
  | Some i => Py.take i s
  | None => s
  end.

Definition DEFAULT_MAX_LENGTH : Z := 50.

Definition extract_summary (text : string) (max_length : Z) : string :=
  if Py.has_char "."%char (slice_to max_length text)
  then split_head "."%char text ++ "."
  else if (Z.of_nat (String.length text) >? max_length)%Z
       then slice_to max_length text ++ "..."
       else text.

(* ================================================================== *)
(** ** The WebSocket endpoint: [websocket_endpoint] of [main.py] *)
(* ================================================================== *)

(** What [json.loads] makes of the text the endpoint receives: a text
    that is not JSON, or a configuration of the shape [run_debate] takes,
    with the value of [config.get("apiKey")]. *)
Inductive request : Type :=
| Undecodable
| Decoded (config : Config) (api_key : option string).

(** The client of a session.  [first_message]: the text it sends after
    connecting, as decoded; [None] when it leaves before it sends, where
    [receive_text] raises [WebSocketDisconnect].  [frames_taken]: the
    number of frames it takes before it leaves; [None] when it stays to
    the end.  A [send_json] to a client that has left raises: a
    [WebSocketDisconnect] is logged and ends the session; any other
    exception reaches [except Exception], whose own [send_json] raises
    again.  Either way no further frame is sent. *)
Record client : Type := mkClient {
  first_message : option request;
  frames_taken : option nat
}.

(** The frames sent with [send_json]: [{"type": "error", "error": ...}]
    with a fixed text or with [str(e)] of a caught exception; a position
    event as it is; [{"type": "message", "data": message}]; and
    [{"type": "complete"}]. *)
Inductive frame : Type :=
| ErrorFrame (error : string)
| ExceptionFrame (e : exn)
| PositionFrame (message : event)
| MessageFrame (message : event)
| CompleteFrame.

(** The body of the loop over the messages of [run_debate]. *)
Definition relay (message : event) : frame :=
  match message with
  | PositionEvent _ _ _ => PositionFrame message
  | MessageEvent _ _ _ _ _ => MessageFrame message
  end.

Section Endpoint.
Context `{JsonLib} `{Backend}.

(** The frames the [try] block and its handlers send for what was
    received, in order, when every [send_json] succeeds. *)
Definition session_frames (received : request) : list frame :=
  match received with
  | Undecodable => [ErrorFrame "Invalid JSON format"]
  | Decoded config api_key =>
      if (List.length (cfg_nodes config) <? 2)%nat
      then [ErrorFrame "At least 2 agents are required"]
      else if falsy api_key
      then [ErrorFrame "API key is required"]
      else
        let '(messages, outcome) := run_debate config in
        (map relay messages
         ++ match outcome with
            | Ok _ => [CompleteFrame]
            | Raise e => [ExceptionFrame e]
            end)%list
  end.

(** The frames of one session, in the order they are sent. *)
Definition websocket_endpoint (c : client) : list frame :=
  match first_message c with
  | None => []
  | Some received =>
      match frames_taken c with
      | None => session_frames received
      | Some taken => firstn taken (session_frames received)
      end
  end.

End Endpoint.

(* ================================================================== *)
(** * Vocabulary of the statements *)
(* ================================================================== *)

Unset Implicit Arguments.

(** ** Topology *)

(** A neighbor map over the node ids [ids]: its keys are the ids, once
    each, and every neighbor list is duplicate-free and within the ids. *)
Definition neighbors_ok (ids : list string) (m : neighbor_map) : Prop :=
  NoDup (PyDict.keys m)
  /\ (forall k, In k (PyDict.keys m) <-> In k ids)
  /\ (forall k l, PyDict.get k m = Some l ->
                  NoDup l /\ forall x, In x l -> In x ids).

(** An edge the resolver has nothing to do for: an endpoint is missing,
    empty, or not a node id. *)
Definition malformed (ids : list string) (e : Edge) : Prop :=
  falsy (from_id e) = true \/ falsy (to_id e) = true
  \/ (exists f, from_id e = Some f /\ ~ In f ids)
  \/ (exists t, to_id e = Some t /\ ~ In t ids).

(** [x in m[k]] *)
Definition neighbor_of (m : neighbor_map) (k x : string) : Prop :=
  exists l, PyDict.get k m = Some l /\ In x l.

Definition edge (dir from to : string) : Edge :=
  mkEdge (Some dir) (Some from) (Some to).

Definition two_nodes : list Node :=
  [mkNode "x" "Xavier" None; mkNode "y" "Yara" None].

(** ** Prompts *)

(** [pat] occurs in [s]. *)
Definition occurs_in (pat s : string) : Prop :=
  exists before after, s = before ++ pat ++ after.

(** The line an incoming neighbor contributes: ["<label>: <text>"] when
    its previous-round text is present and non-empty, nothing otherwise. *)
Definition solution_line (labels prev_round : dict string string)
  (neighbor_id : string) : list string :=
  match PyDict.get neighbor_id prev_round with
  | Some prev_text =>
      if Py.truthy prev_text
      then [PyDict.get_default neighbor_id neighbor_id labels ++ ": " ++ prev_text]
      else []
  | None => []
  end.

Definition solution_lines (labels prev_round : dict string string)
  (neighbor_ids : list string) : list string :=
  flat_map (solution_line labels prev_round) neighbor_ids.

(** ** Replies *)

(** [s] starts with [pat], compared without case. *)
Fixpoint startswith_ignorecase (pat s : string) : bool :=
  match pat, s with
  | EmptyString, _ => true
  | String _ _, EmptyString => false
  | String p pr, String c r =>
      Re.char_match_ignorecase p c && startswith_ignorecase pr r
  end.

(** The marker stands at index [i] of [text], in any case. *)
Definition marker_at (text : string) (i : nat) : Prop :=
  startswith_ignorecase MARKER (Py.drop i text) = true.

(** Opening minus closing braces of a text. *)
Fixpoint brace_depth (s : string) : Z :=
  match s with
  | EmptyString => 0
  | String c r =>
      ((if Ascii.eqb c "{"%char then 1
        else if Ascii.eqb c "}"%char then -1 else 0) + brace_depth r)%Z
  end.

Section Envelopes.
Context `{JsonLib}.

(** The ways a reply falls back to the whole text: the marker stands
    nowhere; or the segment after it has no opening brace; or the first
    opening brace is never matched (the depth stays positive after it); or
    the bracketed text is not JSON: [json.loads] raises [JSONDecodeError],
    or another [ValueError]. *)
Inductive fallback_case (text : string) : Prop :=
| NoMarker :
    (forall i, ~ marker_at text i) -> fallback_case text
| NoOpeningBrace m_start m_end :
    Re.search MARKER_RE text = Some (m_start, m_end) ->
    Py.has_char "{"%char (Py.strip (Py.drop m_end text)) = false ->
    fallback_case text
| NoClosingBrace m_start m_end json_start :
    Re.search MARKER_RE text = Some (m_start, m_end) ->
    Py.find "{"%char (Py.strip (Py.drop m_end text)) = Some json_start ->
    (forall n, 0 < n ->
       (0 < brace_depth
              (Py.take n (Py.drop json_start (Py.strip (Py.drop m_end text)))))%Z) ->
    fallback_case text
| JsonFailure m_start m_end json_start json_end :
    Re.search MARKER_RE text = Some (m_start, m_end) ->
    Py.find "{"%char (Py.strip (Py.drop m_end text)) = Some json_start ->
    find_json_end (Py.strip (Py.drop m_end text)) json_start = Some json_end ->
    json_loads (Py.slice json_start json_end (Py.strip (Py.drop m_end text)))
    = Raise ValueError ->
    fallback_case text.

(** The reply [text] carries an envelope: the marker is found, with
    [main_text] before it; after it the first brace is matched by the
    scan, and the bracketed text decodes to [data]. *)
Definition envelope (text main_text : string) (data : json) : Prop :=
  exists m_start m_end json_start json_end,
    Re.search MARKER_RE text = Some (m_start, m_end)
    /\ main_text = Py.strip (Py.take m_start text)
    /\ Py.find "{"%char (Py.strip (Py.drop m_end text)) = Some json_start
    /\ find_json_end (Py.strip (Py.drop m_end text)) json_start = Some json_end
    /\ json_loads (Py.slice json_start json_end (Py.strip (Py.drop m_end text)))
       = Ok data.

(** On the text the scan brackets in the reply [text], [json.loads]
    raises [e]. *)
Definition decoder_raises (text : string) (e : exn) : Prop :=
  exists m_start m_end json_start json_end,
    Re.search MARKER_RE text = Some (m_start, m_end)
    /\ Py.find "{"%char (Py.strip (Py.drop m_end text)) = Some json_start
    /\ find_json_end (Py.strip (Py.drop m_end text)) json_start = Some json_end
    /\ json_loads (Py.slice json_start json_end (Py.strip (Py.drop m_end text)))
       = Raise e.

End Envelopes.

Section Comments.
Context `{JsonLib}.
Variables (labels : dict string string) (expected : list string).

(** The label [neighbor_name] of a comment names the expected neighbor
    [nid]: lower-cased and trimmed, it is a key of the reverse lookup,
    whose id is in the expected set. *)
Definition resolves (neighbor_name nid : string) : Prop :=
  PyDict.get (Py.lower (Py.strip neighbor_name)) (label_to_id labels) = Some nid
  /\ In nid expected.

Definition resolves_b (nid : string) (item : string * json) : bool :=
  match PyDict.get (Py.lower (Py.strip (fst item))) (label_to_id labels) with
  | Some n => Py.mem n expected && String.eqb n nid
  | None => false
  end.

(** The comments of a reply whose envelope holds the comment pairs
    [items]: the recorded ones, then the empty string for the rest. *)
Definition final_comments (items : list (string * json)) : dict string string :=
  fill_missing expected
    (fold_left (record_comment (label_to_id labels) expected) items []).

End Comments.

(** ** Histories *)

(** The system prompt of [node] in round [round_num]. *)
Definition system_prompt_of (p : plan) (node : Node) (round_num : Z) : string :=
  build_system_prompt (custom_prompt_of node)
    (PyDict.get_default (id node) [] (outgoing p)) (labels p) round_num.

(** The history the backend is called with: the round's system message,
    the earlier turns, the new user turn. *)
Definition call_history (p : plan) (st : session) (round_num : Z) (node : Node)
  (turns : list LLMMessage) : list LLMMessage :=
  (SystemMessage (system_prompt_of p node round_num) :: turns
   ++ [UserMessage
         (build_user_prompt (question p) (labels p) (incoming p)
            (responses_by_round st) (rounds p) (id node) round_num) "user"])%list.

(** User and assistant turns, in pairs. *)
Inductive alternates : list LLMMessage -> Prop :=
| alternates_nil : alternates []
| alternates_pair prompt content source turns :
    alternates turns ->
    alternates (UserMessage prompt "user" :: AssistantMessage content source :: turns).

(** The system message in front after the rounds [round_nums]: the one
    of the last round. *)
Definition last_system (p : plan) (node : Node) (round_nums : list Z)
  (system : LLMMessage) : LLMMessage :=
  match round_nums with
  | [] => system
  | _ => SystemMessage (system_prompt_of p node (last round_nums 0%Z))
  end.

(** ** Samples *)

(** A reply: free text, the marker on a line of its own, the envelope. *)
Definition reply (body envelope_text : string) : string :=
  body ++ Py.NL ++ "SUMMARY_JSON:" ++ Py.NL ++ envelope_text.

(** The samples decode no [float]; this stands in for the text Python
    prints for one and is never consulted on them. *)
Definition no_floats (lexeme : string) : string := lexeme.

Definition malformed_reply : string :=
  reply "Short answer." ("{" ++ quoted "position" ++ ": }").

Definition commented_reply : string :=
  reply "Fine."
    ("{" ++ quoted "position" ++ ": " ++ quoted "P" ++ ", "
     ++ quoted "comments" ++ ": {" ++ quoted " BOB " ++ ": " ++ quoted "Agreed. "
     ++ ", " ++ quoted "Zed" ++ ": 3}}").

(** [n] opening square brackets. *)
Fixpoint brackets (n : nat) : string :=
  match n with
  | O => EmptyString
  | S m => String "["%char (brackets m)
  end.

(** An envelope that is not JSON: its position opens as many arrays as
    the default recursion limit and closes none. *)
Definition deep_envelope : string :=
  "{" ++ quoted "position" ++ ": "
  ++ brackets JsonReader.DEFAULT_RECURSION_LIMIT ++ "}".

Definition deep_reply : string := "SUMMARY_JSON: " ++ deep_envelope.

(** A backend whose every reply is the same text with a round-1 envelope;
    the aggregator answers with a fixed summary. *)
Definition tea_reply : string :=
  reply "Tea first." ("{" ++ quoted "position" ++ ": " ++ quoted "tea" ++ "}").

Definition TeaBackend : Backend :=
  {| create := fun _ _ => Some tea_reply;
     aggregator_create := fun _ => Some "Both say tea." |}.

Definition SilentBackend : Backend :=
  {| create := fun _ _ => None; aggregator_create := fun _ => None |}.

(** A backend that answers with the node's id and the number of
    messages it was sent, under a round-1 envelope. *)
Definition EchoBackend : Backend :=
  {| create := fun node_id history =>
       Some (reply ("Answer of " ++ node_id ++ " to "
                    ++ Py.str_of_int (Z.of_nat (List.length history)) ++ " messages.")
               ("{" ++ quoted "position" ++ ": " ++ quoted node_id ++ "}"));
     aggregator_create := fun _ => Some "Summary." |}.

(** The chain A -> B -> C of the spec's scenario, two rounds. *)
Definition chain_config : Config :=
  {| cfg_nodes := [mkNode "a" "A" None; mkNode "b" "B" None; mkNode "c" "C" None];
     cfg_edges := [edge "a_to_b" "a" "b"; edge "a_to_b" "b" "c"];
     cfg_rounds := Some 2%Z;
     cfg_question := Some "Tea or milk first?" |}.

(** The user turn of round 2 in the history of [node_id] after the two
    rounds of the chain: the fourth message. *)
Definition chain_round_two_prompt (node_id : string) : option string :=
  match snd (@debate_rounds (StdJson no_floats) EchoBackend chain_config 2) with
  | Ok st =>
      match nth_error (PyDict.get_default node_id [] (histories st)) 3 with
      | Some (UserMessage prompt _) => Some prompt
      | _ => None
      end
  | Raise _ => None
  end.

Definition tea_config : Config :=
  {| cfg_nodes := [mkNode "a" "Ay" None; mkNode "b" "Bee" (Some " Be brief. ")];
     cfg_edges := [edge "a_to_b" "a" "b"];
     cfg_rounds := Some 2%Z;
     cfg_question := Some "Tea or milk first?" |}.

Definition tea_plan : plan :=
  {| outgoing := [("a", ["b"]); ("b", [])];
     incoming := [("a", []); ("b", ["a"])];
     labels := [("a", "Ay"); ("b", "Bee")];
     question := "Tea or milk first?";
     rounds := 2 |}.

Definition tea_start : session :=
  {| histories := [("a", [SystemMessage "Debate."]); ("b", [SystemMessage "Debate."])];
     responses_by_round := [(1%Z, [])] |}.

Definition tea_step : Gen session :=
  @debate_step (StdJson no_floats) TeaBackend tea_plan 1 (mkNode "a" "Ay" None) tea_start.

Definition tea_after_step : session :=
  Eval vm_compute in
    match snd tea_step with Ok st => st | Raise _ => tea_start end.

Definition tea_rounds : Gen session :=
  @debate_rounds (StdJson no_floats) TeaBackend tea_config 2.

Definition tea_events : list event := Eval vm_compute in fst tea_rounds.

Definition tea_session : session :=
  Eval vm_compute in
    match snd tea_rounds with Ok st => st | Raise _ => tea_start end.

(** ** Edges as a relation *)

(** The direction an edge is read with: [edge.get("direction",
    "bidirectional")]. *)
Definition direction_of (e : Edge) : string :=
  match direction e with Some d => d | None => "bidirectional" end.

(** The edge [e] makes [y] a downstream neighbor of [x]: both endpoints
    are present and non-empty, and the direction leads from [x] to [y]. *)
Definition links (e : Edge) (x y : string) : Prop :=
  exists f t,
    from_id e = Some f /\ to_id e = Some t /\ f <> "" /\ t <> ""
    /\ ((direction_of e = "a_to_b" /\ x = f /\ y = t)
        \/ (direction_of e = "b_to_a" /\ x = t /\ y = f)
        \/ (direction_of e = "bidirectional"
            /\ ((x = f /\ y = t) \/ (x = t /\ y = f)))).

(** The maps hold exactly the links of the edges [edges] between known
    nodes. *)
Definition holds_links (ids : list string) (edges : list Edge)
  (outgoing incoming : neighbor_map) : Prop :=
  (forall x y, neighbor_of outgoing x y
               <-> In x ids /\ In y ids /\ exists e, In e edges /\ links e x y)
  /\ (forall x y, neighbor_of incoming y x
                  <-> In x ids /\ In y ids /\ exists e, In e edges /\ links e x y).

(** ** Schedules *)

(** The node and round of a position event. *)
Definition position_key (e : event) : list (string * Z) :=
  match e with
  | PositionEvent node_id _ round_num => [(node_id, round_num)]
  | MessageEvent _ _ _ _ _ => []
  end.

Definition position_keys (evs : list event) : list (string * Z) :=
  flat_map position_key evs.

(** The steps of the rounds [round_nums] over [nodes], in the order the
    loops visit them. *)
Definition schedule (nodes : list Node) (round_nums : list Z) : list (string * Z) :=
  flat_map (fun round_num => map (fun node => (id node, round_num)) nodes) round_nums.

(** The number of events of a completed step of [node]: the position
    event and one message per outgoing neighbor, or one to ["none"]. *)
Definition step_size (p : plan) (node : Node) : nat :=
  1 + match PyDict.get_default (id node) [] (outgoing p) with
      | [] => 1
      | recipients => List.length recipients
      end.

(** The main text stored for [node_id] in round [round_num]. *)
Definition stored_text (st : session) (round_num : Z) (node_id : string)
  : option string :=
  match PyDict.get round_num (responses_by_round st) with
  | Some table => PyDict.get node_id table
  | None => None
  end.

(** ** Texts *)

(** Every character of [s] is in the class [cls]. *)
Fixpoint all_in (cls : ascii -> bool) (s : string) : bool :=
  match s with
  | EmptyString => true
  | String c r => cls c && all_in cls r
  end.

(** [s] is blank: empty or whitespace only. *)
Definition blank (s : string) : bool := all_in Py.isspace s.

(** The first occurrence of the marker in [text] is at index [q]. *)
Definition first_marker_at (text : string) (q : nat) : Prop :=
  marker_at text q /\ forall i, i < q -> ~ marker_at text i.

(** ** Two rounds of the sample, round by round *)

Definition tea_round_one : Gen session :=
  @run_round (StdJson no_floats) TeaBackend tea_plan (cfg_nodes tea_config) 1 tea_start.

Definition tea_after_round_one : session :=
  Eval vm_compute in
    match snd tea_round_one with Ok st => st | Raise _ => tea_start end.

Definition tea_round_two : Gen session :=
  @run_round (StdJson no_floats) TeaBackend tea_plan (cfg_nodes tea_config) 2
    tea_after_round_one.

Definition tea_after_round_two : session :=
  Eval vm_compute in
    match snd tea_round_two with Ok st => st | Raise _ => tea_start end.

(** [json_str] is the part of [json_section] the scan brackets: from the
    first opening brace to the first point after it where the braces
    balance. *)
Definition bracketed (json_section json_str : string) : Prop :=
  exists json_start n,
    Py.find "{"%char json_section = Some json_start
    /\ 0 < n
    /\ brace_depth (Py.take n (Py.drop json_start json_section)) = 0%Z
    /\ (forall m, 0 < m < n ->
          (0 < brace_depth (Py.take m (Py.drop json_start json_section)))%Z)
    /\ json_str = Py.take n (Py.drop json_start json_section).

(** A dictionary whose values are all the empty string. *)
Definition all_empty (d : dict string string) : Prop :=
  forall k v, In (k, v) d -> v = "".

(** [x] occurs in [s], and [y] occurs after it. *)
Definition occurs_before (x y s : string) : Prop :=
  exists a b c, s = a ++ x ++ b ++ y ++ c.

(** The line of the aggregator's transcript for one stored response. *)
Definition transcript_line (labels : dict string string) (round_num : Z)
  (node_id text : string) : string :=
  "Round " ++ Py.str_of_int round_num ++ " - "
  ++ PyDict.get_default node_id node_id labels ++ ": " ++ text.

(** [s] ends with [suffix]. *)
Definition ends_with (suffix s : string) : Prop :=
  exists before, s = before ++ suffix.

(** ** Sessions *)

(** The frames that end a session. *)
Definition terminal (f : frame) : bool :=
  match f with
  | ErrorFrame _ | ExceptionFrame _ | CompleteFrame => true
  | PositionFrame _ | MessageFrame _ => false
  end.

(** A client that sends the sample configuration with a key and stays. *)
Definition staying_client : client :=
  mkClient (Some (Decoded tea_config (Some "sk-test"))) None.

(* ================================================================== *)
(** * Properties *)
(* ================================================================== *)


(** ** Dictionaries *)

Section DictFacts.
Context {K V : Type} `{KeyEq K}.
Implicit Types (k : K) (v : V) (d : dict K V).

Lemma keq_refl k : keq k k = true.
Proof. apply keq_eq; reflexivity. Qed.

Lemma keq_neq k k' : k <> k' -> keq k k' = false.
Proof.
  intros Hne. destruct (keq k k') eqn:E; [|reflexivity].
  apply keq_eq in E. contradiction.
Qed.

Lemma keq_dec k k' : {k = k'} + {k <> k'}.
Proof.
  destruct (keq k k') eqn:E.
  - left. apply keq_eq. exact E.
  - right. intros ->. rewrite keq_refl in E. discriminate.
Qed.

Lemma get_set_same k v d : PyDict.get k (PyDict.set k v d) = Some v.
Proof.
  induction d as [|[k' v'] r IH]; simpl.
  - rewrite keq_refl. reflexivity.
  - destruct (keq k k') eqn:E; simpl; rewrite E; auto.
Qed.

Lemma get_set_other k k' v d :
  k <> k' -> PyDict.get k' (PyDict.set k v d) = PyDict.get k' d.
Proof.
  intros Hne. induction d as [|[k0 v0] r IH]; simpl.
  - rewrite keq_neq by congruence. reflexivity.
  - destruct (keq k k0) eqn:E; simpl.
    + apply keq_eq in E; subst k0.
      rewrite keq_neq by congruence. reflexivity.
    + destruct (keq k' k0); auto.
Qed.

Lemma get_some_in_keys k d :
  (exists v, PyDict.get k d = Some v) <-> In k (PyDict.keys d).
Proof.
  induction d as [|[k0 v0] r IH]; simpl.
  - split; [intros [v Hv]; discriminate | tauto].
  - destruct (keq k k0) eqn:E.
    + apply keq_eq in E; subst. split; eauto.
    + rewrite IH. split; [tauto|].
      intros [->|Hin]; [rewrite keq_refl in E; discriminate | exact Hin].
Qed.

Lemma has_true_iff k d : PyDict.has k d = true <-> In k (PyDict.keys d).
Proof.
  rewrite <- get_some_in_keys. unfold PyDict.has.
  destruct (PyDict.get k d); split; eauto; try discriminate.
  intros [v Hv]; discriminate.
Qed.

Lemma has_false_iff k d : PyDict.has k d = false <-> ~ In k (PyDict.keys d).
Proof.
  rewrite <- has_true_iff. destruct (PyDict.has k d); split; congruence.
Qed.

Lemma keys_set k v d :
  PyDict.keys (PyDict.set k v d)
  = if PyDict.has k d then PyDict.keys d else (PyDict.keys d ++ [k])%list.
Proof.
  unfold PyDict.has.
  induction d as [|[k0 v0] r IH]; simpl; [reflexivity|].
  destruct (keq k k0) eqn:E; simpl; [reflexivity|].
  rewrite IH. destruct (PyDict.get k r); reflexivity.
Qed.

Lemma in_keys_set x k v d :
  In x (PyDict.keys (PyDict.set k v d)) <-> x = k \/ In x (PyDict.keys d).
Proof.
  rewrite keys_set. destruct (PyDict.has k d) eqn:E.
  - apply has_true_iff in E. split; [tauto|]. intros [->|Hin]; assumption.
  - rewrite in_app_iff. simpl. intuition.
Qed.

Lemma NoDup_keys_set k v d :
  NoDup (PyDict.keys d) -> NoDup (PyDict.keys (PyDict.set k v d)).
Proof.
  intros Hnd. rewrite keys_set. destruct (PyDict.has k d) eqn:E; [exact Hnd|].
  apply has_false_iff in E.
  apply NoDup_rev in Hnd. rewrite <- (rev_involutive (_ ++ _)%list).
  apply NoDup_rev. rewrite rev_app_distr. simpl. constructor; [|exact Hnd].
  rewrite <- in_rev. exact E.
Qed.

Lemma get_default_some k v dflt d :
  PyDict.get k d = Some v -> PyDict.get_default k dflt d = v.
Proof. unfold PyDict.get_default. intros ->. reflexivity. Qed.

(** A comprehension, and more generally a loop of assignments. *)
Lemma in_keys_assign_loop {A} (key : A -> K) (val : A -> V) xs d x :
  In x (PyDict.keys (fold_left (fun d a => PyDict.set (key a) (val a) d) xs d))
  <-> In x (PyDict.keys d) \/ In x (map key xs).
Proof.
  revert d. induction xs as [|a xs IH]; intros d; simpl.
  - tauto.
  - rewrite IH, in_keys_set. intuition.
Qed.

Lemma NoDup_keys_assign_loop {A} (key : A -> K) (val : A -> V) xs d :
  NoDup (PyDict.keys d) ->
  NoDup (PyDict.keys (fold_left (fun d a => PyDict.set (key a) (val a) d) xs d)).
Proof.
  revert d. induction xs as [|a xs IH]; intros d Hnd; simpl; [exact Hnd|].
  apply IH, NoDup_keys_set, Hnd.
Qed.

Lemma in_keys_comprehension {A} (key : A -> K) (val : A -> V) xs x :
  In x (PyDict.keys (PyDict.comprehension key val xs)) <-> In x (map key xs).
Proof.
  unfold PyDict.comprehension. rewrite in_keys_assign_loop. simpl. tauto.
Qed.

Lemma NoDup_keys_comprehension {A} (key : A -> K) (val : A -> V) xs :
  NoDup (PyDict.keys (PyDict.comprehension key val xs)).
Proof. apply NoDup_keys_assign_loop. constructor. Qed.

(** Every value of a loop of assignments was assigned by it or was there
    before. *)
Lemma get_assign_loop {A} (key : A -> K) (val : A -> V) xs d k v :
  PyDict.get k (fold_left (fun d a => PyDict.set (key a) (val a) d) xs d) = Some v ->
  PyDict.get k d = Some v \/ exists a, In a xs /\ key a = k /\ val a = v.
Proof.
  revert d. induction xs as [|a xs IH]; intros d; simpl; [tauto|].
  intros Hget. apply IH in Hget. destruct Hget as [Hget|[a' [Hin [Hk Hv]]]].
  - destruct (keq_dec (key a) k) as [Heq|Hne].
    + subst k. rewrite get_set_same in Hget. injection Hget as <-.
      right. exists a. auto.
    + rewrite get_set_other in Hget by exact Hne. auto.
  - right. exists a'. auto.
Qed.

End DictFacts.

Lemma mem_true_iff x xs : Py.mem x xs = true <-> In x xs.
Proof.
  unfold Py.mem. rewrite existsb_exists. split.
  - intros [y [Hin Heq]]. apply String.eqb_eq in Heq. subst. exact Hin.
  - intros Hin. exists x. split; [exact Hin | apply String.eqb_refl].
Qed.

Lemma mem_false_iff x xs : Py.mem x xs = false <-> ~ In x xs.
Proof.
  rewrite <- mem_true_iff. destruct (Py.mem x xs); split; congruence.
Qed.

Lemma NoDup_append_item {A} (xs : list A) (x : A) :
  NoDup xs -> ~ In x xs -> NoDup (append_item xs x).
Proof.
  intros Hnd Hnin. unfold append_item.
  rewrite <- (rev_involutive (_ ++ _)%list). apply NoDup_rev.
  rewrite rev_app_distr. simpl. constructor.
  - rewrite <- in_rev. exact Hnin.
  - apply NoDup_rev. exact Hnd.
Qed.

Lemma in_append_item {A} (xs : list A) (x y : A) :
  In y (append_item xs x) <-> In y xs \/ y = x.
Proof.
  unfold append_item. rewrite in_app_iff. simpl. intuition.
Qed.

(** ** Topology resolver *)

Section TopologyFacts.
Variable nodes : list Node.
Local Abbreviation ids := (map id nodes).

Lemma get_empty_neighbors k :
  In k ids -> PyDict.get k (empty_neighbors nodes) = Some [].
Proof.
  intros Hin. unfold empty_neighbors.
  assert (Hk : In k (PyDict.keys (PyDict.comprehension id (fun _ : Node => @nil string) nodes)))
    by (apply in_keys_comprehension; exact Hin).
  apply get_some_in_keys in Hk. destruct Hk as [v Hv]. rewrite Hv.
  unfold PyDict.comprehension in Hv. apply get_assign_loop in Hv.
  destruct Hv as [Hv|[a [_ [_ Hv]]]]; [discriminate | congruence].
Qed.

Lemma empty_neighbors_ok : neighbors_ok ids (empty_neighbors nodes).
Proof.
  unfold neighbors_ok, empty_neighbors. repeat split.
  - apply NoDup_keys_comprehension.
  - apply in_keys_comprehension.
  - apply in_keys_comprehension.
  - unfold PyDict.comprehension in H. apply get_assign_loop in H.
    destruct H as [H|[a [_ [_ H]]]]; [discriminate | subst l; constructor].
  - unfold PyDict.comprehension in H. apply get_assign_loop in H.
    destruct H as [H|[a [_ [_ H]]]]; [discriminate | subst l; intros x []].
Qed.

Lemma neighbors_ok_append_item m k l x :
  neighbors_ok ids m -> PyDict.get k m = Some l -> In x ids -> ~ In x l ->
  neighbors_ok ids (PyDict.set k (append_item l x) m).
Proof.
  intros (Hnd & Hkeys & Hvals) Hget Hx Hnin.
  assert (Hk : In k (PyDict.keys m)) by (apply get_some_in_keys; eauto).
  repeat split.
  - apply NoDup_keys_set, Hnd.
  - rewrite in_keys_set. intros [->|Hin]; apply Hkeys; assumption.
  - intros Hin. rewrite in_keys_set. right. apply Hkeys, Hin.
  - destruct (string_dec k k0) as [<-|Hne].
    + rewrite get_set_same in H. injection H as <-.
      apply NoDup_append_item; [apply (Hvals k l Hget) | exact Hnin].
    + rewrite get_set_other in H by exact Hne. apply (Hvals k0 l0 H).
  - destruct (string_dec k k0) as [<-|Hne].
    + rewrite get_set_same in H. injection H as <-.
      intros y Hy. apply in_append_item in Hy. destruct Hy as [Hy| ->]; [|exact Hx].
      apply (Hvals k l Hget), Hy.
    + rewrite get_set_other in H by exact Hne. apply (Hvals k0 l0 H).
Qed.

Lemma has_of_ids m k : neighbors_ok ids m -> (PyDict.has k m = true <-> In k ids).
Proof. intros (_ & Hkeys & _). rewrite has_true_iff. apply Hkeys. Qed.

(** [add_edge] never raises and keeps both maps well formed. *)
Lemma add_edge_ok sender receiver (out inc : neighbor_map) :
  neighbors_ok ids out -> neighbors_ok ids inc ->
  exists out' inc',
    add_edge sender receiver (out, inc) = Ok (out', inc')
    /\ neighbors_ok ids out' /\ neighbors_ok ids inc'.
Proof.
  intros Hout Hinc. unfold add_edge.
  destruct (PyDict.has sender out) eqn:Hs; simpl; [|eauto].
  destruct (PyDict.has receiver out) eqn:Hr; simpl; [|eauto].
  apply (has_of_ids _ _ Hout) in Hs. apply (has_of_ids _ _ Hout) in Hr.
  assert (Hs' : exists l, PyDict.get sender out = Some l).
  { apply get_some_in_keys. apply Hout. exact Hs. }
  assert (Hr' : exists l, PyDict.get receiver inc = Some l).
  { apply get_some_in_keys. apply Hinc. exact Hr. }
  destruct Hs' as [ls Hls]. destruct Hr' as [lr Hlr].
  unfold getitem. rewrite Hls. simpl. rewrite Hlr. simpl.
  do 2 eexists. split; [reflexivity|]. split.
  - destruct (Py.mem receiver ls) eqn:E; simpl; [exact Hout|].
    apply mem_false_iff in E. apply neighbors_ok_append_item; assumption.
  - destruct (Py.mem sender lr) eqn:E; simpl; [exact Hinc|].
    apply mem_false_iff in E. apply neighbors_ok_append_item; assumption.
Qed.

Lemma process_edge_ok e (out inc : neighbor_map) :
  neighbors_ok ids out -> neighbors_ok ids inc ->
  exists out' inc',
    process_edge e (out, inc) = Ok (out', inc')
    /\ neighbors_ok ids out' /\ neighbors_ok ids inc'.
Proof.
  intros Hout Hinc. unfold process_edge.
  destruct (falsy (from_id e) || falsy (to_id e)); [eauto|].
  destruct (from_id e) as [f|]; [|eauto].
  destruct (to_id e) as [t|]; [|eauto].
  destruct (String.eqb _ "a_to_b"); [apply add_edge_ok; assumption|].
  destruct (String.eqb _ "b_to_a"); [apply add_edge_ok; assumption|].
  destruct (String.eqb _ "bidirectional"); [|eauto].
  destruct (add_edge_ok f t _ _ Hout Hinc) as (o1 & i1 & -> & Ho1 & Hi1).
  simpl. apply add_edge_ok; assumption.
Qed.

Lemma process_edges_ok edges (out inc : neighbor_map) :
  neighbors_ok ids out -> neighbors_ok ids inc ->
  exists out' inc',
    process_edges edges (out, inc) = Ok (out', inc')
    /\ neighbors_ok ids out' /\ neighbors_ok ids inc'.
Proof.
  revert out inc. induction edges as [|e rest IH]; intros out inc Hout Hinc; simpl.
  - eauto.
  - destruct (process_edge_ok e _ _ Hout Hinc) as (o1 & i1 & -> & Ho1 & Hi1).
    simpl. apply IH; assumption.
Qed.

(** A malformed edge leaves well-formed maps as they are. *)
Lemma process_edge_malformed e (out inc : neighbor_map) :
  neighbors_ok ids out -> malformed ids e ->
  process_edge e (out, inc) = Ok (out, inc).
Proof.
  intros Hout Hbad. unfold process_edge.
  destruct (falsy (from_id e)) eqn:Ef; cbn [orb]; [reflexivity|].
  destruct (falsy (to_id e)) eqn:Et; cbn [orb]; [reflexivity|].
  destruct (from_id e) as [f|] eqn:Hf; [|reflexivity].
  destruct (to_id e) as [t|] eqn:Ht; [|reflexivity].
  assert (Hunk : ~ In f ids \/ ~ In t ids).
  { destruct Hbad as [Hb|[Hb|[(f' & Hf' & Hn)|(t' & Ht' & Hn)]]];
      try congruence.
    - left. congruence.
    - right. congruence. }
  assert (Hadd : forall s r, ~ In s ids \/ ~ In r ids ->
                             add_edge s r (out, inc) = Ok (out, inc)).
  { intros s r Hsr. unfold add_edge.
    destruct (PyDict.has s out) eqn:Hs; simpl; [|reflexivity].
    destruct (PyDict.has r out) eqn:Hr; simpl; [|reflexivity].
    apply (has_of_ids _ _ Hout) in Hs. apply (has_of_ids _ _ Hout) in Hr. tauto. }
  destruct (String.eqb _ "a_to_b"); [apply Hadd; tauto|].
  destruct (String.eqb _ "b_to_a"); [apply Hadd; tauto|].
  destruct (String.eqb _ "bidirectional"); [|reflexivity].
  rewrite Hadd by tauto. simpl. apply Hadd; tauto.
Qed.

Lemma process_edges_app es1 es2 maps :
  process_edges (es1 ++ es2) maps
  = rbind (process_edges es1 maps) (process_edges es2).
Proof.
  revert maps. induction es1 as [|e es1 IH]; intros maps; simpl; [reflexivity|].
  destruct (process_edge e maps) as [maps'|]; simpl; [apply IH | reflexivity].
Qed.

End TopologyFacts.

Lemma truthy_nonempty s : s <> "" -> Py.truthy s = true.
Proof. destruct s; [congruence | reflexivity]. Qed.

Lemma add_edge_known ids (out inc : neighbor_map) s r ls lr :
  neighbors_ok ids out ->
  In s ids -> In r ids ->
  PyDict.get s out = Some ls -> PyDict.get r inc = Some lr ->
  add_edge s r (out, inc)
  = Ok (if negb (Py.mem r ls) then PyDict.set s (append_item ls r) out else out,
        if negb (Py.mem s lr) then PyDict.set r (append_item lr s) inc else inc).
Proof.
  intros Hout Hs Hr Hls Hlr. unfold add_edge.
  assert (Hhs : PyDict.has s out = true) by (apply has_true_iff, Hout, Hs).
  assert (Hhr : PyDict.has r out = true) by (apply has_true_iff, Hout, Hr).
  rewrite Hhs, Hhr. cbn [negb orb]. unfold getitem. rewrite Hls. cbn [rbind].
  rewrite Hlr. reflexivity.
Qed.

(** The maps after a single edge from [X] to [Y], both known, distinct and
    non-empty. *)
Lemma single_a_to_b nodes X Y :
  In X (map id nodes) -> In Y (map id nodes) -> X <> "" -> Y <> "" ->
  build_neighbor_maps nodes [edge "a_to_b" X Y]
  = Ok (PyDict.set X [Y] (empty_neighbors nodes),
        PyDict.set Y [X] (empty_neighbors nodes)).
Proof.
  intros HX HY HXe HYe. unfold build_neighbor_maps, edge. cbn [process_edges].
  unfold process_edge. cbn [from_id to_id direction falsy].
  rewrite (truthy_nonempty _ HXe), (truthy_nonempty _ HYe). cbn [negb orb].
  change (String.eqb "a_to_b" "a_to_b") with true. cbn iota.
  rewrite (add_edge_known _ _ _ X Y [] [] (empty_neighbors_ok nodes) HX HY
             (get_empty_neighbors nodes X HX) (get_empty_neighbors nodes Y HY)).
  reflexivity.
Qed.

Lemma single_bidirectional nodes X Y :
  In X (map id nodes) -> In Y (map id nodes) -> X <> Y -> X <> "" -> Y <> "" ->
  build_neighbor_maps nodes [edge "bidirectional" X Y]
  = Ok (PyDict.set Y [X] (PyDict.set X [Y] (empty_neighbors nodes)),
        PyDict.set X [Y] (PyDict.set Y [X] (empty_neighbors nodes))).
Proof.
  intros HX HY Hne HXe HYe. unfold build_neighbor_maps, edge. cbn [process_edges].
  unfold process_edge. cbn [from_id to_id direction falsy].
  rewrite (truthy_nonempty _ HXe), (truthy_nonempty _ HYe). cbn [negb orb].
  change (String.eqb "bidirectional" "a_to_b") with false.
  change (String.eqb "bidirectional" "b_to_a") with false.
  change (String.eqb "bidirectional" "bidirectional") with true. cbn iota.
  rewrite (add_edge_known _ _ _ X Y [] [] (empty_neighbors_ok nodes) HX HY
             (get_empty_neighbors nodes X HX) (get_empty_neighbors nodes Y HY)).
  cbn [Py.mem existsb negb rbind].
  assert (Hok : neighbors_ok (map id nodes)
                  (PyDict.set X (append_item [] Y) (empty_neighbors nodes))).
  { apply neighbors_ok_append_item; auto using empty_neighbors_ok, get_empty_neighbors. }
  rewrite (add_edge_known _ _ _ Y X [] [] Hok HY HX).
  - reflexivity.
  - rewrite get_set_other by exact Hne. apply get_empty_neighbors, HY.
  - rewrite get_set_other by congruence. apply get_empty_neighbors, HX.
Qed.

(** C6 (as amended): for known, distinct nodes [X] and [Y] with non-empty
    ids and the single edge from [X] to [Y]: an [a_to_b] edge puts [Y] in
    [outgoing[X]] and [X] in [incoming[Y]], and neither [X] in
    [outgoing[Y]] nor [Y] in [incoming[X]]; a [bidirectional] edge gives
    all four memberships. *)
Theorem single_edge_memberships nodes X Y :
  In X (map id nodes) -> In Y (map id nodes) -> X <> Y -> X <> "" -> Y <> "" ->
  (exists outgoing incoming,
     build_neighbor_maps nodes [edge "a_to_b" X Y] = Ok (outgoing, incoming)
     /\ neighbor_of outgoing X Y /\ neighbor_of incoming Y X
     /\ ~ neighbor_of outgoing Y X /\ ~ neighbor_of incoming X Y)
  /\
  (exists outgoing incoming,
     build_neighbor_maps nodes [edge "bidirectional" X Y] = Ok (outgoing, incoming)
     /\ neighbor_of outgoing X Y /\ neighbor_of incoming Y X
     /\ neighbor_of outgoing Y X /\ neighbor_of incoming X Y).
Proof.
  intros HX HY Hne HXe HYe. split.
  - do 2 eexists. split; [apply single_a_to_b; assumption|].
    unfold neighbor_of. repeat split.
    + exists [Y]. rewrite get_set_same. simpl; auto.
    + exists [X]. rewrite get_set_same. simpl; auto.
    + intros (l & Hl & Hin). rewrite get_set_other in Hl by exact Hne.
      rewrite get_empty_neighbors in Hl by exact HY. injection Hl as <-. exact Hin.
    + intros (l & Hl & Hin). rewrite get_set_other in Hl by congruence.
      rewrite get_empty_neighbors in Hl by exact HX. injection Hl as <-. exact Hin.
  - do 2 eexists. split; [apply single_bidirectional; assumption|].
    unfold neighbor_of. repeat split.
    + exists [Y]. rewrite get_set_other by congruence.
      rewrite get_set_same. simpl; auto.
    + exists [X]. rewrite get_set_other by congruence.
      rewrite get_set_same. simpl; auto.
    + exists [X]. rewrite get_set_same. simpl; auto.
    + exists [Y]. rewrite get_set_same. simpl; auto.
Qed.

Lemma single_edge_memberships_witness :
  (exists outgoing incoming,
     build_neighbor_maps two_nodes [edge "a_to_b" "x" "y"] = Ok (outgoing, incoming)
     /\ neighbor_of outgoing "x" "y" /\ neighbor_of incoming "y" "x"
     /\ ~ neighbor_of outgoing "y" "x" /\ ~ neighbor_of incoming "x" "y")
  /\
  (exists outgoing incoming,
     build_neighbor_maps two_nodes [edge "bidirectional" "x" "y"] = Ok (outgoing, incoming)
     /\ neighbor_of outgoing "x" "y" /\ neighbor_of incoming "y" "x"
     /\ neighbor_of outgoing "y" "x" /\ neighbor_of incoming "x" "y").
Proof.
  apply (single_edge_memberships two_nodes "x" "y").
  - simpl; auto.
  - simpl; auto.
  - discriminate.
  - discriminate.
  - discriminate.
Defined.

(** C6 as stated fails for a node whose id is the empty string: the guard
    [if not from_id or not to_id: continue] skips its edges. *)
Lemma empty_id_edge_is_skipped :
  ~ (forall nodes X Y,
       In X (map id nodes) -> In Y (map id nodes) -> X <> Y ->
       exists outgoing incoming,
         build_neighbor_maps nodes [edge "a_to_b" X Y] = Ok (outgoing, incoming)
         /\ neighbor_of outgoing X Y).
Proof.
  intros Hclaim.
  destruct (Hclaim [mkNode "" "Anon" None; mkNode "b" "Bea" None] "" "b")
    as (outgoing & incoming & Hrun & l & Hl & Hin).
  - simpl; auto.
  - simpl; auto.
  - discriminate.
  - vm_compute in Hrun. injection Hrun as <- <-.
    vm_compute in Hl. injection Hl as <-. exact Hin.
Qed.

(** C7: for every node list and edge list the resolver returns (it never
    raises); both maps have exactly the node ids as keys, every neighbor
    list is duplicate-free and holds node ids only; and a malformed edge
    (an endpoint missing, empty or unknown) is a no-op: the result is the
    one of the edge list without it. *)
Theorem build_neighbor_maps_well_formed (nodes : list Node) (edges : list Edge) :
  exists outgoing incoming,
    build_neighbor_maps nodes edges = Ok (outgoing, incoming)
    /\ neighbors_ok (map id nodes) outgoing
    /\ neighbors_ok (map id nodes) incoming
    /\ (forall es1 e es2,
          edges = (es1 ++ e :: es2)%list -> malformed (map id nodes) e ->
          build_neighbor_maps nodes (es1 ++ es2) = Ok (outgoing, incoming)).
Proof.
  destruct (process_edges_ok nodes edges _ _
              (empty_neighbors_ok nodes) (empty_neighbors_ok nodes))
    as (out & inc & Hrun & Hout & Hinc).
  exists out, inc.
  split; [exact Hrun|]. split; [exact Hout|]. split; [exact Hinc|].
  intros es1 e es2 -> Hbad. unfold build_neighbor_maps in *.
  rewrite process_edges_app in *.
  destruct (process_edges_ok nodes es1 _ _
              (empty_neighbors_ok nodes) (empty_neighbors_ok nodes))
    as (o1 & i1 & Hes1 & Ho1 & Hi1).
  rewrite Hes1 in *. cbn [rbind process_edges] in *.
  rewrite (process_edge_malformed nodes e o1 i1 Ho1 Hbad) in Hrun. exact Hrun.
Qed.

Lemma build_neighbor_maps_well_formed_witness :
  exists outgoing incoming,
    build_neighbor_maps two_nodes
      [mkEdge None (Some "x") None; edge "b_to_a" "x" "y"; edge "a_to_b" "x" "z"]
    = Ok (outgoing, incoming)
    /\ neighbors_ok (map id two_nodes) outgoing
    /\ neighbors_ok (map id two_nodes) incoming
    /\ (forall es1 e es2,
          [mkEdge None (Some "x") None; edge "b_to_a" "x" "y"; edge "a_to_b" "x" "z"]
          = (es1 ++ e :: es2)%list ->
          malformed (map id two_nodes) e ->
          build_neighbor_maps two_nodes (es1 ++ es2) = Ok (outgoing, incoming)).
Proof.
  exact (build_neighbor_maps_well_formed two_nodes
           [mkEdge None (Some "x") None; edge "b_to_a" "x" "y"; edge "a_to_b" "x" "z"]).
Defined.

(** ** Strings *)

Lemma append_assoc (a b c : string) : (a ++ b) ++ c = a ++ (b ++ c).
Proof. induction a as [|x a IH]; simpl; [reflexivity | rewrite IH; reflexivity]. Qed.

Lemma has_char_in_startswith c pat a rest :
  Py.has_char c pat = false ->
  Py.startswith pat (a ++ String c rest) = true ->
  Py.startswith pat a = true.
Proof.
  revert a. induction pat as [|p pat IH]; intros a Hc Hsw; [reflexivity|].
  simpl in Hc. apply orb_false_iff in Hc. destruct Hc as [Hpc Hpat].
  destruct a as [|x a]; simpl in *.
  - apply andb_true_iff in Hsw. destruct Hsw as [Hsw _]. congruence.
  - apply andb_true_iff in Hsw. destruct Hsw as [Hx Hsw].
    rewrite Hx. simpl. apply IH; assumption.
Qed.

(** A pattern that occurs neither in [a] nor in [b] does not occur in
    [a ++ b] when [b] starts with a character the pattern does not have. *)
Lemma contains_app_separated pat a c rest :
  Py.has_char c pat = false ->
  Py.contains pat a = false ->
  Py.contains pat (String c rest) = false ->
  Py.contains pat (a ++ String c rest) = false.
Proof.
  intros Hc Ha Hb. induction a as [|x a IH].
  - exact Hb.
  - cbn [String.append Py.contains] in *.
    apply orb_false_iff in Ha. destruct Ha as [Hsw Ha].
    apply orb_false_iff. split; [|apply IH, Ha].
    destruct (Py.startswith pat (String x (a ++ String c rest))) eqn:E; [|reflexivity].
    rewrite (has_char_in_startswith c pat (String x a) rest Hc E) in Hsw.
    discriminate.
Qed.

(** ** Prompt builder *)

(** C8: the round-1 system prompt is the base (the custom fragment, or the
    default sentence, and the concision instruction) followed by the
    round-1 block, in which the word [comments] does not occur; for a
    later round and no outgoing neighbors it is the base alone, with no
    [SUMMARY_JSON] instruction behind the custom fragment.  So a custom
    fragment that does not itself mention them gives a prompt without
    them. *)
Theorem system_prompt_blocks (custom_prompt : string)
  (outgoing_neighbors : list string) (labels : dict string string) (round_num : Z) :
  (build_system_prompt custom_prompt outgoing_neighbors labels 1
   = base_fragment custom_prompt ++ (KEEP_CONCISE ++ ROUND1_INSTRUCTIONS)
   /\ Py.contains "comments" (KEEP_CONCISE ++ ROUND1_INSTRUCTIONS) = false
   /\ (Py.contains "comments" custom_prompt = false ->
       Py.contains "comments"
         (build_system_prompt custom_prompt outgoing_neighbors labels 1) = false))
  /\
  ((1 < round_num)%Z ->
   build_system_prompt custom_prompt [] labels round_num
   = base_fragment custom_prompt ++ KEEP_CONCISE
   /\ Py.contains "SUMMARY_JSON" KEEP_CONCISE = false
   /\ (Py.contains "SUMMARY_JSON" custom_prompt = false ->
       Py.contains "SUMMARY_JSON"
         (build_system_prompt custom_prompt [] labels round_num) = false)).
Proof.
  assert (Hfrag : forall pat,
             Py.contains pat "You are a participant in a multi-agent debate." = false ->
             Py.contains pat custom_prompt = false ->
             Py.contains pat (base_fragment custom_prompt) = false).
  { intros pat Hdef Hcus. unfold base_fragment.
    destruct (Py.truthy custom_prompt); assumption. }
  split.
  - assert (Heq : build_system_prompt custom_prompt outgoing_neighbors labels 1
                  = base_fragment custom_prompt ++ (KEEP_CONCISE ++ ROUND1_INSTRUCTIONS)).
    { unfold build_system_prompt, prompt_base. cbn [Z.eqb Pos.eqb].
      apply append_assoc. }
    split; [exact Heq|]. split; [vm_compute; reflexivity|].
    intros Hcus. rewrite Heq.
    apply (contains_app_separated "comments" (base_fragment custom_prompt) "010"%char).
    + vm_compute; reflexivity.
    + apply Hfrag; [vm_compute; reflexivity | exact Hcus].
    + vm_compute; reflexivity.
  - intros Hround.
    assert (Heq : build_system_prompt custom_prompt [] labels round_num
                  = base_fragment custom_prompt ++ KEEP_CONCISE).
    { unfold build_system_prompt, prompt_base.
      destruct (Z.eqb_spec round_num 1) as [->|_]; [lia | reflexivity]. }
    split; [exact Heq|]. split; [vm_compute; reflexivity|].
    intros Hcus. rewrite Heq.
    apply (contains_app_separated "SUMMARY_JSON" (base_fragment custom_prompt) "010"%char).
    + vm_compute; reflexivity.
    + apply Hfrag; [vm_compute; reflexivity | exact Hcus].
    + vm_compute; reflexivity.
Qed.

Lemma system_prompt_blocks_witness :
  Py.contains "comments"
    (build_system_prompt "Argue as a sceptic." ["b"] [("b", "Bea")] 1) = false
  /\ Py.contains "SUMMARY_JSON"
       (build_system_prompt "Argue as a sceptic." [] [("b", "Bea")] 2) = false.
Proof.
  destruct (system_prompt_blocks "Argue as a sceptic." ["b"] [("b", "Bea")] 2)
    as [(_ & _ & H1) H2].
  split.
  - apply H1. vm_compute; reflexivity.
  - apply H2; [lia | vm_compute; reflexivity].
Defined.

Lemma startswith_app pat rest : Py.startswith pat (pat ++ rest) = true.
Proof.
  induction pat as [|c pat IH]; simpl; [reflexivity|].
  rewrite Ascii.eqb_refl. exact IH.
Qed.

Lemma occurs_in_contains pat s : occurs_in pat s -> Py.contains pat s = true.
Proof.
  intros (before & after & ->). induction before as [|c before IH].
  - simpl String.append. destruct (pat ++ after) eqn:E; simpl; rewrite <- E;
      rewrite startswith_app; reflexivity.
  - cbn [String.append Py.contains]. rewrite IH. apply orb_true_r.
Qed.

Lemma occurs_in_refl s : occurs_in s s.
Proof.
  exists "", "". simpl. induction s as [|c s IH]; simpl; congruence.
Qed.

Lemma occurs_in_app_l pat s t : occurs_in pat s -> occurs_in pat (t ++ s).
Proof.
  intros (b & a & ->). exists (t ++ b), a. rewrite append_assoc. reflexivity.
Qed.

Lemma occurs_in_app_r pat s t : occurs_in pat s -> occurs_in pat (s ++ t).
Proof.
  intros (b & a & ->). exists b, (a ++ t). rewrite !append_assoc. reflexivity.
Qed.

Lemma occurs_in_join sep x xs : In x xs -> occurs_in x (Py.join sep xs).
Proof.
  induction xs as [|y xs IH]; intros Hin; [destruct Hin|].
  destruct xs as [|z xs].
  - destruct Hin as [->|[]]. apply occurs_in_refl.
  - change (Py.join sep (y :: z :: xs)) with (y ++ sep ++ Py.join sep (z :: xs)).
    destruct Hin as [->|Hin].
    + apply occurs_in_app_r, occurs_in_refl.
    + apply occurs_in_app_l, occurs_in_app_l, IH, Hin.
Qed.

Lemma gather_neighbor_responses_lines labels prev_round neighbor_ids acc :
  gather_neighbor_responses labels prev_round neighbor_ids acc
  = (acc ++ solution_lines labels prev_round neighbor_ids)%list.
Proof.
  revert acc. induction neighbor_ids as [|n ns IH]; intros acc.
  - simpl. rewrite app_nil_r. reflexivity.
  - cbn [gather_neighbor_responses]. rewrite IH.
    unfold solution_lines. cbn [flat_map]. unfold solution_line at 2.
    destruct (PyDict.get n prev_round) as [t|]; [|reflexivity].
    destruct (Py.truthy t); [|reflexivity].
    unfold append_item. rewrite <- app_assoc. reflexivity.
Qed.

Lemma solution_lines_nil labels prev_round neighbor_ids :
  solution_lines labels prev_round neighbor_ids = []
  <-> forall n, In n neighbor_ids ->
        PyDict.get n prev_round = None \/ PyDict.get n prev_round = Some "".
Proof.
  unfold solution_lines. induction neighbor_ids as [|n ns IH]; simpl.
  - split; [intros _ ? [] | reflexivity].
  - split.
    + intros Happ. apply app_eq_nil in Happ. destruct Happ as [Hn Hns].
      intros m [<-|Hm]; [|apply IH; assumption].
      unfold solution_line in Hn. destruct (PyDict.get n prev_round) as [t|]; [|auto].
      destruct t; [auto | discriminate].
    + intros Hall. rewrite (proj2 IH) by auto.
      unfold solution_line. destruct (Hall n (or_introl eq_refl)) as [->| ->];
        reflexivity.
Qed.

Lemma solution_lines_in labels prev_round neighbor_ids n t :
  In n neighbor_ids -> PyDict.get n prev_round = Some t -> t <> "" ->
  In (PyDict.get_default n n labels ++ ": " ++ t)
     (solution_lines labels prev_round neighbor_ids).
Proof.
  intros Hin Hget Hne. unfold solution_lines. apply in_flat_map.
  exists n. split; [exact Hin|]. unfold solution_line. rewrite Hget.
  rewrite truthy_nonempty by exact Hne. simpl; auto.
Qed.

(** C5: for a round after the first the user turn is built from the lines
    ["<label>: <text>"] of the incoming neighbors whose previous-round main
    text is present and non-empty, one per such neighbor in their order:
    when there is one, the prompt presents them as the solutions of other
    agents and restates the question, so each of them occurs in it; when
    there is none, the prompt is the template saying no other solutions
    exist yet, with the question. *)
Theorem followup_user_prompt (question : string) (labels : dict string string)
  (incoming : neighbor_map) (responses_by_round : dict Z (dict string string))
  (rounds : Z) (node_id : string) (round_num : Z) :
  (1 < round_num)%Z ->
  let prev_round := PyDict.get_default (round_num - 1)%Z [] responses_by_round in
  let neighbor_ids := PyDict.get_default node_id [] incoming in
  let lines := solution_lines labels prev_round neighbor_ids in
  let prompt :=
    build_user_prompt question labels incoming responses_by_round rounds
      node_id round_num in
  (lines <> [] ->
     prompt
     = "These are the solutions to the problem from other agents:" ++ Py.NL
       ++ Py.join Py.NL (map (fun l => "One agent solution: " ++ l) lines)
       ++ Py.NL ++ Py.NL
       ++ "Using the solutions from other agents as additional information," ++ Py.NL
       ++ "can you provide your answer to the problem?" ++ Py.NL
       ++ "The original problem is " ++ question ++ Py.NL)
  /\ (forall n t, In n neighbor_ids -> PyDict.get n prev_round = Some t -> t <> "" ->
        occurs_in ("One agent solution: " ++ PyDict.get_default n n labels ++ ": " ++ t)
          prompt)
  /\ ((forall n, In n neighbor_ids ->
         PyDict.get n prev_round = None \/ PyDict.get n prev_round = Some "") ->
      prompt
      = "There are no solutions from other agents yet." ++ Py.NL
        ++ "Can you provide your answer to the problem?" ++ Py.NL
        ++ "The original problem is " ++ question ++ Py.NL).
Proof.
  intros Hround prev_round neighbor_ids lines prompt.
  assert (Hprompt : prompt = build_followup_prompt question lines round_num rounds).
  { unfold prompt, build_user_prompt.
    destruct (Z.eqb_spec round_num 1) as [->|_]; [lia|].
    rewrite gather_neighbor_responses_lines. reflexivity. }
  split; [|split].
  - intros Hne. rewrite Hprompt. unfold build_followup_prompt.
    destruct lines; [congruence | reflexivity].
  - intros n t Hin Hget Hnonempty.
    pose proof (solution_lines_in labels prev_round neighbor_ids n t Hin Hget Hnonempty)
      as Hline. fold lines in Hline.
    rewrite Hprompt. unfold build_followup_prompt.
    destruct lines as [|l0 ls] eqn:El; [destruct Hline|].
    apply occurs_in_app_l, occurs_in_app_l, occurs_in_app_r, occurs_in_join.
    apply (in_map (fun l => "One agent solution: " ++ l)) in Hline. exact Hline.
  - intros Hnone.
    pose proof (proj2 (solution_lines_nil labels prev_round neighbor_ids) Hnone)
      as Hnil. fold lines in Hnil.
    rewrite Hprompt, Hnil. reflexivity.
Qed.

Lemma followup_user_prompt_witness :
  let labels := [("a", "Ay"); ("b", "Bee"); ("c", "Cee")] in
  let incoming := [("a", []); ("b", ["a"]); ("c", ["b"])] in
  let responses := [(1%Z, [("a", "Tea first."); ("b", "Milk first."); ("c", "")])] in
  occurs_in "One agent solution: Ay: Tea first."
    (build_user_prompt "Tea or milk first?" labels incoming responses 2 "b" 2)
  /\ build_user_prompt "Tea or milk first?" labels incoming responses 2 "a" 2
     = "There are no solutions from other agents yet." ++ Py.NL
       ++ "Can you provide your answer to the problem?" ++ Py.NL
       ++ "The original problem is Tea or milk first?" ++ Py.NL.
Proof.
  intros labels incoming responses. split.
  - apply (followup_user_prompt "Tea or milk first?" labels incoming responses
             2 "b" 2 ltac:(lia)) with (n := "a") (t := "Tea first.").
    + simpl; auto.
    + reflexivity.
    + discriminate.
  - apply (followup_user_prompt "Tea or milk first?" labels incoming responses
             2 "a" 2 ltac:(lia)).
    intros n [].
Defined.

(** ** The marker pattern *)

Lemma drop_empty n : Py.drop n "" = "".
Proof. destruct n; reflexivity. Qed.

Lemma drop_drop a b s : Py.drop a (Py.drop b s) = Py.drop (b + a) s.
Proof.
  revert s. induction b as [|b IH]; intros s; simpl; [reflexivity|].
  destruct s as [|c r]; [apply drop_empty | apply IH].
Qed.

Lemma match_literal m p s :
  Re.match_here (Re.literal m ++ p)%list s
  = if startswith_ignorecase m s
    then option_map (Nat.add (String.length m)) (Re.match_here p (Py.drop (String.length m) s))
    else None.
Proof.
  revert s. induction m as [|a m IH]; intros s.
  - simpl. destruct (Re.match_here p s); reflexivity.
  - cbn [Re.literal app Re.match_here startswith_ignorecase String.length].
    destruct s as [|c r]; [reflexivity|].
    destruct (Re.char_match_ignorecase a c); [|reflexivity].
    cbn [andb Py.drop]. rewrite IH.
    destruct (startswith_ignorecase m r); [|reflexivity].
    destruct (Re.match_here p (Py.drop (String.length m) r)); reflexivity.
Qed.

(** A star in front of a continuation that cannot fail cannot fail. *)
Lemma star_then_total cls k :
  (forall s, k s <> None) -> forall s, Re.star_then cls k s <> None.
Proof.
  intros Hk s. induction s as [|c r IH]; simpl; [apply Hk|].
  destruct (cls c); [|apply Hk].
  destruct (Re.star_then cls k r); [discriminate | contradiction].
Qed.

(** A star that matched handed some suffix to its continuation. *)
Lemma star_then_some cls k s n :
  Re.star_then cls k s = Some n -> exists j, k (Py.drop j s) <> None.
Proof.
  revert n. induction s as [|c r IH]; intros n; simpl.
  - intros Hk. exists 0. simpl. congruence.
  - destruct (cls c).
    + destruct (Re.star_then cls k r) as [m|] eqn:E.
      * intros _. destruct (IH m eq_refl) as [j Hj]. exists (S j). exact Hj.
      * intros Hk. exists 0. simpl. congruence.
    + intros Hk. exists 0. simpl. congruence.
Qed.

Lemma star_then_skip cls k c r :
  cls c = false -> Re.star_then cls k (String c r) = k (String c r).
Proof. intros Hc. simpl. rewrite Hc. reflexivity. Qed.

Lemma marker_re_unfold s :
  Re.match_here MARKER_RE s
  = Re.star_then is_newline
      (Re.match_here (Re.literal MARKER ++ [Re.Star Py.isspace; Re.Star is_newline])%list) s.
Proof. reflexivity. Qed.

Lemma marker_tail_total s :
  Re.match_here [Re.Star Py.isspace; Re.Star is_newline] s <> None.
Proof.
  cbn [Re.match_here]. apply star_then_total. intros s'.
  apply star_then_total. intros s''. discriminate.
Qed.

Lemma match_marker_sound s n :
  Re.match_here MARKER_RE s = Some n ->
  exists j, startswith_ignorecase MARKER (Py.drop j s) = true.
Proof.
  rewrite marker_re_unfold. intros Hm. apply star_then_some in Hm.
  destruct Hm as [j Hj]. exists j. rewrite match_literal in Hj.
  destruct (startswith_ignorecase MARKER (Py.drop j s)); congruence.
Qed.

Lemma match_marker_complete s :
  startswith_ignorecase MARKER s = true -> Re.match_here MARKER_RE s <> None.
Proof.
  intros Hs. rewrite marker_re_unfold.
  destruct s as [|c r]; [discriminate|].
  assert (Hc : is_newline c = false).
  { destruct (is_newline c) eqn:E; [|reflexivity].
    apply Ascii.eqb_eq in E. subst c. discriminate. }
  rewrite star_then_skip by exact Hc. rewrite match_literal, Hs.
  destruct (Re.match_here _ _) eqn:E; [discriminate|].
  exfalso. exact (marker_tail_total _ E).
Qed.

Lemma search_from_none p s pos :
  Re.search_from p s pos = None <-> forall j, Re.match_here p (Py.drop j s) = None.
Proof.
  revert pos. induction s as [|c r IH]; intros pos; simpl.
  - destruct (Re.match_here p "") eqn:E.
    + split; [discriminate|]. intros Hall. specialize (Hall 0). simpl in Hall.
      congruence.
    + split; [|reflexivity]. intros _ j. rewrite drop_empty. exact E.
  - destruct (Re.match_here p (String c r)) eqn:E.
    + split; [discriminate|]. intros Hall. specialize (Hall 0). simpl in Hall.
      congruence.
    + rewrite IH. split.
      * intros Hall [|j]; [exact E | apply Hall].
      * intros Hall j. apply (Hall (S j)).
Qed.

(** [re.search] finds nothing exactly when the marker stands nowhere. *)
Lemma search_marker_none text :
  Re.search MARKER_RE text = None <-> forall i, ~ marker_at text i.
Proof.
  unfold Re.search, marker_at. rewrite search_from_none. split.
  - intros Hall i Hi. apply match_marker_complete in Hi. apply Hi, Hall.
  - intros Habs j. destruct (Re.match_here MARKER_RE (Py.drop j text)) as [n|] eqn:E;
      [|reflexivity].
    apply match_marker_sound in E. destruct E as [j' Hj'].
    rewrite drop_drop in Hj'. exfalso. exact (Habs _ Hj').
Qed.

(** ** The brace scan *)

Lemma find_none c s : Py.find c s = None <-> Py.has_char c s = false.
Proof.
  induction s as [|d r IH]; simpl; [tauto|].
  destruct (Ascii.eqb d c); simpl; [split; discriminate|].
  destruct (Py.find c r); [split; [discriminate | intros H; apply IH in H; discriminate]|].
  tauto.
Qed.

Lemma find_some c s i :
  Py.find c s = Some i -> exists r, Py.drop i s = String c r.
Proof.
  revert i. induction s as [|d r IH]; intros i; simpl; [discriminate|].
  destruct (Ascii.eqb d c) eqn:E.
  - intros [= <-]. apply Ascii.eqb_eq in E. subst. exists r. reflexivity.
  - destruct (Py.find c r) as [j|]; [|discriminate].
    intros [= <-]. simpl. apply IH. reflexivity.
Qed.

(** With a positive count the scan fails exactly when the count stays
    positive after every prefix. *)
Lemma scan_braces_none s i count :
  (0 < count)%Z ->
  (scan_braces s i count = None
   <-> forall n, (0 < count + brace_depth (Py.take n s))%Z).
Proof.
  revert i count. induction s as [|c r IH]; intros i count Hpos.
  - simpl. split; [|reflexivity]. intros _ n. destruct n; simpl; lia.
  - cbn [scan_braces].
    destruct (Ascii.eqb c "{"%char) eqn:Eo.
    + rewrite IH by lia. split.
      * intros Hall [|n]; simpl; [lia|]. rewrite Eo. specialize (Hall n). lia.
      * intros Hall n. specialize (Hall (S n)). simpl in Hall. rewrite Eo in Hall. lia.
    + destruct (Ascii.eqb c "}"%char) eqn:Ec.
      * destruct (Z.eqb_spec (count - 1) 0) as [Hz|Hnz].
        -- split; [discriminate|]. intros Hall. specialize (Hall 1%nat).
           simpl in Hall. rewrite Eo, Ec in Hall. lia.
        -- rewrite IH by lia. split.
           ++ intros Hall [|n]; simpl; [lia|]. rewrite Eo, Ec.
              specialize (Hall n). lia.
           ++ intros Hall n. specialize (Hall (S n)). simpl in Hall.
              rewrite Eo, Ec in Hall. lia.
      * rewrite IH by lia. split.
        -- intros Hall [|n]; simpl; [lia|]. rewrite Eo, Ec. specialize (Hall n). lia.
        -- intros Hall n. specialize (Hall (S n)). simpl in Hall.
           rewrite Eo, Ec in Hall. lia.
Qed.

(** When the scan succeeds it stops after the first prefix that brings
    the count to zero. *)
Lemma scan_braces_some s i count e :
  (0 < count)%Z ->
  scan_braces s i count = Some e ->
  exists n, e = i + n /\ 0 < n
    /\ (count + brace_depth (Py.take n s) = 0)%Z
    /\ forall m, m < n -> (0 < count + brace_depth (Py.take m s))%Z.
Proof.
  revert i count. induction s as [|c r IH]; intros i count Hpos; [discriminate|].
  cbn [scan_braces].
  assert (Hstep : forall count' : Z,
             (0 < count')%Z ->
             (count' = count + (if Ascii.eqb c "{"%char then 1
                                else if Ascii.eqb c "}"%char then -1 else 0))%Z ->
             scan_braces r (S i) count' = Some e ->
             exists n, e = i + n /\ 0 < n
               /\ (count + brace_depth (Py.take n (String c r)) = 0)%Z
               /\ forall m, m < n ->
                    (0 < count + brace_depth (Py.take m (String c r)))%Z).
  { intros count' Hpos' Hcount' Hscan.
    destruct (IH (S i) count' Hpos' Hscan) as (n & -> & Hn & Hzero & Hbefore).
    exists (S n). repeat split; try lia.
    - cbn [Py.take brace_depth]. lia.
    - intros [|m] Hm; cbn [Py.take brace_depth]; [lia|].
      specialize (Hbefore m ltac:(lia)). lia. }
  destruct (Ascii.eqb c "{"%char) eqn:Eo.
  - apply Hstep; lia.
  - destruct (Ascii.eqb c "}"%char) eqn:Ec.
    + destruct (Z.eqb_spec (count - 1) 0) as [Hz|Hnz].
      * intros [= <-]. exists 1. repeat split; try lia.
        -- cbn [Py.take brace_depth]. rewrite Eo, Ec. lia.
        -- intros [|m] Hm; [simpl; lia | lia].
      * apply Hstep; lia.
    + apply Hstep; lia.
Qed.

(** ** Response parser *)

Lemma no_summary_comments text expected_neighbors :
  exists comments,
    no_summary text expected_neighbors = (text, "", comments)
    /\ NoDup (PyDict.keys comments)
    /\ (forall nid, In nid (PyDict.keys comments) <-> In nid expected_neighbors)
    /\ (forall nid, In nid expected_neighbors -> PyDict.get nid comments = Some "").
Proof.
  eexists. split; [reflexivity|]. split; [apply NoDup_keys_comprehension|].
  split.
  - intros nid. rewrite in_keys_comprehension, map_id. tauto.
  - intros nid Hin.
    assert (Hk : In nid (PyDict.keys
                           (PyDict.comprehension (fun n : string => n)
                              (fun _ => "") expected_neighbors))).
    { rewrite in_keys_comprehension, map_id. exact Hin. }
    apply get_some_in_keys in Hk. destruct Hk as [v Hv]. rewrite Hv.
    unfold PyDict.comprehension in Hv. apply get_assign_loop in Hv.
    destruct Hv as [Hv|(a & _ & _ & Hv)]; [discriminate | congruence].
Qed.

Section ParserFacts.
Context `{JsonLib}.

Lemma find_json_end_unmatched json_section json_start :
  Py.find "{"%char json_section = Some json_start ->
  (forall n, 0 < n ->
     (0 < brace_depth (Py.take n (Py.drop json_start json_section)))%Z) ->
  find_json_end json_section json_start = None.
Proof.
  intros Hfind Hdepth. unfold find_json_end.
  destruct (find_some _ _ _ Hfind) as [r Hr]. rewrite Hr in *.
  cbn [scan_braces]. change (Ascii.eqb "{" "{") with true. cbn iota.
  apply scan_braces_none; [lia|]. intros n.
  specialize (Hdepth (S n) ltac:(lia)). cbn [Py.take brace_depth] in Hdepth.
  change (Ascii.eqb "{" "{") with true in Hdepth. cbn iota in Hdepth. lia.
Qed.

Lemma parse_fallback_case text expected_neighbors labels round_num :
  fallback_case text ->
  parse_summary_json text expected_neighbors labels round_num
  = Ok (no_summary text expected_neighbors).
Proof.
  intros Hcase. unfold parse_summary_json. destruct Hcase.
  - rewrite (proj2 (search_marker_none text)) by assumption. reflexivity.
  - rewrite H0. rewrite (proj2 (find_none _ _)) by assumption. reflexivity.
  - rewrite H0, H1. rewrite find_json_end_unmatched by assumption. reflexivity.
  - rewrite H0, H1, H2, H3. reflexivity.
Qed.

(** The fallback.  In four cases the parser returns, without raising,
    the full original text as main text, the empty position, and comments
    that hold exactly the expected neighbors, each with the empty string:
    the marker stands nowhere; no opening brace follows it; the first
    opening brace is never matched; or [json.loads] raises
    [JSONDecodeError], or another [ValueError], on the bracketed text. *)
Theorem parse_falls_back_to_full_text (text : string)
  (expected_neighbors : list string) (labels : dict string string) (round_num : Z) :
  fallback_case text ->
  exists comments,
    parse_summary_json text expected_neighbors labels round_num
    = Ok (text, "", comments)
    /\ (forall nid, In nid (PyDict.keys comments) <-> In nid expected_neighbors)
    /\ (forall nid, In nid expected_neighbors -> PyDict.get nid comments = Some "").
Proof.
  intros Hcase. rewrite parse_fallback_case by exact Hcase.
  destruct (no_summary_comments text expected_neighbors)
    as (comments & -> & _ & Hkeys & Hvals).
  exists comments. auto.
Qed.

End ParserFacts.

(** A loop of assignments gives a key the value of the last element that
    assigns to it. *)
Lemma get_assign_loop_last {K V A} `{KeyEq K} (key : A -> K) (val : A -> V) xs d k :
  PyDict.get k (fold_left (fun d a => PyDict.set (key a) (val a) d) xs d)
  = fold_left (fun acc a => if keq (key a) k then Some (val a) else acc) xs
      (PyDict.get k d).
Proof.
  revert d. induction xs as [|a xs IH]; intros d; simpl; [reflexivity|].
  rewrite IH. f_equal. destruct (keq (key a) k) eqn:E.
  - apply keq_eq in E. subst k. apply get_set_same.
  - apply get_set_other. intros Heq. rewrite Heq, keq_refl in E. discriminate.
Qed.

Lemma fold_last_hit {A B} (hit : A -> bool) (val : A -> B) before x after acc :
  hit x = true -> (forall y, In y after -> hit y = false) ->
  fold_left (fun acc a => if hit a then Some (val a) else acc)
    (before ++ x :: after)%list acc
  = Some (val x).
Proof.
  intros Hx Hafter. rewrite fold_left_app. simpl. rewrite Hx.
  induction after as [|y after IH]; simpl; [reflexivity|].
  rewrite (Hafter y) by (simpl; auto). apply IH.
  intros z Hz. apply Hafter. simpl; auto.
Qed.

Lemma fold_last_miss {A B} (hit : A -> bool) (val : A -> B) xs acc :
  (forall y, In y xs -> hit y = false) ->
  fold_left (fun acc a => if hit a then Some (val a) else acc) xs acc = acc.
Proof.
  revert acc. induction xs as [|y xs IH]; intros acc Hall; simpl; [reflexivity|].
  rewrite (Hall y) by (simpl; auto). apply IH. intros z Hz. apply Hall. simpl; auto.
Qed.

Lemma fold_last_some {A B} (hit : A -> bool) (val : A -> B) xs acc v :
  fold_left (fun acc a => if hit a then Some (val a) else acc) xs acc = Some v ->
  acc = Some v \/ exists x, In x xs /\ hit x = true /\ val x = v.
Proof.
  revert acc. induction xs as [|y xs IH]; intros acc; simpl; [auto|].
  intros Hfold. apply IH in Hfold. destruct Hfold as [Hacc|(x & Hin & Hx & Hv)].
  - destruct (hit y) eqn:E; [|auto].
    injection Hacc as <-. right. exists y. auto.
  - right. exists x. auto.
Qed.

(** The reverse lookup maps a lower-cased label to the id of the last
    node that carries it. *)
Lemma label_to_id_last labels k nid :
  PyDict.get k (label_to_id labels) = Some nid
  <-> exists before label after,
        labels = (before ++ (nid, label) :: after)%list
        /\ Py.lower label = k
        /\ forall item, In item after -> Py.lower (snd item) <> k.
Proof.
  unfold label_to_id, PyDict.comprehension. rewrite get_assign_loop_last.
  cbn [PyDict.get]. split.
  - revert k nid. induction labels as [|item labels IH] using rev_ind; intros k nid.
    + discriminate.
    + rewrite fold_left_app. cbn [fold_left].
      destruct (keq (Py.lower (snd item)) k) eqn:E.
      * intros [= <-]. apply keq_eq in E. destruct item as [n l].
        exists labels, l, []. repeat split; [exact E | intros ? []].
      * intros Hrest. destruct (IH k nid Hrest) as (b & l & a & -> & Hl & Ha).
        exists b, l, (a ++ [item])%list. repeat split.
        -- rewrite <- app_assoc. reflexivity.
        -- exact Hl.
        -- intros it Hit. apply in_app_iff in Hit. destruct Hit as [Hit|[<-|[]]].
           ++ apply Ha, Hit.
           ++ intros Heq. apply keq_eq in Heq. congruence.
  - intros (b & l & a & -> & Hl & Ha).
    apply (fold_last_hit (fun a : string * string => keq (Py.lower (snd a)) k) fst).
    + apply keq_eq. exact Hl.
    + intros y Hy. apply keq_neq. apply Ha, Hy.
Qed.

Section CommentFacts.
Context `{JsonLib}.
Variables (labels : dict string string) (expected : list string).

Lemma resolves_b_true nid item :
  resolves_b labels expected nid item = true <-> resolves labels expected (fst item) nid.
Proof.
  unfold resolves_b, resolves.
  destruct (PyDict.get _ (label_to_id labels)) as [n|].
  - rewrite andb_true_iff, mem_true_iff, String.eqb_eq. split.
    + intros [Hin ->]. auto.
    + intros [[= ->] Hin]. auto.
  - split; [discriminate | intros [Hn _]; discriminate].
Qed.

Lemma resolves_b_false nid item :
  resolves_b labels expected nid item = false <-> ~ resolves labels expected (fst item) nid.
Proof.
  rewrite <- resolves_b_true. destruct (resolves_b labels expected nid item); split; congruence.
Qed.

(** What the loop over the comments leaves under [nid]: the comment of
    the last pair that resolves to it. *)
Lemma get_recorded nid items comments :
  PyDict.get nid (fold_left (record_comment (label_to_id labels) expected) items comments)
  = fold_left (fun acc item =>
                 if resolves_b labels expected nid item then Some (Py.strip (py_str (snd item)))
                 else acc)
      items (PyDict.get nid comments).
Proof.
  revert comments. induction items as [|[name value] items IH]; intros comments;
    [reflexivity|].
  cbn [fold_left]. rewrite IH. f_equal.
  unfold record_comment, resolves_b. cbn [fst snd].
  destruct (PyDict.get _ (label_to_id labels)) as [n|]; [|reflexivity].
  destruct (Py.mem n expected); [|reflexivity]. cbn [andb].
  destruct (String.eqb_spec n nid) as [->|Hne].
  - apply get_set_same.
  - apply get_set_other. exact Hne.
Qed.

Lemma get_fill_missing nid comments :
  PyDict.get nid (fill_missing expected comments)
  = match PyDict.get nid comments with
    | Some v => Some v
    | None => if Py.mem nid expected then Some "" else None
    end.
Proof.
  unfold fill_missing. revert comments.
  induction expected as [|n rest IH]; intros comments.
  - simpl. destruct (PyDict.get nid comments); reflexivity.
  - cbn [fold_left]. rewrite IH. unfold Py.mem. cbn [existsb].
    fold (Py.mem nid rest). unfold PyDict.has.
    destruct (String.eqb_spec nid n) as [->|Hne].
    + destruct (PyDict.get n comments) eqn:E; cbn [negb].
      * rewrite E. reflexivity.
      * rewrite get_set_same. reflexivity.
    + destruct (PyDict.get n comments); cbn [negb orb];
        [reflexivity | rewrite get_set_other by congruence; reflexivity].
Qed.

Lemma final_comments_keys items nid :
  In nid (PyDict.keys (final_comments labels expected items)) <-> In nid expected.
Proof.
  rewrite <- get_some_in_keys. unfold final_comments.
  rewrite get_fill_missing, get_recorded. cbn [PyDict.get].
  destruct (fold_left _ items None) as [v|] eqn:E.
  - split; [|eauto]. intros _. apply fold_last_some in E.
    destruct E as [E|(x & _ & Hx & _)]; [discriminate|].
    apply resolves_b_true in Hx. apply Hx.
  - destruct (Py.mem nid expected) eqn:Em.
    + apply mem_true_iff in Em. split; eauto.
    + apply mem_false_iff in Em. split; [intros [v Hv]; discriminate | tauto].
Qed.


Lemma final_comments_default items nid :
  In nid expected ->
  (forall item, In item items -> ~ resolves labels expected (fst item) nid) ->
  PyDict.get nid (final_comments labels expected items) = Some "".
Proof.
  intros Hin Hnone. unfold final_comments.
  rewrite get_fill_missing, get_recorded.
  rewrite fold_last_miss by (intros y Hy; apply resolves_b_false, Hnone, Hy).
  cbn [PyDict.get]. rewrite (proj2 (mem_true_iff nid expected) Hin). reflexivity.
Qed.

End CommentFacts.

Section EnvelopeFacts.
Context `{JsonLib}.

Lemma parse_envelope text main_text data expected labels round_num :
  envelope text main_text data ->
  parse_summary_json text expected labels round_num
  = match data with
    | JObject members =>
        (comments <- extract_comments members (label_to_id labels) expected round_num ;;
         Ok (main_text,
             Py.strip (py_str (PyDict.get_default "position" (JString "") members)),
             fill_missing expected comments))%result
    | _ => Raise AttributeError
    end.
Proof.
  intros (ms & me & js & je & Hs & -> & Hf & He & Hl).
  unfold parse_summary_json. rewrite Hs, Hf, He, Hl. reflexivity.
Qed.

(** Without an envelope, and with no exception of the decoder but the
    caught one, the parser falls back. *)
Lemma parse_no_envelope text expected labels round_num :
  (forall main_text data, ~ envelope text main_text data) ->
  (forall e, decoder_raises text e -> e = ValueError) ->
  parse_summary_json text expected labels round_num = Ok (no_summary text expected).
Proof.
  intros Hnone Hcaught. unfold parse_summary_json.
  destruct (Re.search MARKER_RE text) as [[ms me]|] eqn:Hs; [|reflexivity].
  destruct (Py.find _ _) as [js|] eqn:Hf; [|reflexivity].
  destruct (find_json_end _ _) as [je|] eqn:He; [|reflexivity].
  destruct (json_loads _) as [data|e] eqn:Hl.
  - exfalso. apply (Hnone (Py.strip (Py.take ms text)) data).
    exists ms, me, js, je. auto.
  - rewrite (Hcaught e) by (exists ms, me, js, je; auto). reflexivity.
Qed.

(** An exception of the decoder that the [except] clause does not name
    leaves the parser. *)
Lemma parse_decoder_raises text expected labels round_num e :
  decoder_raises text e -> e <> ValueError ->
  parse_summary_json text expected labels round_num = Raise e.
Proof.
  intros (ms & me & js & je & Hs & Hf & He & Hl) Hne.
  unfold parse_summary_json. rewrite Hs, Hf, He, Hl.
  destruct e; congruence.
Qed.

Lemma extract_comments_object members items expected labels round_num :
  (1 < round_num)%Z ->
  PyDict.get "comments" members = Some (JObject items) ->
  extract_comments members (label_to_id labels) expected round_num
  = Ok (fold_left (record_comment (label_to_id labels) expected) items []).
Proof.
  intros Hround Hget. unfold extract_comments, PyDict.has, getitem.
  rewrite (proj2 (Z.ltb_lt 1 round_num) Hround), Hget. reflexivity.
Qed.


(** Whatever the parser returns holds exactly the expected neighbors. *)
Lemma parse_returns_expected_keys text expected labels round_num
  main_text position comments :
  parse_summary_json text expected labels round_num
  = Ok (main_text, position, comments) ->
  forall nid, In nid (PyDict.keys comments) <-> In nid expected.
Proof.
  unfold parse_summary_json.
  destruct (no_summary_comments text expected) as (c0 & Hc0 & _ & Hkeys0 & _).
  rewrite Hc0.
  destruct (Re.search MARKER_RE text) as [[ms me]|]; [|intros [= _ _ <-]; exact Hkeys0].
  destruct (Py.find _ _) as [js|]; [|intros [= _ _ <-]; exact Hkeys0].
  destruct (find_json_end _ _) as [je|]; [|intros [= _ _ <-]; exact Hkeys0].
  destruct (json_loads _) as [data|e];
    [|destruct e; try discriminate; intros [= _ _ <-]; exact Hkeys0].
  destruct data as [| | | | | |members]; try discriminate.
  unfold extract_comments.
  destruct ((1 <? round_num)%Z && PyDict.has "comments" members).
  - destruct (getitem members "comments") as [[| | | | | |items]|]; try discriminate.
    cbn [rbind]. intros [= _ _ <-] nid.
    apply (final_comments_keys labels expected items).
  - cbn [rbind]. intros [= _ _ <-] nid.
    apply (final_comments_keys labels expected []).
Qed.

(** The parser raises in two ways only: [AttributeError] on a decoded
    envelope that is not an object or, after round 1, whose [comments]
    value is not an object; and whatever the decoder raises on the
    bracketed text that is not a [ValueError]. *)
Lemma parse_raises text expected labels round_num e :
  parse_summary_json text expected labels round_num = Raise e ->
  (e = AttributeError
   /\ exists main_text data,
        envelope text main_text data
        /\ match data with
           | JObject members =>
               (1 < round_num)%Z
               /\ exists v, PyDict.get "comments" members = Some v
                            /\ forall items, v <> JObject items
           | _ => True
           end)
  \/ (e <> ValueError /\ decoder_raises text e).
Proof.
  unfold parse_summary_json.
  destruct (Re.search MARKER_RE text) as [[ms me]|] eqn:Hs; [|discriminate].
  destruct (Py.find _ _) as [js|] eqn:Hf; [|discriminate].
  destruct (find_json_end _ _) as [je|] eqn:He; [|discriminate].
  destruct (json_loads _) as [data|e0] eqn:Hl.
  2:{ intros Hraise. right.
      assert (Hdec : decoder_raises text e0) by (exists ms, me, js, je; auto).
      destruct e0; try discriminate; injection Hraise as <-;
        (split; [discriminate | exact Hdec]). }
  assert (Henv : envelope text (Py.strip (Py.take ms text)) data)
    by (exists ms, me, js, je; auto).
  destruct data as [| | | | | |members];
    try (intros [= <-]; left; split; [reflexivity|]; do 2 eexists;
         split; [exact Henv|exact I]).
  unfold extract_comments, PyDict.has, getitem.
  destruct (Z.ltb_spec 1 round_num) as [Hround|_]; [|discriminate].
  destruct (PyDict.get "comments" members) as [v|] eqn:Hc; [|discriminate].
  cbn [andb rbind].
  destruct v; try discriminate;
    (intros [= <-]; left; split; [reflexivity|]; do 2 eexists; split; [exact Henv|];
     split; [exact Hround|]; eexists; split; [exact Hc | discriminate]).
Qed.

End EnvelopeFacts.

(** ** Replies run through the parser *)

Lemma parse_falls_back_to_full_text_witness :
  (exists comments,
     @parse_summary_json (StdJson no_floats) malformed_reply ["b"] [("b", "Bea")] 2
     = Ok (malformed_reply, "", comments)
     /\ (forall nid, In nid (PyDict.keys comments) <-> In nid ["b"])
     /\ (forall nid, In nid ["b"] -> PyDict.get nid comments = Some ""))
  /\
  (exists comments,
     @parse_summary_json (StdJson no_floats) "No envelope at all." ["b"] [("b", "Bea")] 2
     = Ok ("No envelope at all.", "", comments)
     /\ (forall nid, In nid (PyDict.keys comments) <-> In nid ["b"])
     /\ (forall nid, In nid ["b"] -> PyDict.get nid comments = Some "")).
Proof.
  split.
  - apply (@parse_falls_back_to_full_text (StdJson no_floats)).
    eapply JsonFailure; vm_compute; reflexivity.
  - apply (@parse_falls_back_to_full_text (StdJson no_floats)).
    apply NoMarker. apply search_marker_none. vm_compute; reflexivity.
Defined.


(** C2 (the code departs from it): in a round after the first, a reply
    whose envelope gives [comments] a value that is not an object makes the
    parser raise [AttributeError] ([.items()] of an [int]), which its
    [except] clause does not catch; no comments mapping is returned. *)
Theorem comments_not_object_raises (float_repr : string -> string)
  (expected : list string) (labels : dict string string) :
  @parse_summary_json (StdJson float_repr)
    ("SUMMARY_JSON: {" ++ quoted "comments" ++ ": 5}") expected labels 2
  = Raise AttributeError.
Proof. reflexivity. Qed.

(** C3 (the code departs from it): a reply whose bracketed text is not
    JSON is to fall back to the full text without raising, and the [try]
    block does so for a [JSONDecodeError].  But on a bracketed text that
    opens more arrays than the interpreter has stack for, [json.loads]
    raises [RecursionError] before it reaches the place where the text
    stops being JSON, and the clause [except (json.JSONDecodeError,
    ValueError)] does not catch that: the parser raises and returns
    nothing.  The text is not JSON (a decoder with stack to spare rejects
    it with [JSONDecodeError]), the scan brackets all of it, and under the
    default limit the parser raises [RecursionError]. *)
Theorem deep_nesting_escapes_fallback (float_repr : string -> string)
  (expected : list string) (labels : dict string string) (round_num : Z) :
  JsonReader.loads (S JsonReader.DEFAULT_RECURSION_LIMIT) deep_envelope
  = Raise ValueError
  /\ find_json_end deep_envelope 0 = Some (String.length deep_envelope)
  /\ JsonReader.loads JsonReader.DEFAULT_RECURSION_LIMIT deep_envelope
     = Raise RecursionError
  /\ @parse_summary_json (StdJson float_repr) deep_reply expected labels round_num
     = Raise RecursionError.
Proof. repeat split; vm_compute; reflexivity. Qed.

(** C10: the envelope [{"position": "use } carefully"}] is valid JSON
    with that position, but the scan for the closing brace stops at the
    brace inside the string; the text it brackets is not JSON, so the
    parser returns the full-text fallback: the whole reply, the empty
    position and empty comments for the expected neighbors. *)
Theorem brace_inside_string_falls_back (float_repr : string -> string)
  (expected : list string) (labels : dict string string) (round_num : Z) :
  let envelope_text :=
    "{" ++ quoted "position" ++ ": " ++ quoted "use } carefully" ++ "}" in
  let text := reply "Mind the braces." envelope_text in
  JsonReader.loads JsonReader.DEFAULT_RECURSION_LIMIT envelope_text
  = Ok (JObject [("position", JString "use } carefully")])
  /\ find_json_end envelope_text 0 = Some 19
  /\ Py.slice 0 19 envelope_text = "{" ++ quoted "position" ++ ": " ++ Py.DQ ++ "use }"
  /\ JsonReader.loads JsonReader.DEFAULT_RECURSION_LIMIT (Py.slice 0 19 envelope_text)
     = Raise ValueError
  /\ exists comments,
       @parse_summary_json (StdJson float_repr) text expected labels round_num
       = Ok (text, "", comments)
       /\ (forall nid, In nid (PyDict.keys comments) <-> In nid expected)
       /\ (forall nid, In nid expected -> PyDict.get nid comments = Some "").
Proof.
  intros envelope_text text.
  split; [vm_compute; reflexivity|]. split; [vm_compute; reflexivity|].
  split; [vm_compute; reflexivity|]. split; [vm_compute; reflexivity|].
  assert (Hcase : @fallback_case (StdJson float_repr) text)
    by (eapply JsonFailure; vm_compute; reflexivity).
  rewrite (@parse_fallback_case (StdJson float_repr) text expected labels round_num Hcase).
  destruct (no_summary_comments text expected) as (comments & -> & _ & Hkeys & Hvals).
  exists comments. auto.
Qed.

(** ** Debate scheduler *)

Lemma gbind_lift_ok {A B} (r : result A) (f : A -> Gen B) evs b :
  gbind (lift r) f = (evs, Ok b) -> exists a, r = Ok a /\ f a = (evs, Ok b).
Proof.
  unfold gbind, lift. destruct r as [a|e]; [|discriminate].
  destruct (f a) as [evs' r'] eqn:E. simpl. intros [= <- <-]. eauto.
Qed.

Lemma gbind_ok {A B} (m : Gen A) (f : A -> Gen B) evs b :
  gbind m f = (evs, Ok b) ->
  exists evs1 a evs2,
    m = (evs1, Ok a) /\ f a = (evs2, Ok b) /\ evs = (evs1 ++ evs2)%list.
Proof.
  unfold gbind. destruct m as [evs1 [a|e]]; [|discriminate].
  destruct (f a) as [evs2 r] eqn:E. intros [= <- <-]. eauto 6.
Qed.

Lemma yield_all_events evs : yield_all evs = (evs, Ok tt).
Proof.
  induction evs as [|e evs IH]; [reflexivity|].
  cbn [yield_all]. unfold gbind, yield. rewrite IH. reflexivity.
Qed.

Section SchedulerFacts.
Context `{JsonLib} `{Backend}.

(** A step that completes: what it read, what it wrote, what it yielded. *)
Lemma debate_step_completed p round_num node st evs st' :
  debate_step p round_num node st = (evs, Ok st') ->
  exists system turns content main_text position comments round_table,
    PyDict.get (id node) (histories st) = Some (system :: turns)
    /\ create (id node) (call_history p st round_num node turns) = Some content
    /\ parse_summary_json content (PyDict.get_default (id node) [] (outgoing p))
         (labels p) round_num
       = Ok (main_text, position, comments)
    /\ PyDict.get round_num (responses_by_round st) = Some round_table
    /\ st' = mkSession
               (PyDict.set (id node)
                  (call_history p st round_num node turns
                   ++ [AssistantMessage content
                         (PyDict.get_default (id node) (id node) (labels p))])%list
                  (histories st))
               (PyDict.set round_num
                  (PyDict.set (id node) main_text round_table)
                  (responses_by_round st))
    /\ evs = (PositionEvent (id node) position round_num
              :: message_events (id node)
                   (PyDict.get_default (id node) [] (outgoing p))
                   main_text comments round_num)%list.
Proof.
  unfold debate_step. intros Hstep.
  apply gbind_lift_ok in Hstep. destruct Hstep as (history & Hhist & Hstep).
  apply gbind_lift_ok in Hstep. destruct Hstep as (history1 & Hfirst & Hstep).
  apply gbind_lift_ok in Hstep. destruct Hstep as (content & Hcall & Hstep).
  apply gbind_lift_ok in Hstep. destruct Hstep as ([[main_text position] comments] & Hparse & Hstep).
  apply gbind_lift_ok in Hstep. destruct Hstep as (round_table & Htable & Hstep).
  unfold getitem in Hhist, Htable.
  destruct (PyDict.get (id node) (histories st)) as [h|] eqn:Eh; [|discriminate].
  injection Hhist as ->.
  destruct history as [|system turns]; [discriminate|].
  injection Hfirst as <-.
  destruct (PyDict.get round_num (responses_by_round st)) as [t|] eqn:Et; [|discriminate].
  injection Htable as ->.
  unfold call in Hcall.
  destruct (create (id node) _) as [c|] eqn:Ec; [|discriminate].
  injection Hcall as ->.
  rewrite yield_all_events in Hstep. unfold gbind, yield, gret in Hstep.
  cbn [app] in Hstep. rewrite app_nil_r in Hstep. injection Hstep as <- <-.
  exists system, turns, content, main_text, position, comments, round_table.
  repeat split; try assumption; reflexivity.
Qed.

(** C1: a step that completes yields exactly one position event, with
    the node id, the parsed position and the round, and then the message
    events: for a node with no outgoing neighbors one event to ["none"]
    with the parsed main text and the empty summary; otherwise one event
    per outgoing neighbor, in their order, each with the same main text and
    with the comment the parser holds for that neighbor. *)
Theorem step_events (p : plan) (round_num : Z) (node : Node)
  (st st' : session) (evs : list event) :
  debate_step p round_num node st = (evs, Ok st') ->
  let node_id := id node in
  let recipients := PyDict.get_default node_id [] (outgoing p) in
  exists content main_text position comments,
    parse_summary_json content recipients (labels p) round_num
    = Ok (main_text, position, comments)
    /\ (exists system turns,
          PyDict.get node_id (histories st) = Some (system :: turns)
          /\ create node_id (call_history p st round_num node turns) = Some content)
    /\ (forall to_id, In to_id recipients ->
          exists comment, PyDict.get to_id comments = Some comment)
    /\ evs
       = (PositionEvent node_id position round_num
          :: match recipients with
             | [] => [MessageEvent node_id "none" main_text "" round_num]
             | _ =>
                 map (fun to_id =>
                        MessageEvent node_id to_id main_text
                          (PyDict.get_default to_id "" comments) round_num)
                     recipients
             end)%list.
Proof.
  intros Hstep node_id recipients.
  apply debate_step_completed in Hstep.
  destruct Hstep as (system & turns & content & main_text & position & comments
                     & round_table & Hhist & Hcall & Hparse & _ & _ & ->).
  exists content, main_text, position, comments.
  split; [exact Hparse|]. split; [eauto|]. split; [|reflexivity].
  intros to_id Hin. apply get_some_in_keys.
  apply (parse_returns_expected_keys _ _ _ _ _ _ _ Hparse). exact Hin.
Qed.

End SchedulerFacts.

Lemma alternates_app turns1 turns2 :
  alternates turns1 -> alternates turns2 -> alternates (turns1 ++ turns2).
Proof.
  intros H1 H2. induction H1; simpl; [exact H2 | constructor; assumption].
Qed.

Section HistoryFacts.
Context `{JsonLib} `{Backend}.

(** One pass over the nodes, with distinct ids: every node's history gets
    the round's system message in front and one user and one assistant
    turn behind; no other history changes. *)
Lemma run_nodes_histories p round_num nodes :
  NoDup (map id nodes) ->
  forall st evs st',
    run_nodes p round_num nodes st = (evs, Ok st') ->
    (forall k, ~ In k (map id nodes) ->
       PyDict.get k (histories st') = PyDict.get k (histories st))
    /\ (forall node, In node nodes ->
          exists system turns prompt content source,
            PyDict.get (id node) (histories st) = Some (system :: turns)
            /\ PyDict.get (id node) (histories st')
               = Some (SystemMessage (system_prompt_of p node round_num)
                       :: turns ++ [UserMessage prompt "user";
                                    AssistantMessage content source])%list).
Proof.
  induction nodes as [|node rest IH]; intros Hnd st evs st' Hrun.
  - injection Hrun as _ <-. split; [reflexivity | intros ? []].
  - cbn [run_nodes] in Hrun. apply gbind_ok in Hrun.
    destruct Hrun as (evs1 & st1 & evs2 & Hstep & Hrest & _).
    cbn [map] in Hnd. apply NoDup_cons_iff in Hnd. destruct Hnd as [Hfresh Hnd].
    destruct (IH Hnd st1 evs2 st' Hrest) as [Hother Hnodes].
    apply debate_step_completed in Hstep.
    destruct Hstep as (system & turns & content & main_text & position & comments
                       & round_table & Hhist & _ & _ & _ & Hst1 & _).
    assert (Hh1 : forall k, k <> id node ->
                    PyDict.get k (histories st1) = PyDict.get k (histories st)).
    { intros k Hk. rewrite Hst1. cbn [histories].
      apply get_set_other. congruence. }
    split.
    + intros k Hk. cbn [map In] in Hk. rewrite Hother by tauto.
      apply Hh1. intros ->. tauto.
    + intros node' [<-|Hin].
      * exists system, turns. do 3 eexists. split; [exact Hhist|].
        rewrite Hother by exact Hfresh. rewrite Hst1. cbn [histories].
        rewrite get_set_same. unfold call_history.
        cbn [app]. rewrite <- app_assoc. reflexivity.
      * destruct (Hnodes node' Hin) as (s' & t' & pr & c & src & Hbefore & Hafter).
        exists s', t', pr, c, src. split; [|exact Hafter].
        rewrite <- Hh1; [exact Hbefore|].
        intros Heq. apply Hfresh. rewrite <- Heq. apply in_map. exact Hin.
Qed.

Lemma run_rounds_histories p nodes :
  NoDup (map id nodes) ->
  forall round_nums st evs st',
    run_rounds p nodes round_nums st = (evs, Ok st') ->
    forall node system turns,
      In node nodes ->
      PyDict.get (id node) (histories st) = Some (system :: turns) ->
      exists turns',
        PyDict.get (id node) (histories st')
        = Some (last_system p node round_nums system :: turns ++ turns')%list
        /\ alternates turns'
        /\ List.length turns' = 2 * List.length round_nums.
Proof.
  intros Hnd. induction round_nums as [|r rest IH];
    intros st evs st' Hrun node system turns Hin Hhist.
  - injection Hrun as _ <-. exists []. rewrite app_nil_r.
    repeat split; [exact Hhist | constructor].
  - cbn [run_rounds] in Hrun. apply gbind_ok in Hrun.
    destruct Hrun as (evs1 & st1 & evs2 & Hround & Hrest & _).
    unfold run_round in Hround.
    destruct (run_nodes_histories p r nodes Hnd _ _ _ Hround) as [_ Hnodes].
    destruct (Hnodes node Hin) as (s0 & t0 & pr & c & src & Hbefore & Hafter).
    cbn [histories] in Hbefore. rewrite Hhist in Hbefore.
    injection Hbefore as <- <-.
    destruct (IH st1 evs2 st' Hrest node _ _ Hin Hafter) as (turns' & Hfinal & Halt & Hlen).
    exists ([UserMessage pr "user"; AssistantMessage c src] ++ turns')%list.
    split; [|split].
    + rewrite Hfinal. rewrite <- app_assoc. f_equal. f_equal.
      unfold last_system. destruct rest; reflexivity.
    + constructor. exact Halt.
    + cbn [List.length app]. rewrite Hlen. cbn [List.length]. lia.
Qed.

Lemma run_rounds_app p nodes rs1 rs2 st :
  run_rounds p nodes (rs1 ++ rs2) st
  = gbind (run_rounds p nodes rs1 st) (run_rounds p nodes rs2).
Proof.
  revert st. induction rs1 as [|r rs1 IH]; intros st.
  - cbn [app run_rounds]. unfold gbind, gret.
    destruct (run_rounds p nodes rs2 st). reflexivity.
  - cbn [app run_rounds]. unfold gbind at 1 3.
    destruct (run_round p nodes r st) as [evs1 [st1|e]]; [|reflexivity].
    rewrite IH. unfold gbind.
    destruct (run_rounds p nodes rs1 st1) as [evs2 [st2|e]]; [|reflexivity].
    destruct (run_rounds p nodes rs2 st2) as [evs3 r3].
    rewrite app_assoc. reflexivity.
Qed.

End HistoryFacts.

Lemma initial_history nodes outgoing labels node :
  NoDup (map id nodes) -> In node nodes ->
  PyDict.get (id node) (initial_histories nodes outgoing labels)
  = Some [SystemMessage
            (build_system_prompt (custom_prompt_of node)
               (PyDict.get_default (id node) [] outgoing) labels 1)].
Proof.
  intros Hnd Hin. unfold initial_histories.
  rewrite (get_assign_loop_last id
             (fun node =>
                [SystemMessage
                   (build_system_prompt (custom_prompt_of node)
                      (PyDict.get_default (id node) [] outgoing) labels 1)])).
  apply in_split in Hin. destruct Hin as (before & after & ->).
  apply (fold_last_hit (fun a : Node => keq (id a) (id node))
           (fun node =>
              [SystemMessage
                 (build_system_prompt (custom_prompt_of node)
                    (PyDict.get_default (id node) [] outgoing) labels 1)])).
  - apply keq_refl.
  - intros y Hy. apply keq_neq. intros Heq.
    rewrite map_app in Hnd. apply NoDup_app_remove_l in Hnd.
    cbn [map] in Hnd. apply NoDup_cons_iff in Hnd. destruct Hnd as [Hfresh _].
    apply Hfresh. rewrite <- Heq. apply in_map. exact Hy.
Qed.

Lemma last_round_range n :
  last (map Z.of_nat (seq 1 (S n))) 0%Z = Z.of_nat (S n).
Proof.
  rewrite seq_S, map_app. cbn [map]. apply last_last.
Qed.

Section DebateFacts.
Context `{JsonLib} `{Backend}.


(** C9: with distinct node ids, after [n] completed rounds every node's
    history is the system message of the last round (of round 1 before any
    round) followed by [2 * n] turns, user and assistant in pairs, so it
    holds [1 + 2 * n] messages; and the history after any earlier round [m]
    is the system message of that round followed by the first [2 * m] of
    the same turns: a round replaces the message at position 0 and appends
    one user and one assistant turn, and changes nothing else. *)
Theorem history_invariant (config : Config) (n : nat)
  (evs : list event) (st : session) :
  NoDup (map id (cfg_nodes config)) ->
  debate_rounds config n = (evs, Ok st) ->
  exists maps,
    build_neighbor_maps (cfg_nodes config) (cfg_edges config) = Ok maps
    /\ forall node, In node (cfg_nodes config) ->
         exists turns,
           PyDict.get (id node) (histories st)
           = Some (SystemMessage
                     (system_prompt_of (make_plan config maps) node
                        (Z.of_nat (Nat.max 1 n)))
                   :: turns)
           /\ alternates turns
           /\ List.length turns = 2 * n
           /\ forall m, m <= n ->
                exists evs_m st_m,
                  debate_rounds config m = (evs_m, Ok st_m)
                  /\ PyDict.get (id node) (histories st_m)
                     = Some (SystemMessage
                               (system_prompt_of (make_plan config maps) node
                                  (Z.of_nat (Nat.max 1 m)))
                             :: firstn (2 * m) turns).
Proof.
  intros Hnd Hrun. unfold debate_rounds in *.
  apply gbind_lift_ok in Hrun. destruct Hrun as (maps & Hmaps & Hrun).
  exists maps. split; [exact Hmaps|].
  remember (make_plan config maps) as p eqn:Hp.
  assert (Hstart : forall rs evs' st',
             run_rounds p (cfg_nodes config) rs
               (initial_session p (cfg_nodes config)) = (evs', Ok st') ->
             forall node, In node (cfg_nodes config) ->
               exists turns,
                 PyDict.get (id node) (histories st')
                 = Some (last_system p node rs
                           (SystemMessage (system_prompt_of p node 1)) :: turns)
                 /\ alternates turns
                 /\ List.length turns = 2 * List.length rs).
  { intros rs evs' st' Hrs node Hin.
    apply (run_rounds_histories p (cfg_nodes config) Hnd rs _ _ _ Hrs node _ [] Hin).
    cbn [initial_session histories]. apply initial_history; assumption. }
  assert (Hlast : forall k node,
             last_system p node (map Z.of_nat (seq 1 k))
               (SystemMessage (system_prompt_of p node 1))
             = SystemMessage (system_prompt_of p node (Z.of_nat (Nat.max 1 k)))).
  { intros [|k] node; [reflexivity|].
    unfold last_system. rewrite last_round_range.
    replace (Nat.max 1 (S k)) with (S k) by lia.
    destruct (map Z.of_nat (seq 1 (S k))) eqn:E; [discriminate | reflexivity]. }
  intros node Hin.
  destruct (Hstart _ _ _ Hrun node Hin) as (turns & Hget & Halt & Hlen).
  rewrite Hlast in Hget. rewrite length_map, length_seq in Hlen.
  exists turns. split; [exact Hget|]. split; [exact Halt|]. split; [exact Hlen|].
  intros m Hm.
  replace n with (m + (n - m)) in Hrun by lia.
  rewrite seq_app, map_app, run_rounds_app in Hrun.
  apply gbind_ok in Hrun. destruct Hrun as (evs1 & st1 & evs2 & Hfirst & Hsecond & _).
  exists evs1, st1. rewrite Hmaps. unfold lift, gbind. rewrite <- Hp, Hfirst.
  split; [rewrite app_nil_l; reflexivity|].
  destruct (Hstart _ _ _ Hfirst node Hin) as (turns1 & Hget1 & _ & Hlen1).
  rewrite Hlast in Hget1. rewrite length_map, length_seq in Hlen1.
  destruct (run_rounds_histories p (cfg_nodes config) Hnd _ _ _ _ Hsecond
              node _ _ Hin Hget1) as (turns2 & Hget2 & _ & _).
  rewrite Hget in Hget2. injection Hget2 as _ ->.
  rewrite Hget1. rewrite firstn_app, <- Hlen1, firstn_all, Nat.sub_diag.
  cbn [firstn]. rewrite app_nil_r. reflexivity.
Qed.

End DebateFacts.

(** ** A debate run on a sample backend *)

Lemma step_events_witness :
  exists content main_text position comments,
    @parse_summary_json (StdJson no_floats) content ["b"] (labels tea_plan) 1
    = Ok (main_text, position, comments)
    /\ [PositionEvent "a" "tea" 1; MessageEvent "a" "b" "Tea first." "" 1]
       = [PositionEvent "a" position 1;
          MessageEvent "a" "b" main_text (PyDict.get_default "b" "" comments) 1].
Proof.
  destruct (@step_events (StdJson no_floats) TeaBackend tea_plan 1
              (mkNode "a" "Ay" None) tea_start tea_after_step
              [PositionEvent "a" "tea" 1; MessageEvent "a" "b" "Tea first." "" 1])
    as (content & main_text & position & comments & Hparse & _ & _ & Hevs).
  - vm_compute; reflexivity.
  - exists content, main_text, position, comments. split; [exact Hparse | exact Hevs].
Defined.

Lemma history_invariant_witness :
  exists system turns,
    PyDict.get "a" (histories tea_session) = Some (SystemMessage system :: turns)
    /\ List.length turns = 4.
Proof.
  destruct (@history_invariant (StdJson no_floats) TeaBackend tea_config 2
              tea_events tea_session)
    as (maps & _ & Hnodes).
  - repeat constructor; simpl; intuition discriminate.
  - vm_compute; reflexivity.
  - destruct (Hnodes (mkNode "a" "Ay" None)) as (turns & Hget & _ & Hlen & _).
    + simpl; auto.
    + eexists _, turns. split; [exact Hget | exact Hlen].
Defined.

(** The whole debate of the sample: per round and node one position
    event and the message events, then the aggregator's event. *)
Example tea_debate_events :
  fst (@run_debate (StdJson no_floats) TeaBackend tea_config)
  = [PositionEvent "a" "tea" 1; MessageEvent "a" "b" "Tea first." "" 1;
     PositionEvent "b" "tea" 1; MessageEvent "b" "none" "Tea first." "" 1;
     PositionEvent "a" "tea" 2; MessageEvent "a" "b" "Tea first." "" 2;
     PositionEvent "b" "tea" 2; MessageEvent "b" "none" "Tea first." "" 2;
     MessageEvent "aggregator" "all" "" "Both say tea." 2].
Proof. vm_compute; reflexivity. Qed.

(** The reply of the spec's scenario: round 1, no expected neighbors. *)
Example parse_position_only :
  @parse_summary_json (StdJson no_floats)
    (reply "I think X." ("{" ++ quoted "position" ++ ": " ++ quoted "X is good" ++ "}"))
    [] [] 1
  = Ok ("I think X.", "X is good", []).
Proof. vm_compute; reflexivity. Qed.

(** ** Further properties of the parser and the scheduler *)

(** Whenever the parser returns, the comments hold exactly the expected
    neighbors, each with a value. *)
Theorem returned_comments_cover_expected `{JsonLib} (text : string)
  (expected : list string) (labels : dict string string) (round_num : Z)
  (main_text position : string) (comments : dict string string) :
  parse_summary_json text expected labels round_num
  = Ok (main_text, position, comments) ->
  (forall nid, In nid (PyDict.keys comments) <-> In nid expected)
  /\ (forall nid, In nid expected -> exists comment, PyDict.get nid comments = Some comment).
Proof.
  intros Hparse.
  pose proof (parse_returns_expected_keys _ _ _ _ _ _ _ Hparse) as Hkeys.
  split; [exact Hkeys|]. intros nid Hin. apply get_some_in_keys, Hkeys, Hin.
Qed.

Lemma returned_comments_cover_expected_witness :
  exists position comments,
    @parse_summary_json (StdJson no_floats) commented_reply ["b"; "c"]
      [("b", "Bob"); ("c", "Carl")] 2
    = Ok ("Fine.", position, comments)
    /\ (forall nid, In nid (PyDict.keys comments) <-> In nid ["b"; "c"]).
Proof.
  exists "P", [("b", "Agreed."); ("c", "")].
  assert (Hparse : @parse_summary_json (StdJson no_floats) commented_reply ["b"; "c"]
                     [("b", "Bob"); ("c", "Carl")] 2
                   = Ok ("Fine.", "P", [("b", "Agreed."); ("c", "")]))
    by (vm_compute; reflexivity).
  split; [exact Hparse|].
  apply (@returned_comments_cover_expected (StdJson no_floats) _ _ _ _ _ _ _ Hparse).
Defined.

(** The exceptions that leave the parser.  It raises [AttributeError]
    on a decoded envelope that is not an object or, after round 1, whose
    [comments] value is not an object; and it lets through whatever
    [json.loads] raises on the bracketed text that is not a [ValueError]
    (a [JSONDecodeError] is one), such as the [RecursionError] of a text
    nested too deep.  It raises in no other case. *)
Theorem parser_raises_only_on_bad_envelope `{JsonLib} (text : string)
  (expected : list string) (labels : dict string string) (round_num : Z) (e : exn) :
  parse_summary_json text expected labels round_num = Raise e ->
  (e = AttributeError
   /\ exists main_text data,
        envelope text main_text data
        /\ match data with
           | JObject members =>
               (1 < round_num)%Z
               /\ exists v, PyDict.get "comments" members = Some v
                            /\ forall items, v <> JObject items
           | _ => True
           end)
  \/ (e <> ValueError /\ decoder_raises text e).
Proof. apply parse_raises. Qed.

Lemma parser_raises_only_on_bad_envelope_witness :
  exists main_text data,
    @envelope (StdJson no_floats)
      ("SUMMARY_JSON: {" ++ quoted "comments" ++ ": 5}") main_text data.
Proof.
  destruct (@parser_raises_only_on_bad_envelope (StdJson no_floats)
              ("SUMMARY_JSON: {" ++ quoted "comments" ++ ": 5}")
              ["b"] [("b", "Bob")] 2 AttributeError)
    as [(_ & main_text & data & Henv & _)|(_ & ms & me & js & je & Hs & Hf & He & Hl)].
  - reflexivity.
  - exists main_text, data. exact Henv.
  - vm_compute in Hs. injection Hs as <- <-.
    vm_compute in Hf. injection Hf as <-.
    vm_compute in He. injection He as <-.
    vm_compute in Hl. discriminate.
Defined.

(** [re.search] with the marker pattern finds nothing exactly when the
    marker, in any case, stands at no index of the text. *)
Theorem marker_search_fails_iff_absent (text : string) :
  Re.search MARKER_RE text = None <-> forall i, ~ marker_at text i.
Proof. apply search_marker_none. Qed.

(** The reverse lookup of the parser maps a lower-cased label to the id
    of the last node of [labels] that carries it. *)
Theorem reverse_lookup_last_wins (labels : dict string string) (k nid : string) :
  PyDict.get k (label_to_id labels) = Some nid
  <-> exists before label after,
        labels = (before ++ (nid, label) :: after)%list
        /\ Py.lower label = k
        /\ forall item, In item after -> Py.lower (snd item) <> k.
Proof. apply label_to_id_last. Qed.

(** A configuration without nodes yields no event. *)
Theorem no_nodes_no_events `{JsonLib} `{Backend} (edges : list Edge)
  (rounds : option Z) (question : option string) :
  run_debate (mkConfig [] edges rounds question) = ([], Ok tt).
Proof. reflexivity. Qed.

(** A backend call that fails ends the step with no event yielded. *)
Theorem backend_failure_aborts_step `{JsonLib} `{Backend} (p : plan)
  (round_num : Z) (node : Node) (st : session) (system : LLMMessage)
  (turns : list LLMMessage) :
  PyDict.get (id node) (histories st) = Some (system :: turns) ->
  create (id node) (call_history p st round_num node turns) = None ->
  debate_step p round_num node st = ([], Raise BackendError).
Proof.
  intros Hhist Hcall. unfold debate_step, getitem. rewrite Hhist.
  unfold lift, gbind, set_first. cbn [append_item app].
  unfold call_history, system_prompt_of in Hcall. rewrite Hcall.
  reflexivity.
Qed.

Lemma backend_failure_aborts_step_witness :
  @debate_step (StdJson no_floats) SilentBackend tea_plan 1 (mkNode "a" "Ay" None) tea_start
  = ([], Raise BackendError).
Proof.
  apply (@backend_failure_aborts_step (StdJson no_floats) SilentBackend tea_plan 1
           (mkNode "a" "Ay" None) tea_start (SystemMessage "Debate.") []);
    reflexivity.
Defined.


(** The chain of the spec's scenario: in round 2 the prompt of B carries
    the round-1 main text of A, the prompt of C the one of B, and A, which
    has no incoming neighbor, gets the template without solutions. *)
Example chain_round_two_prompts :
  chain_round_two_prompt "b"
  = Some ("These are the solutions to the problem from other agents:" ++ Py.NL
          ++ "One agent solution: A: Answer of a to 2 messages." ++ Py.NL ++ Py.NL
          ++ "Using the solutions from other agents as additional information," ++ Py.NL
          ++ "can you provide your answer to the problem?" ++ Py.NL
          ++ "The original problem is Tea or milk first?" ++ Py.NL)
  /\ chain_round_two_prompt "c"
     = Some ("These are the solutions to the problem from other agents:" ++ Py.NL
             ++ "One agent solution: B: Answer of b to 2 messages." ++ Py.NL ++ Py.NL
             ++ "Using the solutions from other agents as additional information," ++ Py.NL
             ++ "can you provide your answer to the problem?" ++ Py.NL
             ++ "The original problem is Tea or milk first?" ++ Py.NL)
  /\ chain_round_two_prompt "a"
     = Some ("There are no solutions from other agents yet." ++ Py.NL
             ++ "Can you provide your answer to the problem?" ++ Py.NL
             ++ "The original problem is Tea or milk first?" ++ Py.NL).
Proof. repeat split; vm_compute; reflexivity. Qed.

(** ** The resolver as a relation *)

Section RelationFacts.
Variable nodes : list Node.
Local Abbreviation ids := (map id nodes).

Lemma neighbor_of_set (m : neighbor_map) k l x y :
  neighbor_of (PyDict.set k l m) x y
  <-> (x = k /\ In y l) \/ (x <> k /\ neighbor_of m x y).
Proof.
  unfold neighbor_of. destruct (string_dec k x) as [<-|Hne].
  - rewrite get_set_same. split.
    + intros (l' & [= <-] & Hin). auto.
    + intros [[_ Hin]|[Hne _]]; [eauto | congruence].
  - rewrite get_set_other by exact Hne. split.
    + intros Hn. right. split; [congruence | exact Hn].
    + intros [[Heq _]|[_ Hn]]; [congruence | exact Hn].
Qed.

(** [add_edge] adds the pair [(sender, receiver)] to both maps when both
    are node ids, and nothing else. *)
Lemma add_edge_relation sender receiver (out inc : neighbor_map) :
  neighbors_ok ids out -> neighbors_ok ids inc ->
  exists out' inc',
    add_edge sender receiver (out, inc) = Ok (out', inc')
    /\ neighbors_ok ids out' /\ neighbors_ok ids inc'
    /\ (forall x y, neighbor_of out' x y
                    <-> neighbor_of out x y
                        \/ (In sender ids /\ In receiver ids
                            /\ x = sender /\ y = receiver))
    /\ (forall x y, neighbor_of inc' y x
                    <-> neighbor_of inc y x
                        \/ (In sender ids /\ In receiver ids
                            /\ x = sender /\ y = receiver)).
Proof.
  intros Hout Hinc.
  destruct (in_dec string_dec sender ids) as [Hs|Hs];
    [destruct (in_dec string_dec receiver ids) as [Hr|Hr]|].
  - assert (Hls : exists ls, PyDict.get sender out = Some ls)
      by (apply get_some_in_keys, Hout, Hs).
    assert (Hlr : exists lr, PyDict.get receiver inc = Some lr)
      by (apply get_some_in_keys, Hinc, Hr).
    destruct Hls as [ls Hls]. destruct Hlr as [lr Hlr].
    rewrite (add_edge_known ids out inc sender receiver ls lr Hout Hs Hr Hls Hlr).
    do 2 eexists. split; [reflexivity|].
    split; [|split; [|split]].
    + destruct (Py.mem receiver ls) eqn:E; cbn [negb]; [exact Hout|].
      apply neighbors_ok_append_item; auto. apply mem_false_iff, E.
    + destruct (Py.mem sender lr) eqn:E; cbn [negb]; [exact Hinc|].
      apply neighbors_ok_append_item; auto. apply mem_false_iff, E.
    + intros x y. destruct (Py.mem receiver ls) eqn:E; cbn [negb].
      * apply mem_true_iff in E. split; [auto|].
        intros [Hn|(_ & _ & -> & ->)]; [exact Hn|]. exists ls. auto.
      * rewrite neighbor_of_set. split.
        -- intros [[-> Hin]|[_ Hn]]; [|auto].
           apply in_append_item in Hin. destruct Hin as [Hin| ->]; [|auto 6].
           left. exists ls. auto.
        -- intros [Hn|(_ & _ & -> & ->)].
           ++ destruct (string_dec x sender) as [->|Hne]; [|auto].
              left. split; [reflexivity|]. destruct Hn as (l & Hl & Hin).
              rewrite Hls in Hl. injection Hl as <-.
              apply in_append_item. auto.
           ++ left. split; [reflexivity|]. apply in_append_item. auto.
    + intros x y. destruct (Py.mem sender lr) eqn:E; cbn [negb].
      * apply mem_true_iff in E. split; [auto|].
        intros [Hn|(_ & _ & -> & ->)]; [exact Hn|]. exists lr. auto.
      * rewrite neighbor_of_set. split.
        -- intros [[-> Hin]|[_ Hn]]; [|auto].
           apply in_append_item in Hin. destruct Hin as [Hin| ->]; [|auto 6].
           left. exists lr. auto.
        -- intros [Hn|(_ & _ & -> & ->)].
           ++ destruct (string_dec y receiver) as [->|Hne]; [|auto].
              left. split; [reflexivity|]. destruct Hn as (l & Hl & Hin).
              rewrite Hlr in Hl. injection Hl as <-.
              apply in_append_item. auto.
           ++ left. split; [reflexivity|]. apply in_append_item. auto.
  - exists out, inc. split.
    { unfold add_edge.
      rewrite (proj2 (has_false_iff receiver out)) by (intros Hk; apply Hr, Hout, Hk).
      cbn [negb]. rewrite orb_true_r. reflexivity. }
    split; [exact Hout|]. split; [exact Hinc|]. split; intros x y; tauto.
  - exists out, inc. split.
    { unfold add_edge.
      rewrite (proj2 (has_false_iff sender out)) by (intros Hk; apply Hs, Hout, Hk).
      reflexivity. }
    split; [exact Hout|]. split; [exact Hinc|]. split; intros x y; tauto.
Qed.

End RelationFacts.

Lemma truthy_true_nonempty s : Py.truthy s = true <-> s <> "".
Proof. destruct s; simpl; split; congruence. Qed.

Lemma links_endpoints e f t x y :
  from_id e = Some f -> to_id e = Some t -> f <> "" -> t <> "" ->
  (links e x y
   <-> (direction_of e = "a_to_b" /\ x = f /\ y = t)
       \/ (direction_of e = "b_to_a" /\ x = t /\ y = f)
       \/ (direction_of e = "bidirectional"
           /\ ((x = f /\ y = t) \/ (x = t /\ y = f)))).
Proof.
  intros Hf Ht Hfe Hte. unfold links. split.
  - intros (f' & t' & Hf' & Ht' & _ & _ & Hcases).
    rewrite Hf in Hf'. rewrite Ht in Ht'.
    injection Hf' as <-. injection Ht' as <-. exact Hcases.
  - intros Hcases. exists f, t. auto.
Qed.

Lemma links_needs_endpoints e x y :
  falsy (from_id e) = true \/ falsy (to_id e) = true -> ~ links e x y.
Proof.
  intros Hfalsy (f & t & Hf & Ht & Hfe & Hte & _).
  rewrite Hf, Ht in Hfalsy. cbn [falsy] in Hfalsy.
  rewrite (truthy_nonempty f Hfe), (truthy_nonempty t Hte) in Hfalsy.
  destruct Hfalsy; discriminate.
Qed.

Section EdgeRelationFacts.
Variable nodes : list Node.
Local Abbreviation ids := (map id nodes).

(** One edge adds its links between known nodes to both maps, and
    nothing else. *)
Lemma process_edge_relation e (out inc : neighbor_map) :
  neighbors_ok ids out -> neighbors_ok ids inc ->
  exists out' inc',
    process_edge e (out, inc) = Ok (out', inc')
    /\ neighbors_ok ids out' /\ neighbors_ok ids inc'
    /\ (forall x y, neighbor_of out' x y
                    <-> neighbor_of out x y
                        \/ (In x ids /\ In y ids /\ links e x y))
    /\ (forall x y, neighbor_of inc' y x
                    <-> neighbor_of inc y x
                        \/ (In x ids /\ In y ids /\ links e x y)).
Proof.
  intros Hout Hinc.
  assert (Hnothing : (forall x y, ~ links e x y) ->
            exists out' inc',
              Ok (out, inc) = Ok (out', inc')
              /\ neighbors_ok ids out' /\ neighbors_ok ids inc'
              /\ (forall x y, neighbor_of out' x y
                              <-> neighbor_of out x y
                                  \/ (In x ids /\ In y ids /\ links e x y))
              /\ (forall x y, neighbor_of inc' y x
                              <-> neighbor_of inc y x
                                  \/ (In x ids /\ In y ids /\ links e x y))).
  { intros Hno. exists out, inc. split; [reflexivity|].
    split; [exact Hout|]. split; [exact Hinc|].
    split; intros x y; specialize (Hno x y); tauto. }
  unfold process_edge. fold (direction_of e).
  destruct (falsy (from_id e)) eqn:Ef; cbn [orb].
  { apply Hnothing. intros x y. apply links_needs_endpoints. auto. }
  destruct (falsy (to_id e)) eqn:Et; cbn [orb].
  { apply Hnothing. intros x y. apply links_needs_endpoints. auto. }
  destruct (from_id e) as [f|] eqn:Hf; [|discriminate].
  destruct (to_id e) as [t|] eqn:Ht; [|discriminate].
  cbn [falsy] in Ef, Et. apply negb_false_iff in Ef, Et.
  apply truthy_true_nonempty in Ef, Et.
  pose proof (fun x y => links_endpoints e f t x y Hf Ht Ef Et) as Hlinks.
  destruct (String.eqb_spec (direction_of e) "a_to_b") as [Hd|Hd1].
  { destruct (add_edge_relation nodes f t out inc Hout Hinc)
      as (o & i & -> & Ho & Hi & Hro & Hri).
    exists o, i. split; [reflexivity|]. split; [exact Ho|]. split; [exact Hi|].
    split; intros x y; [rewrite Hro | rewrite Hri]; rewrite Hlinks, Hd;
      split; (intros [Hn|Hnew]; [auto|]); right.
    - destruct Hnew as (Hf' & Ht' & -> & ->). auto 8.
    - destruct Hnew as (Hx & Hy & [(_ & -> & ->)|[(Hbad & _)|(Hbad & _)]]);
        [auto | discriminate | discriminate].
    - destruct Hnew as (Hf' & Ht' & -> & ->). auto 8.
    - destruct Hnew as (Hx & Hy & [(_ & -> & ->)|[(Hbad & _)|(Hbad & _)]]);
        [auto | discriminate | discriminate]. }
  destruct (String.eqb_spec (direction_of e) "b_to_a") as [Hd|Hd2].
  { destruct (add_edge_relation nodes t f out inc Hout Hinc)
      as (o & i & -> & Ho & Hi & Hro & Hri).
    exists o, i. split; [reflexivity|]. split; [exact Ho|]. split; [exact Hi|].
    split; intros x y; [rewrite Hro | rewrite Hri]; rewrite Hlinks, Hd;
      split; (intros [Hn|Hnew]; [auto|]); right.
    - destruct Hnew as (Hf' & Ht' & -> & ->). auto 8.
    - destruct Hnew as (Hx & Hy & [(Hbad & _)|[(_ & -> & ->)|(Hbad & _)]]);
        [discriminate | auto | discriminate].
    - destruct Hnew as (Hf' & Ht' & -> & ->). auto 8.
    - destruct Hnew as (Hx & Hy & [(Hbad & _)|[(_ & -> & ->)|(Hbad & _)]]);
        [discriminate | auto | discriminate]. }
  destruct (String.eqb_spec (direction_of e) "bidirectional") as [Hd|Hd3].
  { destruct (add_edge_relation nodes f t out inc Hout Hinc)
      as (o1 & i1 & -> & Ho1 & Hi1 & Hro1 & Hri1).
    cbn [rbind].
    destruct (add_edge_relation nodes t f o1 i1 Ho1 Hi1)
      as (o & i & -> & Ho & Hi & Hro & Hri).
    exists o, i. split; [reflexivity|]. split; [exact Ho|]. split; [exact Hi|].
    split; intros x y; [rewrite Hro, Hro1 | rewrite Hri, Hri1];
      rewrite Hlinks, Hd; split.
    - intros [[Hn|Hnew]|Hnew]; [auto| |]; right;
        destruct Hnew as (Hf' & Ht' & -> & ->); auto 10.
    - intros [Hn|(Hx & Hy & [(Hbad & _)|[(Hbad & _)|(_ & [(-> & ->)|(-> & ->)])]])];
        [auto | discriminate | discriminate | auto 8 | auto 8].
    - intros [[Hn|Hnew]|Hnew]; [auto| |]; right;
        destruct Hnew as (Hf' & Ht' & -> & ->); auto 10.
    - intros [Hn|(Hx & Hy & [(Hbad & _)|[(Hbad & _)|(_ & [(-> & ->)|(-> & ->)])]])];
        [auto | discriminate | discriminate | auto 8 | auto 8]. }
  apply Hnothing. intros x y Hl. apply Hlinks in Hl.
  destruct Hl as [(Hd & _)|[(Hd & _)|(Hd & _)]]; contradiction.
Qed.

(** The edges of a list add their links to what the maps held. *)
Lemma process_edges_relation edges :
  forall (out inc : neighbor_map) done,
    neighbors_ok ids out -> neighbors_ok ids inc ->
    holds_links ids done out inc ->
    exists out' inc',
      process_edges edges (out, inc) = Ok (out', inc')
      /\ neighbors_ok ids out' /\ neighbors_ok ids inc'
      /\ holds_links ids (done ++ edges) out' inc'.
Proof.
  induction edges as [|e rest IH]; intros out inc done Hout Hinc Hheld.
  - exists out, inc. rewrite app_nil_r. auto.
  - cbn [process_edges].
    destruct (process_edge_relation e out inc Hout Hinc)
      as (o1 & i1 & -> & Ho1 & Hi1 & Hro & Hri).
    cbn [rbind].
    destruct (IH o1 i1 (done ++ [e])%list Ho1 Hi1) as (o & i & Hrun & Ho & Hi & Hfinal).
    + destruct Hheld as [Hheld_out Hheld_inc]. split; intros x y.
      * rewrite Hro, Hheld_out. split.
        -- intros [(Hx & Hy & e' & Hin & Hl)|(Hx & Hy & Hl)];
             (split; [exact Hx|]; split; [exact Hy|]).
           ++ exists e'. rewrite in_app_iff. auto.
           ++ exists e. rewrite in_app_iff. simpl. auto.
        -- intros (Hx & Hy & e' & Hin & Hl). apply in_app_iff in Hin.
           destruct Hin as [Hin|[<-|[]]]; [left; eauto 6 | right; auto].
      * rewrite Hri, Hheld_inc. split.
        -- intros [(Hx & Hy & e' & Hin & Hl)|(Hx & Hy & Hl)];
             (split; [exact Hx|]; split; [exact Hy|]).
           ++ exists e'. rewrite in_app_iff. auto.
           ++ exists e. rewrite in_app_iff. simpl. auto.
        -- intros (Hx & Hy & e' & Hin & Hl). apply in_app_iff in Hin.
           destruct Hin as [Hin|[<-|[]]]; [left; eauto 6 | right; auto].
    + exists o, i. rewrite <- app_assoc in Hfinal. auto.
Qed.

Lemma empty_holds_no_links :
  holds_links ids [] (empty_neighbors nodes) (empty_neighbors nodes).
Proof.
  assert (Hnone : forall x y, ~ neighbor_of (empty_neighbors nodes) x y).
  { intros x y (l & Hl & Hin).
    assert (Hx : In x ids).
    { apply (proj1 (proj2 (empty_neighbors_ok nodes))), get_some_in_keys. eauto. }
    rewrite (get_empty_neighbors nodes x Hx) in Hl. injection Hl as <-. exact Hin. }
  split; intros x y; (split; [intros Hn; destruct (Hnone _ _ Hn)|]);
    intros (_ & _ & e & [] & _).
Qed.

End EdgeRelationFacts.

(** The resolver computes the relation of the edge list: [y] is in
    [outgoing[x]] exactly when both are node ids and some edge links [x]
    to [y] (an [a_to_b] edge from [x] to [y], a [b_to_a] edge from [y] to
    [x], or a [bidirectional] or undirected one between them, with
    non-empty endpoints); [incoming] is the converse relation. *)
Theorem neighbor_maps_are_the_edge_relation (nodes : list Node) (edges : list Edge) :
  exists outgoing incoming,
    build_neighbor_maps nodes edges = Ok (outgoing, incoming)
    /\ (forall x y,
          neighbor_of outgoing x y
          <-> In x (map id nodes) /\ In y (map id nodes)
              /\ exists e, In e edges /\ links e x y)
    /\ (forall x y, neighbor_of incoming y x <-> neighbor_of outgoing x y).
Proof.
  destruct (process_edges_relation nodes edges _ _ []
              (empty_neighbors_ok nodes) (empty_neighbors_ok nodes)
              (empty_holds_no_links nodes))
    as (out & inc & Hrun & _ & _ & Hout & Hinc).
  exists out, inc. split; [exact Hrun|]. split; [exact Hout|].
  intros x y. rewrite Hinc, Hout. tauto.
Qed.

Section RepeatedEdgeFacts.
Variable nodes : list Node.
Local Abbreviation ids := (map id nodes).

Lemma add_edge_present sender receiver (out inc : neighbor_map) :
  neighbors_ok ids out -> neighbors_ok ids inc ->
  (In sender ids -> In receiver ids ->
   neighbor_of out sender receiver /\ neighbor_of inc receiver sender) ->
  add_edge sender receiver (out, inc) = Ok (out, inc).
Proof.
  intros Hout Hinc Hpresent.
  destruct (in_dec string_dec sender ids) as [Hs|Hs];
    [destruct (in_dec string_dec receiver ids) as [Hr|Hr]|].
  - destruct (Hpresent Hs Hr) as [(ls & Hls & Hin1) (lr & Hlr & Hin2)].
    rewrite (add_edge_known ids out inc sender receiver ls lr Hout Hs Hr Hls Hlr).
    rewrite (proj2 (mem_true_iff receiver ls) Hin1).
    rewrite (proj2 (mem_true_iff sender lr) Hin2). reflexivity.
  - unfold add_edge.
    rewrite (proj2 (has_false_iff receiver out)) by (intros Hk; apply Hr, Hout, Hk).
    cbn [negb]. rewrite orb_true_r. reflexivity.
  - unfold add_edge.
    rewrite (proj2 (has_false_iff sender out)) by (intros Hk; apply Hs, Hout, Hk).
    reflexivity.
Qed.

(** An edge whose links the maps already hold changes nothing. *)
Lemma process_edge_present e (out inc : neighbor_map) :
  neighbors_ok ids out -> neighbors_ok ids inc ->
  (forall x y, In x ids -> In y ids -> links e x y ->
               neighbor_of out x y /\ neighbor_of inc y x) ->
  process_edge e (out, inc) = Ok (out, inc).
Proof.
  intros Hout Hinc Hpresent. unfold process_edge. fold (direction_of e).
  destruct (falsy (from_id e)) eqn:Ef; cbn [orb]; [reflexivity|].
  destruct (falsy (to_id e)) eqn:Et; cbn [orb]; [reflexivity|].
  destruct (from_id e) as [f|] eqn:Hf; [|discriminate].
  destruct (to_id e) as [t|] eqn:Ht; [|discriminate].
  cbn [falsy] in Ef, Et. apply negb_false_iff in Ef, Et.
  apply truthy_true_nonempty in Ef, Et.
  pose proof (fun x y => links_endpoints e f t x y Hf Ht Ef Et) as Hlinks.
  destruct (String.eqb_spec (direction_of e) "a_to_b") as [Hd|Hd1].
  { apply add_edge_present; try assumption. intros Hx Hy.
    apply Hpresent; try assumption. apply Hlinks. auto. }
  destruct (String.eqb_spec (direction_of e) "b_to_a") as [Hd|Hd2].
  { apply add_edge_present; try assumption. intros Hx Hy.
    apply Hpresent; try assumption. apply Hlinks. auto. }
  destruct (String.eqb_spec (direction_of e) "bidirectional") as [Hd|Hd3];
    [|reflexivity].
  rewrite add_edge_present; try assumption.
  - cbn [rbind]. apply add_edge_present; try assumption. intros Hx Hy.
    apply Hpresent; try assumption. apply Hlinks. auto 6.
  - intros Hx Hy. apply Hpresent; try assumption. apply Hlinks. auto 6.
Qed.

End RepeatedEdgeFacts.

(** Parallel edges collapse: an edge that repeats an earlier edge of the
    list changes nothing, so the maps are those of the list without the
    repetition. *)
Theorem repeated_edge_changes_nothing (nodes : list Node)
  (es1 es2 es3 : list Edge) (e : Edge) :
  build_neighbor_maps nodes (es1 ++ e :: es2 ++ e :: es3)
  = build_neighbor_maps nodes (es1 ++ e :: es2 ++ es3).
Proof.
  unfold build_neighbor_maps.
  replace (es1 ++ e :: es2 ++ e :: es3)%list
    with ((es1 ++ e :: es2) ++ e :: es3)%list
    by (rewrite <- app_assoc; reflexivity).
  replace (es1 ++ e :: es2 ++ es3)%list with ((es1 ++ e :: es2) ++ es3)%list
    by (rewrite <- app_assoc; reflexivity).
  rewrite (process_edges_app (es1 ++ e :: es2) (e :: es3)).
  rewrite (process_edges_app (es1 ++ e :: es2) es3).
  destruct (process_edges_relation nodes (es1 ++ e :: es2) _ _ []
              (empty_neighbors_ok nodes) (empty_neighbors_ok nodes)
              (empty_holds_no_links nodes))
    as (out & inc & -> & Hout & Hinc & Hrel_out & Hrel_inc).
  cbn [rbind process_edges].
  rewrite (process_edge_present nodes e out inc Hout Hinc); [reflexivity|].
  intros x y Hx Hy Hl. split; [apply Hrel_out | apply Hrel_inc];
    (split; [exact Hx|]; split; [exact Hy|]); exists e;
    (split; [|exact Hl]); cbn [app]; rewrite in_app_iff; simpl; auto.
Qed.

(** ** The schedule of the round loop *)

Section ScheduleFacts.
Context `{JsonLib} `{Backend}.

Lemma gbind_raise {A B} (m : Gen A) (f : A -> Gen B) evs e :
  gbind m f = (evs, Raise e) ->
  m = (evs, Raise e)
  \/ exists evs1 a evs2,
       m = (evs1, Ok a) /\ f a = (evs2, Raise e) /\ evs = (evs1 ++ evs2)%list.
Proof.
  unfold gbind. destruct m as [evs1 [a|e1]].
  - destruct (f a) as [evs2 r] eqn:E. intros [= <- ->]. right. eauto 6.
  - intros [= <- <-]. auto.
Qed.

(** A step that raises has yielded nothing: everything that can raise
    comes before the first [yield]. *)
Lemma debate_step_raised p round_num node st evs e :
  debate_step p round_num node st = (evs, Raise e) -> evs = [].
Proof.
  unfold debate_step, lift, gbind.
  destruct (getitem (histories st) (id node)) as [history|]; [|intros [= <- _]; reflexivity].
  destruct (set_first history _) as [history1|]; [|intros [= <- _]; reflexivity].
  destruct (call _) as [content|]; [|intros [= <- _]; reflexivity].
  destruct (parse_summary_json _ _ _ _) as [[[main_text position] comments]|];
    [|intros [= <- _]; reflexivity].
  destruct (getitem (responses_by_round st) round_num) as [round_table|];
    [|intros [= <- _]; reflexivity].
  rewrite yield_all_events. unfold yield, gret. discriminate.
Qed.

Lemma message_events_length node_id recipients main_text comments round_num :
  List.length (message_events node_id recipients main_text comments round_num)
  = match recipients with [] => 1 | _ => List.length recipients end.
Proof.
  unfold message_events. destruct recipients; [reflexivity | apply length_map].
Qed.

Lemma message_events_no_position node_id recipients main_text comments round_num :
  position_keys (message_events node_id recipients main_text comments round_num) = [].
Proof.
  unfold message_events, position_keys. destruct recipients as [|r rest]; [reflexivity|].
  induction (r :: rest) as [|x xs IH]; [reflexivity | exact IH].
Qed.

Lemma debate_step_shape p round_num node st evs st' :
  debate_step p round_num node st = (evs, Ok st') ->
  position_keys evs = [(id node, round_num)]
  /\ List.length evs = step_size p node.
Proof.
  intros Hstep. apply debate_step_completed in Hstep.
  destruct Hstep as (system & turns & content & main_text & position & comments
                     & round_table & _ & _ & _ & _ & _ & ->).
  split.
  - unfold position_keys. cbn [flat_map position_key app].
    fold (position_keys
            (message_events (id node) (PyDict.get_default (id node) [] (outgoing p))
               main_text comments round_num)).
    rewrite message_events_no_position. reflexivity.
  - cbn [List.length]. rewrite message_events_length. unfold step_size.
    destruct (PyDict.get_default (id node) [] (outgoing p)); reflexivity.
Qed.

Lemma position_keys_app evs1 evs2 :
  position_keys (evs1 ++ evs2) = (position_keys evs1 ++ position_keys evs2)%list.
Proof. unfold position_keys. apply flat_map_app. Qed.

(** One pass over the nodes, whatever its outcome: the position events
    yielded follow the node list from its start; all of it when the pass
    completes. *)
Lemma run_nodes_shape p round_num nodes :
  forall st evs outcome,
    run_nodes p round_num nodes st = (evs, outcome) ->
    exists done rest,
      nodes = (done ++ rest)%list
      /\ position_keys evs = map (fun node => (id node, round_num)) done
      /\ List.length evs = list_sum (map (step_size p) done)
      /\ match outcome with Ok _ => rest = [] | Raise _ => rest <> [] end.
Proof.
  induction nodes as [|node more IH]; intros st evs outcome Hrun.
  - injection Hrun as <- <-. exists [], []. auto.
  - cbn [run_nodes] in Hrun. destruct outcome as [st'|e].
    + apply gbind_ok in Hrun. destruct Hrun as (evs1 & st1 & evs2 & Hstep & Hmore & ->).
      destruct (IH _ _ _ Hmore) as (done & rest & -> & Hkeys & Hlen & ->).
      apply debate_step_shape in Hstep. destruct Hstep as [Hk1 Hl1].
      exists (node :: done), []. rewrite app_nil_r. repeat split.
      * rewrite app_nil_r. reflexivity.
      * rewrite position_keys_app, Hk1, Hkeys. reflexivity.
      * rewrite length_app, Hl1, Hlen. reflexivity.
    + apply gbind_raise in Hrun.
      destruct Hrun as [Hstep|(evs1 & st1 & evs2 & Hstep & Hmore & ->)].
      * apply debate_step_raised in Hstep. subst evs.
        exists [], (node :: more). repeat split. discriminate.
      * destruct (IH _ _ _ Hmore) as (done & rest & -> & Hkeys & Hlen & Hrest).
        apply debate_step_shape in Hstep. destruct Hstep as [Hk1 Hl1].
        exists (node :: done), rest. repeat split.
        -- rewrite position_keys_app, Hk1, Hkeys. reflexivity.
        -- rewrite length_app, Hl1, Hlen. reflexivity.
        -- exact Hrest.
Qed.

Lemma schedule_cons nodes round_num round_nums :
  schedule nodes (round_num :: round_nums)
  = (map (fun node => (id node, round_num)) nodes ++ schedule nodes round_nums)%list.
Proof. reflexivity. Qed.

End ScheduleFacts.

Lemma run_rounds_schedule `{JsonLib} `{Backend} (p : plan)
  (nodes : list Node) (round_nums : list Z) (st st' : session) (evs : list event) :
  run_rounds p nodes round_nums st = (evs, Ok st') ->
  position_keys evs = schedule nodes round_nums
  /\ List.length evs = List.length round_nums * list_sum (map (step_size p) nodes).
Proof.
  revert st evs. induction round_nums as [|r rest IH]; intros st evs Hrun.
  - injection Hrun as <- _. auto.
  - cbn [run_rounds] in Hrun. apply gbind_ok in Hrun.
    destruct Hrun as (evs1 & st1 & evs2 & Hround & Hrest & ->).
    unfold run_round in Hround. apply run_nodes_shape in Hround.
    destruct Hround as (done & rest' & Hnodes & Hkeys & Hlen & ->).
    rewrite app_nil_r in Hnodes. subst done.
    destruct (IH _ _ Hrest) as [Hk2 Hl2]. split.
    + rewrite position_keys_app, Hkeys, Hk2. reflexivity.
    + rewrite length_app, Hlen, Hl2. cbn [List.length]. lia.
Qed.

(** The rounds that complete visit the nodes in declaration order, round
    after round: the position events are exactly one per (round, node) in
    that order, and the number of events is the sum of the step sizes (a
    position event and one message per outgoing neighbor, or one to
    ["none"]) over the nodes, times the number of rounds. *)
Theorem completed_rounds_follow_schedule `{JsonLib} `{Backend} (p : plan)
  (nodes : list Node) (round_nums : list Z) (st st' : session) (evs : list event) :
  run_rounds p nodes round_nums st = (evs, Ok st') ->
  position_keys evs = schedule nodes round_nums
  /\ List.length evs = List.length round_nums * list_sum (map (step_size p) nodes).
Proof. apply run_rounds_schedule. Qed.

Lemma run_rounds_failure_prefix `{JsonLib} `{Backend} (p : plan)
  (nodes : list Node) (round_nums : list Z) (st : session) (evs : list event)
  (e : exn) :
  run_rounds p nodes round_nums st = (evs, Raise e) ->
  exists missed,
    missed <> []
    /\ schedule nodes round_nums = (position_keys evs ++ missed)%list.
Proof.
  revert st evs. induction round_nums as [|r rest IH]; intros st evs Hrun.
  - discriminate.
  - cbn [run_rounds] in Hrun. apply gbind_raise in Hrun.
    destruct Hrun as [Hround|(evs1 & st1 & evs2 & Hround & Hrest & ->)].
    + unfold run_round in Hround. apply run_nodes_shape in Hround.
      destruct Hround as (done & rest' & -> & Hkeys & _ & Hne).
      exists (map (fun node => (id node, r)) rest' ++ schedule (done ++ rest') rest)%list.
      split.
      * destruct rest'; [congruence | discriminate].
      * rewrite schedule_cons, Hkeys, map_app, <- app_assoc. reflexivity.
    + unfold run_round in Hround. apply run_nodes_shape in Hround.
      destruct Hround as (done & rest' & Hnodes & Hkeys & _ & ->).
      rewrite app_nil_r in Hnodes. subst done.
      destruct (IH _ _ Hrest) as (missed & Hne & Hsched).
      exists missed. split; [exact Hne|].
      rewrite schedule_cons, position_keys_app, Hkeys, Hsched, <- app_assoc.
      reflexivity.
Qed.

(** A run that fails has yielded the events of the steps completed
    before the failure and nothing of the failing step: its position
    events are a proper prefix of the schedule. *)
Theorem failed_rounds_stop_in_schedule `{JsonLib} `{Backend} (p : plan)
  (nodes : list Node) (round_nums : list Z) (st : session) (evs : list event)
  (e : exn) :
  run_rounds p nodes round_nums st = (evs, Raise e) ->
  exists missed,
    missed <> []
    /\ schedule nodes round_nums = (position_keys evs ++ missed)%list.
Proof. apply run_rounds_failure_prefix. Qed.

(** ** What a round stores and what the next round reads *)

Lemma build_user_prompt_ext question labels incoming
  (responses1 responses2 : dict Z (dict string string)) rounds node_id round_num :
  PyDict.get (round_num - 1)%Z responses1 = PyDict.get (round_num - 1)%Z responses2 ->
  build_user_prompt question labels incoming responses1 rounds node_id round_num
  = build_user_prompt question labels incoming responses2 rounds node_id round_num.
Proof.
  intros Hget. unfold build_user_prompt.
  destruct (round_num =? 1)%Z; [reflexivity|].
  unfold PyDict.get_default, PyDict.dict in *. rewrite Hget. reflexivity.
Qed.

Section RecordFacts.
Context `{JsonLib} `{Backend}.

Lemma call_history_ext p st1 st2 round_num node turns :
  PyDict.get (round_num - 1)%Z (responses_by_round st1)
  = PyDict.get (round_num - 1)%Z (responses_by_round st2) ->
  call_history p st1 round_num node turns = call_history p st2 round_num node turns.
Proof.
  intros Hget. unfold call_history.
  rewrite (build_user_prompt_ext _ _ _ _ _ _ _ _ Hget). reflexivity.
Qed.

(** One pass over the nodes, with distinct ids: every node's backend is
    called with the history built from the tables as they were before the
    pass, its reply is appended as the assistant turn, and the main text
    parsed from it is stored under the round; nothing else is stored. *)
Lemma run_nodes_records p round_num nodes :
  NoDup (map id nodes) ->
  forall st evs st',
    run_nodes p round_num nodes st = (evs, Ok st') ->
    (forall r, r <> round_num ->
       PyDict.get r (responses_by_round st') = PyDict.get r (responses_by_round st))
    /\ (forall k, ~ In k (map id nodes) ->
          stored_text st' round_num k = stored_text st round_num k)
    /\ (forall node, In node nodes ->
          exists system turns content main_text position comments,
            PyDict.get (id node) (histories st) = Some (system :: turns)
            /\ create (id node) (call_history p st round_num node turns) = Some content
            /\ parse_summary_json content
                 (PyDict.get_default (id node) [] (outgoing p)) (labels p) round_num
               = Ok (main_text, position, comments)
            /\ PyDict.get (id node) (histories st')
               = Some (call_history p st round_num node turns
                       ++ [AssistantMessage content
                             (PyDict.get_default (id node) (id node) (labels p))])%list
            /\ stored_text st' round_num (id node) = Some main_text).
Proof.
  induction nodes as [|node rest IH]; intros Hnd st evs st' Hrun.
  - injection Hrun as _ <-. repeat split; auto. intros ? [].
  - cbn [run_nodes] in Hrun. apply gbind_ok in Hrun.
    destruct Hrun as (evs1 & st1 & evs2 & Hstep & Hrest & _).
    cbn [map] in Hnd. apply NoDup_cons_iff in Hnd. destruct Hnd as [Hfresh Hnd].
    destruct (IH Hnd st1 evs2 st' Hrest) as (Hrounds & Hothers & Hnodes).
    apply debate_step_completed in Hstep.
    destruct Hstep as (system & turns & content & main_text & position & comments
                       & round_table & Hhist & Hcall & Hparse & Htable & Hst1 & _).
    assert (Hr1 : forall r, r <> round_num ->
                    PyDict.get r (responses_by_round st1)
                    = PyDict.get r (responses_by_round st)).
    { intros r Hr. rewrite Hst1. cbn [responses_by_round].
      apply get_set_other. congruence. }
    assert (Hh1 : forall k, k <> id node ->
                    PyDict.get k (histories st1) = PyDict.get k (histories st)).
    { intros k Hk. rewrite Hst1. cbn [histories].
      apply get_set_other. congruence. }
    assert (Hs1 : forall k, k <> id node ->
                    stored_text st1 round_num k = stored_text st round_num k).
    { intros k Hk. unfold stored_text. rewrite Hst1. cbn [responses_by_round].
      rewrite get_set_same, Htable. apply get_set_other. congruence. }
    assert (Hcalls : forall n t, call_history p st1 round_num n t
                                 = call_history p st round_num n t).
    { intros n t. apply call_history_ext, Hr1. lia. }
    split; [|split].
    + intros r Hr. rewrite Hrounds by exact Hr. apply Hr1, Hr.
    + intros k Hk. cbn [map In] in Hk. rewrite Hothers by tauto.
      apply Hs1. intros ->. tauto.
    + intros node' [<-|Hin].
      * exists system, turns, content, main_text, position, comments.
        split; [exact Hhist|]. split; [exact Hcall|]. split; [exact Hparse|]. split.
        -- destruct (run_nodes_histories p round_num rest Hnd st1 evs2 st' Hrest)
             as [Hkeep _].
           rewrite Hkeep by exact Hfresh. rewrite Hst1. cbn [histories].
           apply get_set_same.
        -- rewrite Hothers by exact Hfresh. unfold stored_text.
           rewrite Hst1. cbn [responses_by_round].
           rewrite get_set_same. apply get_set_same.
      * destruct (Hnodes node' Hin)
          as (s' & t' & c' & m' & po' & co' & Hb & Hc & Hp & Ha & Hs).
        assert (Hne : id node' <> id node).
        { intros Heq. apply Hfresh. rewrite <- Heq. apply in_map. exact Hin. }
        exists s', t', c', m', po', co'. rewrite Hcalls in Hc, Ha.
        rewrite Hh1 in Hb by exact Hne. auto 6.
Qed.

End RecordFacts.

Lemma prompt_mentions_stored_text question labels incoming
  (responses : dict Z (dict string string)) rounds node_id round_num
  table upstream text :
  round_num <> 1%Z ->
  PyDict.get (round_num - 1)%Z responses = Some table ->
  In upstream (PyDict.get_default node_id [] incoming) ->
  PyDict.get upstream table = Some text -> text <> "" ->
  occurs_in
    ("One agent solution: " ++ PyDict.get_default upstream upstream labels ++ ": " ++ text)
    (build_user_prompt question labels incoming responses rounds node_id round_num).
Proof.
  intros Hround Htable Hin Hget Hne. unfold build_user_prompt.
  destruct (Z.eqb_spec round_num 1) as [Heq|_]; [contradiction|].
  rewrite gather_neighbor_responses_lines. cbn [app].
  assert (Hprev : PyDict.get_default (round_num - 1)%Z [] responses = table).
  { unfold PyDict.get_default, PyDict.dict in *. rewrite Htable. reflexivity. }
  rewrite Hprev.
  pose proof (solution_lines_in labels table _ upstream text Hin Hget Hne) as Hline.
  unfold build_followup_prompt.
  destruct (solution_lines labels table (PyDict.get_default node_id [] incoming))
    as [|l0 ls]; [destruct Hline|].
  apply occurs_in_app_l, occurs_in_app_l, occurs_in_app_r, occurs_in_join.
  apply (in_map (fun l => "One agent solution: " ++ l)) in Hline. exact Hline.
Qed.

Section FlowFacts.
Context `{JsonLib} `{Backend}.

Lemma run_round_records p nodes round_num st st' evs :
  NoDup (map id nodes) ->
  run_round p nodes round_num st = (evs, Ok st') ->
  (forall r, r <> round_num ->
     PyDict.get r (responses_by_round st') = PyDict.get r (responses_by_round st))
  /\ forall node, In node nodes ->
       exists system turns content main_text position comments,
         PyDict.get (id node) (histories st) = Some (system :: turns)
         /\ create (id node) (call_history p st round_num node turns) = Some content
         /\ parse_summary_json content
              (PyDict.get_default (id node) [] (outgoing p)) (labels p) round_num
            = Ok (main_text, position, comments)
         /\ PyDict.get (id node) (histories st')
            = Some (call_history p st round_num node turns
                    ++ [AssistantMessage content
                          (PyDict.get_default (id node) (id node) (labels p))])%list
         /\ stored_text st' round_num (id node) = Some main_text.
Proof.
  intros Hnd Hrun. unfold run_round in Hrun.
  destruct (run_nodes_records p round_num nodes Hnd _ _ _ Hrun)
    as (Hrounds & _ & Hnodes).
  cbn [responses_by_round histories] in *.
  assert (Hreset : forall r, r <> round_num ->
            PyDict.get r (PyDict.set round_num [] (responses_by_round st))
            = PyDict.get r (responses_by_round st)).
  { intros r Hr. apply get_set_other. congruence. }
  split.
  - intros r Hr. rewrite Hrounds by exact Hr. apply Hreset, Hr.
  - intros node Hin.
    destruct (Hnodes node Hin) as (s & t & c & m & po & co & Hb & Hc & Hp & Ha & Hs).
    exists s, t, c, m, po, co.
    rewrite (call_history_ext p _ st round_num node t) in Hc, Ha
      by (cbn [responses_by_round]; apply Hreset; lia).
    auto 6.
Qed.

End FlowFacts.

(** What a node says in one round is what its downstream neighbors read
    in the next: over two consecutive completed rounds with distinct node
    ids, the reply of [upstream] in the first round is the last message of
    its history, and when the main text parsed from it is not empty, the
    user turn of every node that has [upstream] as an incoming neighbor
    carries, in the second round, the line with the label of [upstream]
    and that main text. *)
Theorem main_text_reaches_downstream `{JsonLib} `{Backend} (p : plan)
  (nodes : list Node) (round_num : Z) (st st1 st2 : session)
  (evs1 evs2 : list event) (upstream downstream : Node) :
  NoDup (map id nodes) ->
  (0 < round_num)%Z ->
  run_round p nodes round_num st = (evs1, Ok st1) ->
  run_round p nodes (round_num + 1) st1 = (evs2, Ok st2) ->
  In upstream nodes -> In downstream nodes ->
  In (id upstream) (PyDict.get_default (id downstream) [] (incoming p)) ->
  exists earlier content main_text position comments,
    PyDict.get (id upstream) (histories st1)
    = Some (earlier
            ++ [AssistantMessage content
                  (PyDict.get_default (id upstream) (id upstream) (labels p))])%list
    /\ parse_summary_json content
         (PyDict.get_default (id upstream) [] (outgoing p)) (labels p) round_num
       = Ok (main_text, position, comments)
    /\ exists before prompt answer source,
         PyDict.get (id downstream) (histories st2)
         = Some (before ++ [UserMessage prompt "user"; AssistantMessage answer source])%list
         /\ (main_text <> "" ->
             occurs_in
               ("One agent solution: "
                ++ PyDict.get_default (id upstream) (id upstream) (labels p)
                ++ ": " ++ main_text)
               prompt).
Proof.
  intros Hnd Hpos Hfirst Hsecond Hup Hdown Hedge.
  destruct (run_round_records p nodes round_num st st1 evs1 Hnd Hfirst) as [_ Hrec1].
  destruct (run_round_records p nodes (round_num + 1) st1 st2 evs2 Hnd Hsecond)
    as [_ Hrec2].
  destruct (Hrec1 upstream Hup)
    as (s1 & t1 & content & main_text & position & comments
        & _ & _ & Hparse & Hafter1 & Hstored).
  destruct (Hrec2 downstream Hdown)
    as (s2 & t2 & answer & _ & _ & _ & _ & _ & _ & Hafter2 & _).
  exists (call_history p st round_num upstream t1), content, main_text, position, comments.
  split; [exact Hafter1|]. split; [exact Hparse|].
  unfold call_history in Hafter2. cbn [app] in Hafter2.
  rewrite <- app_assoc in Hafter2. cbn [app] in Hafter2.
  exists (SystemMessage (system_prompt_of p downstream (round_num + 1)) :: t2).
  do 3 eexists. split; [exact Hafter2|].
  intros Hne. unfold stored_text in Hstored.
  destruct (PyDict.get round_num (responses_by_round st1)) as [table|] eqn:Htable;
    [|discriminate].
  apply (prompt_mentions_stored_text _ _ _ _ _ _ _ table); try assumption.
  - lia.
  - rewrite Z.add_simpl_r. exact Htable.
Qed.

(** A completed round, with distinct node ids: every node's backend was
    called with the round's system message, its earlier turns and the user
    prompt built from the response tables as they stood before the round;
    the raw reply is the assistant turn appended to its history; the main
    text parsed from that reply is what the round stores for the node; and
    the tables of the other rounds are untouched. *)
Theorem round_records_main_texts `{JsonLib} `{Backend} (p : plan)
  (nodes : list Node) (round_num : Z) (st st' : session) (evs : list event) :
  NoDup (map id nodes) ->
  run_round p nodes round_num st = (evs, Ok st') ->
  (forall r, r <> round_num ->
     PyDict.get r (responses_by_round st') = PyDict.get r (responses_by_round st))
  /\ forall node, In node nodes ->
       exists system turns content main_text position comments,
         PyDict.get (id node) (histories st) = Some (system :: turns)
         /\ create (id node) (call_history p st round_num node turns) = Some content
         /\ parse_summary_json content
              (PyDict.get_default (id node) [] (outgoing p)) (labels p) round_num
            = Ok (main_text, position, comments)
         /\ PyDict.get (id node) (histories st')
            = Some (call_history p st round_num node turns
                    ++ [AssistantMessage content
                          (PyDict.get_default (id node) (id node) (labels p))])%list
         /\ stored_text st' round_num (id node) = Some main_text.
Proof. apply run_round_records. Qed.

(** ** The aggregator pass *)

Section AggregatorFacts.
Context `{JsonLib} `{Backend}.

Lemma run_nodes_keeps_rounds p round_num nodes :
  forall st evs st' k,
    run_nodes p round_num nodes st = (evs, Ok st') ->
    In k (PyDict.keys (responses_by_round st)) ->
    In k (PyDict.keys (responses_by_round st')).
Proof.
  induction nodes as [|node rest IH]; intros st evs st' k Hrun Hin.
  - injection Hrun as _ <-. exact Hin.
  - cbn [run_nodes] in Hrun. apply gbind_ok in Hrun.
    destruct Hrun as (evs1 & st1 & evs2 & Hstep & Hrest & _).
    apply (IH _ _ _ _ Hrest). apply debate_step_completed in Hstep.
    destruct Hstep as (system & turns & content & main_text & position & comments
                       & round_table & _ & _ & _ & _ & -> & _).
    cbn [responses_by_round]. apply in_keys_set. auto.
Qed.

Lemma run_rounds_keeps_rounds p nodes round_nums :
  forall st evs st' k,
    run_rounds p nodes round_nums st = (evs, Ok st') ->
    In k (PyDict.keys (responses_by_round st)) \/ In k round_nums ->
    In k (PyDict.keys (responses_by_round st')).
Proof.
  induction round_nums as [|r rest IH]; intros st evs st' k Hrun Hin.
  - injection Hrun as _ <-. destruct Hin as [Hin|[]]. exact Hin.
  - cbn [run_rounds] in Hrun. apply gbind_ok in Hrun.
    destruct Hrun as (evs1 & st1 & evs2 & Hround & Hrest & _).
    apply (IH _ _ _ _ Hrest). unfold run_round in Hround.
    destruct Hin as [Hin|[<-|Hin]]; [left|left|right; exact Hin];
      apply (run_nodes_keeps_rounds _ _ _ _ _ _ _ Hround);
      cbn [responses_by_round]; apply in_keys_set; auto.
Qed.

(** After at least one completed round the response tables are not
    empty, so the test [if responses_by_round] lets the aggregator run. *)
Lemma completed_rounds_leave_tables p nodes round_nums st evs st' :
  round_nums <> [] ->
  run_rounds p nodes round_nums st = (evs, Ok st') ->
  responses_by_round st' <> [].
Proof.
  intros Hne Hrun Hempty. destruct round_nums as [|r rest]; [congruence|].
  assert (Hin : In r (PyDict.keys (responses_by_round st')))
    by (apply (run_rounds_keeps_rounds _ _ _ _ _ _ _ Hrun); simpl; auto).
  rewrite Hempty in Hin. exact Hin.
Qed.

End AggregatorFacts.

Lemma run_debate_outcome `{JsonLib} `{Backend} (config : Config) :
  cfg_nodes config <> [] ->
  run_debate config
  = match debate_rounds config (Z.to_nat (resolve_rounds config)) with
    | (evs, Raise e) => (evs, Raise e)
    | (evs, Ok st) =>
        match aggregator_create
                [SystemMessage AGGREGATOR_SYSTEM_PROMPT;
                 UserMessage
                   (build_aggregator_prompt (resolve_question config)
                      (responses_by_round st) (node_labels (cfg_nodes config)))
                   "user"]
        with
        | Some content =>
            ((evs ++ [MessageEvent "aggregator" "all" "" content
                        (resolve_rounds config)])%list,
             Ok tt)
        | None => (evs, Raise BackendError)
        end
    end.
Proof.
  intros Hnodes. unfold run_debate, debate_rounds.
  destruct (cfg_nodes config) as [|n0 ns] eqn:E; [congruence|]. rewrite <- E.
  destruct (build_neighbor_maps (cfg_nodes config) (cfg_edges config)) as [maps|e];
    [|reflexivity].
  unfold lift, gbind at 1 3. unfold round_range. cbn [rounds make_plan].
  unfold gbind.
  destruct (run_rounds _ _ _ _) as [evs [st|e]] eqn:Hrun; [|reflexivity].
  assert (Htables : responses_by_round st <> []).
  { apply (completed_rounds_leave_tables _ _ _ _ _ _) with (2 := Hrun).
    assert (Hpos : (1 <= resolve_rounds config)%Z) by (unfold resolve_rounds; lia).
    destruct (Z.to_nat (resolve_rounds config)) eqn:En; [lia | discriminate]. }
  unfold aggregate. destruct (responses_by_round st) eqn:Et; [congruence|].
  rewrite <- Et. cbn [question labels rounds make_plan].
  unfold lift, gbind, call, yield.
  destruct (aggregator_create _) as [content|]; cbn [app];
    rewrite ?app_nil_r; reflexivity.
Qed.

(** How a debate with at least one node ends.  When a round fails, the
    events are those of the rounds and the exception propagates, with no
    aggregator event.  When the rounds complete, the aggregator is always
    called, on its system prompt and the transcript of the stored main
    texts: its reply is the summary of one last event from ["aggregator"]
    to ["all"] with the empty text and the (coerced) round count; its
    failure propagates after the events of the rounds. *)
Theorem debate_ends_with_the_aggregator `{JsonLib} `{Backend} (config : Config) :
  cfg_nodes config <> [] ->
  run_debate config
  = match debate_rounds config (Z.to_nat (resolve_rounds config)) with
    | (evs, Raise e) => (evs, Raise e)
    | (evs, Ok st) =>
        match aggregator_create
                [SystemMessage AGGREGATOR_SYSTEM_PROMPT;
                 UserMessage
                   (build_aggregator_prompt (resolve_question config)
                      (responses_by_round st) (node_labels (cfg_nodes config)))
                   "user"]
        with
        | Some content =>
            ((evs ++ [MessageEvent "aggregator" "all" "" content
                        (resolve_rounds config)])%list,
             Ok tt)
        | None => (evs, Raise BackendError)
        end
    end.
Proof. apply run_debate_outcome. Qed.

(** ** Trimming *)

Lemma lstrip_head s c r : Py.lstrip s = String c r -> Py.isspace c = false.
Proof.
  induction s as [|d s IH]; simpl; [discriminate|].
  destruct (Py.isspace d) eqn:E; [exact IH|]. intros [= <- _]. exact E.
Qed.

Lemma lstrip_blank s : Py.lstrip s = "" <-> blank s = true.
Proof.
  unfold blank. induction s as [|c s IH]; simpl; [tauto|].
  destruct (Py.isspace c); simpl; [exact IH|]. split; discriminate.
Qed.

Lemma rstrip_blank s : Py.rstrip s = "" <-> blank s = true.
Proof.
  unfold blank. induction s as [|c s IH]; simpl; [tauto|].
  destruct (Py.rstrip s) eqn:E.
  - destruct (Py.isspace c); simpl.
    + split; [intros _; apply IH; reflexivity | reflexivity].
    + split; discriminate.
  - split; [discriminate|]. intros Hb. apply andb_true_iff in Hb.
    destruct Hb as [_ Hb]. apply IH in Hb. discriminate.
Qed.

Lemma blank_app a b : blank (a ++ b) = blank a && blank b.
Proof.
  unfold blank. induction a as [|c a IH]; simpl; [reflexivity|].
  rewrite IH. apply andb_assoc.
Qed.

Lemma lstrip_app a b :
  Py.lstrip (a ++ b) = if blank a then Py.lstrip b else Py.lstrip a ++ b.
Proof.
  unfold blank. induction a as [|c a IH]; simpl; [reflexivity|].
  destruct (Py.isspace c); simpl; [exact IH | reflexivity].
Qed.

Lemma rstrip_app_blank s w : blank w = true -> Py.rstrip (s ++ w) = Py.rstrip s.
Proof.
  intros Hw. induction s as [|c s IH]; simpl.
  - apply rstrip_blank. exact Hw.
  - rewrite IH. reflexivity.
Qed.

Lemma strip_blank s : Py.strip s = "" <-> blank s = true.
Proof.
  unfold Py.strip. rewrite rstrip_blank. split.
  - intros Hb. apply lstrip_blank. destruct (Py.lstrip s) as [|c r] eqn:E; [reflexivity|].
    apply lstrip_head in E. unfold blank in Hb. simpl in Hb. rewrite E in Hb.
    discriminate.
  - intros Hb. apply lstrip_blank in Hb. rewrite Hb. reflexivity.
Qed.

(** Blank text at either end does not change the trimmed text. *)
Lemma strip_app_blank_r s w : blank w = true -> Py.strip (s ++ w) = Py.strip s.
Proof.
  intros Hw. unfold Py.strip. rewrite lstrip_app.
  destruct (blank s) eqn:Es.
  - rewrite (proj2 (lstrip_blank w) Hw), (proj2 (lstrip_blank s) Es). reflexivity.
  - apply rstrip_app_blank, Hw.
Qed.

Lemma strip_app_blank_l s w : blank w = true -> Py.strip (w ++ s) = Py.strip s.
Proof.
  intros Hw. unfold Py.strip. rewrite lstrip_app, Hw. reflexivity.
Qed.

Lemma take_drop n s : Py.take n s ++ Py.drop n s = s.
Proof.
  revert s. induction n as [|n IH]; intros s; [reflexivity|].
  destruct s as [|c r]; [reflexivity|]. simpl. rewrite IH. reflexivity.
Qed.

Lemma take_add a b s : Py.take (a + b) s = Py.take a s ++ Py.take b (Py.drop a s).
Proof.
  revert s. induction a as [|a IH]; intros s; [reflexivity|].
  destruct s as [|c r]; simpl.
  - destruct b; reflexivity.
  - rewrite IH. reflexivity.
Qed.

Lemma all_in_weaken (cls1 cls2 : ascii -> bool) s :
  (forall c, cls1 c = true -> cls2 c = true) ->
  all_in cls1 s = true -> all_in cls2 s = true.
Proof.
  intros Hsub. induction s as [|c s IH]; simpl; [reflexivity|].
  intros Hall. apply andb_true_iff in Hall. destruct Hall as [Hc Hs].
  rewrite (Hsub c Hc), (IH Hs). reflexivity.
Qed.

Lemma newline_is_space c : is_newline c = true -> Py.isspace c = true.
Proof. intros Hc. apply Ascii.eqb_eq in Hc. subst c. reflexivity. Qed.

(** The question a debate runs on: the default topic when the configured
    one is absent or blank, the trimmed configured one otherwise; never the
    empty text. *)
Theorem question_falls_back_when_blank (config : Config) :
  let configured := match cfg_question config with Some q => q | None => "" end in
  resolve_question config
  = (if blank configured then DEFAULT_QUESTION else Py.strip configured)
  /\ resolve_question config <> "".
Proof.
  intros configured. unfold resolve_question. fold configured.
  destruct (blank configured) eqn:Eb.
  - rewrite (proj2 (strip_blank configured) Eb). split; [reflexivity | discriminate].
  - destruct (Py.strip configured) as [|c r] eqn:Es.
    + apply strip_blank in Es. congruence.
    + split; [reflexivity | discriminate].
Qed.

(** ** The sample debate, round by round *)

Lemma completed_rounds_follow_schedule_witness :
  position_keys tea_events = [("a", 1%Z); ("b", 1%Z); ("a", 2%Z); ("b", 2%Z)]
  /\ List.length tea_events = 8.
Proof.
  apply (@completed_rounds_follow_schedule (StdJson no_floats) TeaBackend tea_plan
           (cfg_nodes tea_config) [1%Z; 2%Z] tea_start tea_session tea_events).
  vm_compute; reflexivity.
Defined.

Lemma failed_rounds_stop_in_schedule_witness :
  exists missed,
    missed <> []
    /\ schedule (cfg_nodes tea_config) [1%Z; 2%Z] = (position_keys [] ++ missed)%list.
Proof.
  apply (@failed_rounds_stop_in_schedule (StdJson no_floats) SilentBackend tea_plan
           (cfg_nodes tea_config) [1%Z; 2%Z] tea_start [] BackendError).
  vm_compute; reflexivity.
Defined.

Lemma round_records_main_texts_witness :
  exists content main_text position comments,
    @parse_summary_json (StdJson no_floats) content [] (labels tea_plan) 1
    = Ok (main_text, position, comments)
    /\ stored_text tea_after_round_one 1 "b" = Some main_text.
Proof.
  destruct (@round_records_main_texts (StdJson no_floats) TeaBackend tea_plan
              (cfg_nodes tea_config) 1 tea_start tea_after_round_one (fst tea_round_one))
    as [_ Hnodes].
  - repeat constructor; simpl; intuition discriminate.
  - vm_compute; reflexivity.
  - destruct (Hnodes (mkNode "b" "Bee" (Some " Be brief. ")))
      as (system & turns & content & main_text & position & comments
          & _ & _ & Hparse & _ & Hstored).
    + simpl; auto.
    + exists content, main_text, position, comments.
      split; [exact Hparse | exact Hstored].
Defined.

Lemma main_text_reaches_downstream_witness :
  exists earlier content main_text position comments,
    PyDict.get "a" (histories tea_after_round_one)
    = Some (earlier ++ [AssistantMessage content "Ay"])%list
    /\ @parse_summary_json (StdJson no_floats) content ["b"] (labels tea_plan) 1
       = Ok (main_text, position, comments)
    /\ exists before prompt answer source,
         PyDict.get "b" (histories tea_after_round_two)
         = Some (before ++ [UserMessage prompt "user"; AssistantMessage answer source])%list
         /\ (main_text <> "" ->
             occurs_in ("One agent solution: " ++ "Ay" ++ ": " ++ main_text) prompt).
Proof.
  apply (@main_text_reaches_downstream (StdJson no_floats) TeaBackend tea_plan
           (cfg_nodes tea_config) 1 tea_start tea_after_round_one tea_after_round_two
           (fst tea_round_one) (fst tea_round_two)
           (mkNode "a" "Ay" None) (mkNode "b" "Bee" (Some " Be brief. "))).
  - repeat constructor; simpl; intuition discriminate.
  - lia.
  - vm_compute; reflexivity.
  - vm_compute; reflexivity.
  - simpl; auto.
  - simpl; auto.
  - simpl; auto.
Defined.

Lemma debate_ends_with_the_aggregator_witness :
  fst (@run_debate (StdJson no_floats) TeaBackend tea_config)
  = (tea_events ++ [MessageEvent "aggregator" "all" "" "Both say tea." 2])%list.
Proof.
  rewrite (@debate_ends_with_the_aggregator (StdJson no_floats) TeaBackend tea_config).
  - vm_compute; reflexivity.
  - discriminate.
Defined.

(** ** Where the marker search cuts *)

(** A star that matched consumed a run of its class and handed the rest
    to its continuation. *)
Lemma star_then_run cls k s n :
  Re.star_then cls k s = Some n ->
  exists j m, n = j + m /\ all_in cls (Py.take j s) = true /\ k (Py.drop j s) = Some m.
Proof.
  revert n. induction s as [|c r IH]; intros n; cbn [Re.star_then].
  - intros Hk. exists 0, n. auto.
  - destruct (cls c) eqn:Ec.
    + destruct (Re.star_then cls k r) as [n'|] eqn:E.
      * intros [= <-]. destruct (IH n' eq_refl) as (j & m & -> & Hrun & Hk).
        exists (S j), m. cbn [Py.take Py.drop all_in]. rewrite Ec, Hrun. auto.
      * intros Hk. exists 0, n. auto.
    + intros Hk. exists 0, n. auto.
Qed.

(** The search returns the leftmost index at which the pattern matches. *)
Lemma search_from_some p s pos a b :
  Re.search_from p s pos = Some (a, b) ->
  exists i n,
    a = pos + i /\ b = pos + i + n
    /\ Re.match_here p (Py.drop i s) = Some n
    /\ forall j, j < i -> Re.match_here p (Py.drop j s) = None.
Proof.
  revert pos. induction s as [|c r IH]; intros pos; simpl.
  - destruct (Re.match_here p "") as [n|] eqn:E; [|discriminate].
    intros [= <- <-]. exists 0, n. repeat split; try lia. exact E.
  - destruct (Re.match_here p (String c r)) as [n|] eqn:E.
    + intros [= <- <-]. exists 0, n. repeat split; try lia. exact E.
    + intros Hs. destruct (IH _ Hs) as (i & n & -> & -> & Hm & Hbefore).
      exists (S i), n. repeat split; try lia; [exact Hm|].
      intros [|j] Hj; [exact E | apply Hbefore; lia].
Qed.

(** The marker does not start inside a run of newlines. *)
Lemma newline_run_no_marker k t j :
  all_in is_newline (Py.take k t) = true -> j < k ->
  startswith_ignorecase MARKER (Py.drop j t) = false.
Proof.
  revert t j. induction k as [|k IH]; intros t j Hrun Hj; [lia|].
  destruct t as [|c r]; [rewrite drop_empty; reflexivity|].
  cbn [Py.take all_in] in Hrun. apply andb_true_iff in Hrun.
  destruct Hrun as [Hc Hr]. destruct j as [|j].
  - apply Ascii.eqb_eq in Hc. subst c. reflexivity.
  - cbn [Py.drop]. apply IH; [exact Hr | lia].
Qed.

(** A match of the marker pattern: newlines, the marker, blanks. *)
Lemma match_marker_run s n :
  Re.match_here MARKER_RE s = Some n ->
  exists k w,
    all_in is_newline (Py.take k s) = true
    /\ startswith_ignorecase MARKER (Py.drop k s) = true
    /\ n = k + String.length MARKER + w
    /\ blank (Py.take w (Py.drop (k + String.length MARKER) s)) = true.
Proof.
  rewrite marker_re_unfold. intros Hm. apply star_then_run in Hm.
  destruct Hm as (k & m & -> & Hrun & Hm). rewrite match_literal in Hm.
  destruct (startswith_ignorecase MARKER (Py.drop k s)) eqn:Hs; [|discriminate].
  rewrite drop_drop in Hm.
  destruct (Re.match_here _ _) as [m'|] eqn:Htail; [|discriminate].
  injection Hm as <-. cbn [Re.match_here] in Htail.
  apply star_then_run in Htail. destruct Htail as (j2 & m2 & -> & Hsp & Htail).
  apply star_then_run in Htail. destruct Htail as (j3 & m3 & -> & Hnl & Hend).
  injection Hend as <-.
  exists k, (j2 + j3). split; [exact Hrun|]. split; [exact Hs|].
  split; [change (String.length MARKER) with 13; lia|].
  rewrite take_add, blank_app. unfold blank at 1. rewrite Hsp. cbn [andb].
  apply (all_in_weaken is_newline); [exact newline_is_space | exact Hnl].
Qed.

(** The match of [re.search] around the first marker: it starts with the
    newlines before it and ends after the blanks that follow it. *)
Lemma search_first_marker text q :
  first_marker_at text q ->
  exists k w,
    Re.search MARKER_RE text = Some (q - k, q + String.length MARKER + w)
    /\ k <= q
    /\ all_in is_newline (Py.take k (Py.drop (q - k) text)) = true
    /\ blank (Py.take w (Py.drop (q + String.length MARKER) text)) = true.
Proof.
  intros [Hat Hfirst].
  destruct (Re.search MARKER_RE text) as [[a b]|] eqn:Hs.
  2:{ exfalso. exact (proj1 (search_marker_none text) Hs q Hat). }
  unfold Re.search in Hs. apply search_from_some in Hs.
  destruct Hs as (i & n & -> & -> & Hm & Hbefore). cbn [Nat.add] in *.
  apply match_marker_run in Hm.
  destruct Hm as (k & w & Hrun & Hmark & -> & Hblank).
  rewrite drop_drop in Hmark, Hblank.
  assert (Hq : q = i + k).
  { destruct (Nat.lt_trichotomy (i + k) q) as [Hlt|[Heq|Hgt]].
    - exfalso. exact (Hfirst _ Hlt Hmark).
    - congruence.
    - exfalso. destruct (Nat.lt_ge_cases q i) as [Hqi|Hqi].
      + apply (match_marker_complete _ Hat). apply Hbefore, Hqi.
      + assert (Hno := newline_run_no_marker k (Py.drop i text) (q - i) Hrun
                         ltac:(lia)).
        rewrite drop_drop in Hno. replace (i + (q - i)) with q in Hno by lia.
        unfold marker_at in Hat. congruence. }
  subst q. exists k, w. replace (i + k - k) with i by lia.
  replace (i + (k + String.length MARKER + w))
    with (i + k + String.length MARKER + w) by lia.
  replace (i + (k + String.length MARKER))
    with (i + k + String.length MARKER) in Hblank by lia.
  repeat split; try assumption. lia.
Qed.

(** The two segments the parser trims are those around the first marker. *)
Lemma split_at_first_marker text q :
  first_marker_at text q ->
  exists m_start m_end,
    Re.search MARKER_RE text = Some (m_start, m_end)
    /\ Py.strip (Py.take m_start text) = Py.strip (Py.take q text)
    /\ Py.strip (Py.drop m_end text)
       = Py.strip (Py.drop (q + String.length MARKER) text).
Proof.
  intros Hq. destruct (search_first_marker text q Hq) as (k & w & Hs & Hk & Hrun & Hblank).
  exists (q - k), (q + String.length MARKER + w). split; [exact Hs|]. split.
  - transitivity (Py.strip (Py.take (q - k + k) text)).
    + rewrite take_add. symmetry. apply strip_app_blank_r.
      apply (all_in_weaken is_newline); [exact newline_is_space | exact Hrun].
    + replace (q - k + k) with q by lia. reflexivity.
  - transitivity
      (Py.strip (Py.take w (Py.drop (q + String.length MARKER) text)
                 ++ Py.drop w (Py.drop (q + String.length MARKER) text))).
    + rewrite strip_app_blank_l by exact Hblank. rewrite drop_drop. reflexivity.
    + rewrite take_drop. reflexivity.
Qed.

(** ** Where the brace scan cuts *)

Lemma scan_braces_complete s i count n :
  (0 < count)%Z -> 0 < n ->
  (count + brace_depth (Py.take n s) = 0)%Z ->
  (forall m, m < n -> (0 < count + brace_depth (Py.take m s))%Z) ->
  scan_braces s i count = Some (i + n).
Proof.
  intros Hpos Hn Hzero Hbefore.
  destruct (scan_braces s i count) as [e|] eqn:E.
  - destruct (scan_braces_some s i count e Hpos E) as (n' & -> & Hn' & Hzero' & Hbefore').
    destruct (Nat.lt_trichotomy n n') as [Hlt|[Heq|Hgt]].
    + specialize (Hbefore' n Hlt). lia.
    + congruence.
    + specialize (Hbefore n' Hgt). lia.
  - pose proof (proj1 (scan_braces_none s i count Hpos) E n). lia.
Qed.

Lemma find_json_end_bracketed json_section json_start n :
  Py.find "{"%char json_section = Some json_start ->
  0 < n ->
  brace_depth (Py.take n (Py.drop json_start json_section)) = 0%Z ->
  (forall m, 0 < m < n ->
     (0 < brace_depth (Py.take m (Py.drop json_start json_section)))%Z) ->
  find_json_end json_section json_start = Some (json_start + n).
Proof.
  intros Hfind Hn Hzero Hbefore. unfold find_json_end.
  destruct (find_some _ _ _ Hfind) as [r Hr]. rewrite Hr in *.
  cbn [scan_braces]. rewrite Ascii.eqb_refl.
  destruct n as [|n]; [lia|]. cbn [Py.take brace_depth] in Hzero.
  rewrite Ascii.eqb_refl in Hzero.
  replace (json_start + S n) with (S json_start + n) by lia.
  apply scan_braces_complete; try lia.
  - destruct n as [|n]; [simpl in Hzero; lia | lia].
  - intros m Hm. specialize (Hbefore (S m) ltac:(lia)).
    cbn [Py.take brace_depth] in Hbefore. rewrite Ascii.eqb_refl in Hbefore. lia.
Qed.

Section CutFacts.
Context `{JsonLib}.

Lemma envelope_of_first_marker text q json_str data :
  first_marker_at text q ->
  bracketed (Py.strip (Py.drop (q + String.length MARKER) text)) json_str ->
  json_loads json_str = Ok data ->
  envelope text (Py.strip (Py.take q text)) data.
Proof.
  intros Hq (js & n & Hfind & Hn & Hzero & Hbefore & ->) Hloads.
  destruct (split_at_first_marker text q Hq) as (ms & me & Hs & Hmain & Hsec).
  exists ms, me, js, (js + n). rewrite Hsec. split; [exact Hs|].
  split; [symmetry; exact Hmain|]. split; [exact Hfind|]. split.
  - apply find_json_end_bracketed; assumption.
  - unfold Py.slice. replace (js + n - js) with n by lia. exact Hloads.
Qed.

End CutFacts.

(** What the parser reads.  When the marker (in any case) first stands
    at index [q], and the text after it, trimmed, has a first opening
    brace whose scan first balances after [json_str], and [json_str]
    decodes to [data]: the main text is the trimmed text before index [q],
    whatever newlines precede the marker; the position and the comments
    are read from [data]; text after the balancing brace is ignored; a
    [data] that is not an object raises [AttributeError]. *)
Theorem parse_reads_first_marker `{JsonLib} (text : string) (q : nat)
  (json_str : string) (data : json) (expected : list string)
  (labels : dict string string) (round_num : Z) :
  first_marker_at text q ->
  bracketed (Py.strip (Py.drop (q + String.length MARKER) text)) json_str ->
  json_loads json_str = Ok data ->
  parse_summary_json text expected labels round_num
  = match data with
    | JObject members =>
        (comments <- extract_comments members (label_to_id labels) expected round_num ;;
         Ok (Py.strip (Py.take q text),
             Py.strip (py_str (PyDict.get_default "position" (JString "") members)),
             fill_missing expected comments))%result
    | _ => Raise AttributeError
    end.
Proof.
  intros Hq Hbr Hloads. apply parse_envelope.
  apply (envelope_of_first_marker text q json_str data); assumption.
Qed.

Lemma parse_reads_first_marker_witness :
  @parse_summary_json (StdJson no_floats) tea_reply ["b"] [("b", "Bee")] 2
  = Ok ("Tea first.", "tea", [("b", "")]).
Proof.
  rewrite (@parse_reads_first_marker (StdJson no_floats) tea_reply 11
             ("{" ++ quoted "position" ++ ": " ++ quoted "tea" ++ "}")
             (JObject [("position", JString "tea")]) ["b"] [("b", "Bee")] 2).
  - vm_compute; reflexivity.
  - split; [vm_compute; reflexivity|].
    intros i Hi Hat. unfold marker_at in Hat.
    do 11 (destruct i as [|i]; [vm_compute in Hat; discriminate|]). lia.
  - exists 0, 19. split; [vm_compute; reflexivity|]. split; [lia|].
    split; [vm_compute; reflexivity|]. split; [|vm_compute; reflexivity].
    intros m Hm.
    do 19 (destruct m as [|m]; [try lia; vm_compute; reflexivity|]). lia.
  - vm_compute; reflexivity.
Defined.

(** ** The first round reads no comments *)

Lemma get_in_value {K V} `{KeyEq K} (k : K) (d : dict K V) v :
  PyDict.get k d = Some v -> In (k, v) d.
Proof.
  induction d as [|[k0 v0] r IH]; simpl; [discriminate|].
  destruct (keq k k0) eqn:E.
  - intros [= <-]. apply keq_eq in E. subst. auto.
  - auto.
Qed.

Lemma set_same_value {K V} `{KeyEq K} (k : K) (v : V) (d : dict K V) :
  PyDict.get k d = Some v -> PyDict.set k v d = d.
Proof.
  induction d as [|[k0 v0] r IH]; simpl; [discriminate|].
  destruct (keq k k0); [intros [= ->]; reflexivity|].
  intros Hget. rewrite (IH Hget). reflexivity.
Qed.

Lemma all_empty_set k d : all_empty d -> all_empty (PyDict.set k "" d).
Proof.
  unfold all_empty. induction d as [|[k0 v0] r IH]; intros Hall k' v';
    cbn [PyDict.set].
  - intros [[= _ <-]|[]]. reflexivity.
  - destruct (keq k k0); cbn [In].
    + intros [[= _ <-]|Hin]; [reflexivity|]. apply (Hall k' v'). simpl. auto.
    + intros [Heq|Hin]; [apply (Hall k' v'); simpl; auto|].
      apply (IH (fun k v Hin => Hall k v (or_intror Hin)) k' v' Hin).
Qed.

(** On a dictionary of empty strings, filling the missing keys is the
    same as assigning the empty string to every key. *)
Lemma fill_missing_assigns expected comments :
  all_empty comments ->
  fill_missing expected comments
  = fold_left (fun d nid => PyDict.set nid "" d) expected comments.
Proof.
  unfold fill_missing. revert comments.
  induction expected as [|nid rest IH]; intros comments Hall; [reflexivity|].
  cbn [fold_left].
  assert (Hhas : PyDict.has nid comments
                 = match PyDict.get nid comments with
                   | Some _ => true
                   | None => false
                   end) by reflexivity.
  rewrite Hhas. clear Hhas.
  destruct (PyDict.get nid comments) as [v|] eqn:Hget; cbn [negb].
  - assert (Hv : v = "") by (apply (Hall nid), get_in_value, Hget). subst v.
    rewrite (set_same_value nid "" comments Hget). apply IH, Hall.
  - apply IH, all_empty_set, Hall.
Qed.

(** In the first round the [comments] of an envelope are not looked at:
    whatever value the envelope gives them, an object or not, the parser
    returns the main text, the position and the empty string for every
    expected neighbor. *)
Theorem first_round_ignores_comments `{JsonLib} (text main_text : string)
  (members : dict string json) (expected : list string)
  (labels : dict string string) (round_num : Z) :
  (round_num <= 1)%Z ->
  envelope text main_text (JObject members) ->
  parse_summary_json text expected labels round_num
  = Ok (main_text,
        Py.strip (py_str (PyDict.get_default "position" (JString "") members)),
        PyDict.comprehension (fun nid => nid) (fun _ => "") expected).
Proof.
  intros Hround Henv.
  rewrite (parse_envelope text main_text (JObject members) expected labels round_num Henv).
  unfold extract_comments. rewrite (proj2 (Z.ltb_ge 1 round_num) Hround).
  cbn [andb rbind]. rewrite fill_missing_assigns by (intros k v []). reflexivity.
Qed.

Lemma first_round_ignores_comments_witness :
  @parse_summary_json (StdJson no_floats)
    ("SUMMARY_JSON: {" ++ quoted "comments" ++ ": 5}") ["b"] [("b", "Bee")] 1
  = Ok ("", "", [("b", "")]).
Proof.
  apply (@first_round_ignores_comments (StdJson no_floats)
           ("SUMMARY_JSON: {" ++ quoted "comments" ++ ": 5}") ""
           [("comments", JInt 5)] ["b"] [("b", "Bee")] 1).
  - lia.
  - do 4 eexists. repeat split; vm_compute; reflexivity.
Defined.

(** ** Labels with surrounding whitespace *)

Lemma isspace_lower_char c : Py.isspace (Py.lower_char c) = Py.isspace c.
Proof. destruct c as [[] [] [] [] [] [] [] []]; reflexivity. Qed.

Lemma lower_length s : String.length (Py.lower s) = String.length s.
Proof. induction s as [|c r IH]; simpl; [reflexivity | rewrite IH; reflexivity]. Qed.

Lemma lstrip_lower s : Py.lstrip (Py.lower s) = Py.lower (Py.lstrip s).
Proof.
  induction s as [|c r IH]; [reflexivity|].
  cbn [Py.lower Py.lstrip]. rewrite isspace_lower_char.
  destruct (Py.isspace c); [exact IH | reflexivity].
Qed.

Lemma rstrip_lower s : Py.rstrip (Py.lower s) = Py.lower (Py.rstrip s).
Proof.
  induction s as [|c r IH]; [reflexivity|].
  cbn [Py.lower Py.rstrip]. rewrite IH, isspace_lower_char.
  destruct (Py.rstrip r); cbn [Py.lower]; [destruct (Py.isspace c)|]; reflexivity.
Qed.

Lemma strip_lower s : Py.strip (Py.lower s) = Py.lower (Py.strip s).
Proof. unfold Py.strip. rewrite lstrip_lower, rstrip_lower. reflexivity. Qed.

Lemma rstrip_rstrip s : Py.rstrip (Py.rstrip s) = Py.rstrip s.
Proof.
  induction s as [|c r IH]; [reflexivity|]. cbn [Py.rstrip].
  destruct (Py.rstrip r) as [|d r'] eqn:E.
  - destruct (Py.isspace c) eqn:Ec; [reflexivity|]. cbn [Py.rstrip]. rewrite Ec.
    reflexivity.
  - cbn [Py.rstrip] in *. rewrite IH. reflexivity.
Qed.

Lemma rstrip_head c r :
  Py.isspace c = false -> exists r', Py.rstrip (String c r) = String c r'.
Proof.
  intros Hc. cbn [Py.rstrip]. rewrite Hc. destruct (Py.rstrip r); eauto.
Qed.

Lemma strip_strip s : Py.strip (Py.strip s) = Py.strip s.
Proof.
  unfold Py.strip. destruct (Py.lstrip s) as [|c r] eqn:E; [reflexivity|].
  destruct (rstrip_head c r (lstrip_head s c r E)) as [r' Hr']. rewrite Hr'.
  cbn [Py.lstrip]. rewrite (lstrip_head s c r E), <- Hr'. apply rstrip_rstrip.
Qed.

Lemma lstrip_length s : String.length (Py.lstrip s) <= String.length s.
Proof.
  induction s as [|c r IH]; simpl; [lia|]. destruct (Py.isspace c); simpl; lia.
Qed.

Lemma rstrip_length s : String.length (Py.rstrip s) <= String.length s.
Proof.
  induction s as [|c r IH]; simpl; [lia|].
  destruct (Py.rstrip r); [destruct (Py.isspace c)|]; simpl in *; lia.
Qed.

Lemma lstrip_same_length s :
  String.length (Py.lstrip s) = String.length s -> Py.lstrip s = s.
Proof.
  destruct s as [|c r]; [reflexivity|]. cbn [Py.lstrip].
  destruct (Py.isspace c); [|reflexivity].
  pose proof (lstrip_length r). simpl. lia.
Qed.

Lemma rstrip_same_length s :
  String.length (Py.rstrip s) = String.length s -> Py.rstrip s = s.
Proof.
  induction s as [|c r IH]; [reflexivity|]. cbn [Py.rstrip].
  pose proof (rstrip_length r) as Hle.
  destruct (Py.rstrip r) as [|d r'] eqn:E.
  - destruct (Py.isspace c); simpl; [lia|]. intros Hlen.
    destruct r; [reflexivity | simpl in Hlen; lia].
  - intros Hlen. rewrite IH; [reflexivity|]. simpl in *. lia.
Qed.

Lemma strip_same_length s :
  String.length (Py.strip s) = String.length s -> Py.strip s = s.
Proof.
  unfold Py.strip. intros Hlen.
  pose proof (lstrip_length s). pose proof (rstrip_length (Py.lstrip s)).
  rewrite rstrip_same_length by lia. apply lstrip_same_length. lia.
Qed.

Section PaddedLabels.
Context `{JsonLib}.

(** A label a comment resolves to is a trimmed one. *)
Lemma resolved_label_is_trimmed labels expected neighbor_name nid :
  resolves labels expected neighbor_name nid ->
  exists label, In (nid, label) labels /\ Py.strip label = label.
Proof.
  intros [Hget _]. unfold label_to_id, PyDict.comprehension in Hget.
  apply get_assign_loop in Hget. destruct Hget as [Hget|([n label] & Hin & Hk & Hv)];
    [discriminate|].
  cbn [fst snd] in Hk, Hv. subst n. exists label. split; [exact Hin|].
  apply strip_same_length.
  rewrite <- (lower_length (Py.strip label)), <- strip_lower, Hk, strip_lower,
    strip_strip, <- Hk.
  apply lower_length.
Qed.

End PaddedLabels.

(** A node whose label has leading or trailing whitespace is never
    commented on: comment names are trimmed before the lookup, the labels
    of the reverse lookup are not, so in a round after the first, whatever
    the comment pairs of the envelope are, the comment returned for such an
    expected neighbor is the empty string. *)
Theorem padded_label_gets_no_comment `{JsonLib} (text main_text : string)
  (members : dict string json) (items : list (string * json))
  (expected : list string) (labels : dict string string) (round_num : Z)
  (nid : string) :
  envelope text main_text (JObject members) ->
  (1 < round_num)%Z ->
  PyDict.get "comments" members = Some (JObject items) ->
  In nid expected ->
  (forall label, In (nid, label) labels -> Py.strip label <> label) ->
  exists position comments,
    parse_summary_json text expected labels round_num
    = Ok (main_text, position, comments)
    /\ PyDict.get nid comments = Some "".
Proof.
  intros Henv Hround Hcomments Hin Hpadded.
  rewrite (parse_envelope text main_text (JObject members) expected labels round_num Henv).
  rewrite (extract_comments_object members items expected labels round_num Hround Hcomments).
  cbn [rbind]. do 2 eexists. split; [reflexivity|].
  apply (final_comments_default labels expected items nid Hin).
  intros item _ Hres.
  destruct (resolved_label_is_trimmed labels expected (fst item) nid Hres)
    as (label & Hlabel & Htrim).
  exact (Hpadded label Hlabel Htrim).
Qed.

Lemma padded_label_gets_no_comment_witness :
  exists position comments,
    @parse_summary_json (StdJson no_floats) commented_reply ["b"] [("b", " BOB ")] 2
    = Ok ("Fine.", position, comments)
    /\ PyDict.get "b" comments = Some "".
Proof.
  apply (@padded_label_gets_no_comment (StdJson no_floats) commented_reply "Fine."
           [("position", JString "P");
            ("comments", JObject [(" BOB ", JString "Agreed. "); ("Zed", JInt 3)])]
           [(" BOB ", JString "Agreed. "); ("Zed", JInt 3)]
           ["b"] [("b", " BOB ")] 2 "b").
  - do 4 eexists. repeat split; vm_compute; reflexivity.
  - lia.
  - reflexivity.
  - simpl; auto.
  - intros label [[= <-]|[]]. vm_compute. discriminate.
Defined.

(** ** The aggregator's transcript *)

Lemma in_insert_sorted x y xs : In x (insert_sorted y xs) <-> x = y \/ In x xs.
Proof.
  induction xs as [|z xs IH]; simpl; [intuition|].
  destruct (y <=? z)%Z; simpl; [intuition|]. rewrite IH. intuition.
Qed.

Lemma in_sorted x xs : In x (sorted xs) <-> In x xs.
Proof.
  induction xs as [|y xs IH]; simpl; [tauto|].
  rewrite in_insert_sorted, IH. intuition.
Qed.

(** [sorted] gives an ascending list: whatever stands later is not less. *)
Lemma insert_sorted_ascending y xs :
  (forall a b c, xs = (a ++ b :: c)%list -> forall z, In z c -> (b <= z)%Z) ->
  forall a b c, insert_sorted y xs = (a ++ b :: c)%list ->
  forall z, In z c -> (b <= z)%Z.
Proof.
  induction xs as [|x xs IH]; intros Hasc a b c Heq z Hz.
  - destruct a as [|a0 a]; [injection Heq as <- <-; destruct Hz|].
    destruct a; discriminate.
  - cbn [insert_sorted] in Heq. destruct (Z.leb_spec y x) as [Hle|Hgt].
    + destruct a as [|a0 a].
      * injection Heq as <- <-. destruct Hz as [<-|Hz]; [exact Hle|].
        specialize (Hasc [] x xs eq_refl z Hz). lia.
      * injection Heq as _ Heq. exact (Hasc a b c Heq z Hz).
    + destruct a as [|a0 a].
      * injection Heq as <- <-. apply in_insert_sorted in Hz.
        destruct Hz as [->|Hz]; [lia|]. exact (Hasc [] x xs eq_refl z Hz).
      * injection Heq as _ Heq.
        apply (IH (fun a b c E => Hasc (x :: a) b c (f_equal (cons x) E)) a b c Heq z Hz).
Qed.

Lemma sorted_ascending xs a b c :
  sorted xs = (a ++ b :: c)%list -> forall z, In z c -> (b <= z)%Z.
Proof.
  revert a b c. induction xs as [|x xs IH]; intros a b c Heq.
  - destruct a; discriminate.
  - apply (insert_sorted_ascending x (sorted xs) IH a b c Heq).
Qed.

(** Two members of [sorted xs], the smaller one first. *)
Lemma sorted_split xs r1 r2 :
  In r1 xs -> In r2 xs -> (r1 < r2)%Z ->
  exists a b c, sorted xs = (a ++ r1 :: b ++ r2 :: c)%list.
Proof.
  intros H1 H2 Hlt. apply in_sorted in H1, H2.
  destruct (in_split _ _ H2) as (a & c & Heq).
  rewrite Heq in H1. apply in_app_iff in H1.
  destruct H1 as [H1|[H1|H1]].
  - destruct (in_split _ _ H1) as (a1 & a2 & ->).
    exists a1, a2, c. rewrite Heq, <- app_assoc. reflexivity.
  - lia.
  - pose proof (sorted_ascending xs a r2 c Heq r1 H1). lia.
Qed.

Lemma app_two_shape {A} (a u1 : list A) x v1 b u2 y v2 c :
  (a ++ (u1 ++ x :: v1) ++ b ++ (u2 ++ y :: v2) ++ c
   = (a ++ u1) ++ x :: (v1 ++ b ++ u2) ++ y :: (v2 ++ c))%list.
Proof.
  repeat rewrite <- app_assoc. cbn [app]. repeat rewrite <- app_assoc.
  cbn [app]. reflexivity.
Qed.

Lemma join_cons sep x xs :
  xs <> [] -> Py.join sep (x :: xs) = x ++ sep ++ Py.join sep xs.
Proof. destruct xs; [congruence | reflexivity]. Qed.

Lemma occurs_before_join sep xs x ys y zs :
  occurs_before x y (Py.join sep (xs ++ x :: ys ++ y :: zs)).
Proof.
  induction xs as [|w xs IH].
  - cbn [app]. rewrite join_cons by (destruct ys; discriminate).
    destruct (occurs_in_join sep y (ys ++ y :: zs)%list) as (b & c & ->).
    { apply in_app_iff. simpl. auto. }
    exists "", (sep ++ b), c. rewrite append_assoc. reflexivity.
  - cbn [app]. rewrite join_cons by (destruct xs; discriminate).
    destruct IH as (a & b & c & ->).
    exists (w ++ sep ++ a), b, c. rewrite !append_assoc. reflexivity.
Qed.

Lemma occurs_before_wrap x y s pre post :
  occurs_before x y s -> occurs_before x y (pre ++ s ++ post).
Proof.
  intros (a & b & c & ->). exists (pre ++ a), b, (c ++ post).
  rewrite !append_assoc. reflexivity.
Qed.

Section TranscriptFacts.
Variables (question : string) (responses : dict Z (dict string string))
  (labels : dict string string).

Local Abbreviation lines_of :=
  (fun round_num : Z =>
     map (fun item : string * string =>
            let '(node_id, text) := item in
            "Round " ++ Py.str_of_int round_num ++ " - "
            ++ PyDict.get_default node_id node_id labels ++ ": " ++ text)
       (PyDict.get_default round_num [] responses)).

Lemma aggregator_prompt_unfold :
  build_aggregator_prompt question responses labels
  = ("Debate topic:" ++ Py.NL ++ question ++ Py.NL ++ Py.NL
     ++ "Agent responses by round:" ++ Py.NL)
    ++ match flat_map lines_of (sorted (PyDict.keys responses)) with
       | [] => "No responses."
       | (_ :: _) as lines => Py.join Py.NL lines
       end
    ++ (Py.NL ++ Py.NL ++ "Provide a concise final summary.").
Proof.
  unfold build_aggregator_prompt. rewrite !append_assoc.
  destruct (flat_map _ _); reflexivity.
Qed.

Lemma stored_line_in_lines r table node_id text :
  PyDict.get r responses = Some table -> In (node_id, text) table ->
  In (transcript_line labels r node_id text) (lines_of r).
Proof.
  intros Hget Hin.
  unfold PyDict.get_default, PyDict.dict in *. rewrite Hget.
  apply (in_map (fun item : string * string =>
                   let '(node_id, text) := item in
                   "Round " ++ Py.str_of_int r ++ " - "
                   ++ PyDict.get_default node_id node_id labels ++ ": " ++ text)
           table (node_id, text) Hin).
Qed.

End TranscriptFacts.

Lemma transcript_line_occurs (question : string)
  (responses : dict Z (dict string string)) (labels : dict string string)
  r table node_id text :
  PyDict.get r responses = Some table -> In (node_id, text) table ->
  occurs_in (transcript_line labels r node_id text)
    (build_aggregator_prompt question responses labels).
Proof.
  intros Hget Hin.
  rewrite aggregator_prompt_unfold. apply occurs_in_app_l, occurs_in_app_r.
  pose proof (stored_line_in_lines responses labels r table node_id text Hget Hin)
    as Hline.
  assert (Hall : In (transcript_line labels r node_id text)
                   (flat_map
                      (fun round_num : Z =>
                         map (fun item : string * string =>
                                let '(node_id, text) := item in
                                "Round " ++ Py.str_of_int round_num ++ " - "
                                ++ PyDict.get_default node_id node_id labels
                                ++ ": " ++ text)
                           (PyDict.get_default round_num [] responses))
                      (sorted (PyDict.keys responses)))).
  { apply in_flat_map. exists r. split; [|exact Hline].
    apply in_sorted, get_some_in_keys. eauto. }
  destruct (flat_map _ _) as [|l ls] eqn:E; [destruct Hall|].
  apply occurs_in_join, Hall.
Qed.

(** The prompt of the aggregator holds one line ["Round <r> - <label>:
    <text>"] for every response stored in a round's table, with the id in
    place of a missing label; and when no table holds a response, the
    transcript is ["No responses."]. *)
Theorem aggregator_prompt_lists_responses (question : string)
  (responses : dict Z (dict string string)) (labels : dict string string) :
  (forall r table node_id text,
     PyDict.get r responses = Some table -> In (node_id, text) table ->
     occurs_in (transcript_line labels r node_id text)
       (build_aggregator_prompt question responses labels))
  /\ ((forall r table, PyDict.get r responses = Some table -> table = []) ->
      build_aggregator_prompt question responses labels
      = "Debate topic:" ++ Py.NL ++ question ++ Py.NL ++ Py.NL
        ++ "Agent responses by round:" ++ Py.NL
        ++ "No responses." ++ Py.NL ++ Py.NL
        ++ "Provide a concise final summary.").
Proof.
  split.
  - intros r table node_id text.
    apply (transcript_line_occurs question responses labels r table node_id text).
  - intros Hempty. rewrite aggregator_prompt_unfold.
    assert (Hnil : flat_map
                     (fun round_num : Z =>
                        map (fun item : string * string =>
                               let '(node_id, text) := item in
                               "Round " ++ Py.str_of_int round_num ++ " - "
                               ++ PyDict.get_default node_id node_id labels
                               ++ ": " ++ text)
                          (PyDict.get_default round_num [] responses))
                     (sorted (PyDict.keys responses)) = []).
    { induction (sorted (PyDict.keys responses)) as [|r rs IH]; [reflexivity|].
      cbn [flat_map]. rewrite IH, app_nil_r. clear IH.
      unfold PyDict.get_default, PyDict.dict in *.
      destruct (PyDict.get r responses) as [table|] eqn:Hget; [|reflexivity].
      rewrite (Hempty r table Hget). reflexivity. }
    rewrite Hnil, !append_assoc. reflexivity.
Qed.

(** The transcript is in ascending round order, whatever order the tables
    were created in: a stored response of a round stands before every
    stored response of a later round. *)
Theorem aggregator_prompt_in_round_order (question : string)
  (responses : dict Z (dict string string)) (labels : dict string string)
  (r1 r2 : Z) (table1 table2 : dict string string) (n1 t1 n2 t2 : string) :
  (r1 < r2)%Z ->
  PyDict.get r1 responses = Some table1 -> In (n1, t1) table1 ->
  PyDict.get r2 responses = Some table2 -> In (n2, t2) table2 ->
  occurs_before (transcript_line labels r1 n1 t1) (transcript_line labels r2 n2 t2)
    (build_aggregator_prompt question responses labels).
Proof.
  intros Hlt Hget1 Hin1 Hget2 Hin2.
  rewrite aggregator_prompt_unfold. apply occurs_before_wrap.
  pose proof (stored_line_in_lines responses labels r1 table1 n1 t1 Hget1 Hin1) as Hl1.
  pose proof (stored_line_in_lines responses labels r2 table2 n2 t2 Hget2 Hin2) as Hl2.
  destruct (sorted_split (PyDict.keys responses) r1 r2) as (a & b & c & Hsorted);
    [apply get_some_in_keys; eauto | apply get_some_in_keys; eauto | exact Hlt |].
  rewrite Hsorted. rewrite flat_map_app. cbn [flat_map]. rewrite flat_map_app.
  cbn [flat_map].
  destruct (in_split _ _ Hl1) as (u1 & v1 & ->).
  destruct (in_split _ _ Hl2) as (u2 & v2 & ->).
  match goal with
  | |- occurs_before ?x ?y (match ?l with [] => _ | (_ :: _) as lines => _ end) =>
      assert (Hshape : exists xs ys zs, l = (xs ++ x :: ys ++ y :: zs)%list)
  end.
  { eexists _, _, _. apply app_two_shape. }
  destruct Hshape as (xs & ys & zs & ->).
  pose proof (occurs_before_join Py.NL xs (transcript_line labels r1 n1 t1) ys
                (transcript_line labels r2 n2 t2) zs) as Hjoin.
  destruct (xs ++ _ :: _)%list eqn:E; [destruct xs; discriminate|]. exact Hjoin.
Qed.

Lemma aggregator_prompt_in_round_order_witness :
  occurs_before "Round 1 - Ay: one" "Round 2 - b: two"
    (build_aggregator_prompt "Q?" [(2%Z, [("b", "two")]); (1%Z, [("a", "one")])]
       [("a", "Ay")]).
Proof.
  apply (aggregator_prompt_in_round_order "Q?"
           [(2%Z, [("b", "two")]); (1%Z, [("a", "one")])] [("a", "Ay")]
           1 2 [("a", "one")] [("b", "two")] "a" "one" "b" "two").
  - lia.
  - reflexivity.
  - simpl; auto.
  - reflexivity.
  - simpl; auto.
Defined.

(** ** The system prompt of the later rounds *)

Lemma occurs_in_here x rest : occurs_in x (x ++ rest).
Proof. exists "", rest. reflexivity. Qed.

Lemma ends_with_refl s : ends_with s s.
Proof. exists "". reflexivity. Qed.

Lemma ends_with_app suffix s t : ends_with suffix s -> ends_with suffix (t ++ s).
Proof. intros [b ->]. exists (t ++ b). rewrite append_assoc. reflexivity. Qed.

Lemma prefix_app a p s :
  (exists after, s = p ++ after) -> exists after, a ++ s = (a ++ p) ++ after.
Proof. intros [r ->]. exists r. rewrite append_assoc. reflexivity. Qed.

Lemma prefix_occurs p s : (exists after, s = p ++ after) -> occurs_in p s.
Proof. intros [r ->]. apply occurs_in_here. Qed.

Ltac find_occurrence :=
  repeat first [ apply occurs_in_here | apply occurs_in_app_l ].

(** The counterpart of C8.  In a round other than the first, a node with
    at least one outgoing neighbor gets, after the base, the block that
    asks for [SUMMARY_JSON:] with a position and ["comments"]; the block
    ends with the sentence that lists the neighbors by label (by id where
    a label is missing), so every neighbor is named in it; the names are
    separated by [", "] and the list carries no quote before its first and
    after its last name; and for a single neighbor the example object
    shows that neighbor's name as a key twice. *)
Theorem later_round_prompt_names_neighbors (custom_prompt : string)
  (outgoing_neighbors : list string) (labels : dict string string) (round_num : Z) :
  round_num <> 1%Z ->
  outgoing_neighbors <> [] ->
  let name := fun nid => PyDict.get_default nid nid labels in
  let sentence :=
    "Your neighbors are: " ++ Py.join (quoted ", ") (map name outgoing_neighbors)
    ++ ". Provide exactly one comment per neighbor." in
  exists instructions,
    build_system_prompt custom_prompt outgoing_neighbors labels round_num
    = prompt_base custom_prompt ++ instructions
    /\ occurs_in "SUMMARY_JSON:" instructions
    /\ occurs_in (quoted "comments") instructions
    /\ ends_with sentence instructions
    /\ (forall nid, In nid outgoing_neighbors -> occurs_in (name nid) sentence)
    /\ (forall nid, outgoing_neighbors = [nid] ->
          occurs_in
            (quoted (name nid) ++ ": " ++ quoted "I agree with your risk analysis"
             ++ ", " ++ quoted (name nid) ++ ": "
             ++ quoted "However, your timeline is too pessimistic" ++ "}}")
            instructions).
Proof.
  intros Hround Hne name sentence.
  exists (followup_instructions (map name outgoing_neighbors)).
  split.
  { unfold build_system_prompt.
    rewrite (proj2 (Z.eqb_neq round_num 1) Hround).
    destruct outgoing_neighbors; [congruence | reflexivity]. }
  split; [unfold followup_instructions; find_occurrence|].
  split; [unfold followup_instructions; find_occurrence|].
  split.
  { unfold followup_instructions, sentence.
    repeat first [ exact (ends_with_refl _) | apply ends_with_app ]. }
  split.
  { intros nid Hin. unfold sentence. apply occurs_in_app_l, occurs_in_app_r.
    apply occurs_in_join. apply (in_map name _ _ Hin). }
  intros nid ->. unfold followup_instructions.
  cbn [map nth List.length Nat.ltb Nat.leb].
  do 29 apply occurs_in_app_l. apply prefix_occurs.
  do 7 apply prefix_app. eexists. reflexivity.
Qed.

Lemma later_round_prompt_names_neighbors_witness :
  occurs_in "Bee" ("Your neighbors are: " ++ "Bee" ++ quoted ", " ++ "c"
                   ++ ". Provide exactly one comment per neighbor.").
Proof.
  destruct (later_round_prompt_names_neighbors "" ["b"; "c"] [("b", "Bee")] 2)
    as (instructions & _ & _ & _ & _ & Hnames & _).
  - discriminate.
  - discriminate.
  - rewrite <- !append_assoc. rewrite <- !append_assoc in Hnames.
    apply (Hnames "b"). simpl; auto.
Defined.

(** ** Short summaries *)

Lemma length_append (a b : string) :
  String.length (a ++ b) = String.length a + String.length b.
Proof. induction a as [|c a IH]; simpl; [reflexivity | rewrite IH; reflexivity]. Qed.

Lemma length_take n s : String.length (Py.take n s) = Nat.min n (String.length s).
Proof.
  revert s. induction n as [|n IH]; intros s; [reflexivity|].
  destruct s as [|c r]; [reflexivity|]. simpl. rewrite IH. reflexivity.
Qed.

Lemma take_all n s : String.length s <= n -> Py.take n s = s.
Proof.
  revert s. induction n as [|n IH]; intros [|c r] Hlen; simpl in *;
    [reflexivity | lia | reflexivity |].
  rewrite IH by lia. reflexivity.
Qed.

(** A character is in the first [n] characters exactly when its first
    index is below [n]. *)
Lemma has_char_take c n s :
  Py.has_char c (Py.take n s) = true <-> exists i, Py.find c s = Some i /\ i < n.
Proof.
  revert s. induction n as [|n IH]; intros s.
  - simpl. split; [discriminate | intros (i & _ & Hi); lia].
  - destruct s as [|d r]; cbn [Py.take Py.has_char Py.find].
    + split; [discriminate | intros (i & Hi & _); discriminate].
    + destruct (Ascii.eqb d c); cbn [orb].
      * split; [intros _; exists 0; split; [reflexivity | lia] | reflexivity].
      * rewrite IH. split.
        -- intros (i & Hf & Hi). exists (S i). rewrite Hf. split; [reflexivity | lia].
        -- intros (i & Hf & Hi). destruct (Py.find c r) as [j|]; [|discriminate].
           injection Hf as <-. exists j. split; [reflexivity | lia].
Qed.

Lemma take_through c i s :
  Py.find c s = Some i -> Py.take i s ++ String c "" = Py.take (S i) s.
Proof.
  revert i. induction s as [|d r IH]; intros i; cbn [Py.find]; [discriminate|].
  destruct (Ascii.eqb_spec d c) as [->|Hne].
  - intros [= <-]. reflexivity.
  - destruct (Py.find c r) as [j|]; [|discriminate]. intros [= <-].
    cbn [Py.take String.append]. rewrite (IH j eq_refl). reflexivity.
Qed.

Lemma find_in_range c i s : Py.find c s = Some i -> i < String.length s.
Proof.
  revert i. induction s as [|d r IH]; intros i; cbn [Py.find]; [discriminate|].
  destruct (Ascii.eqb d c); [intros [= <-]; simpl; lia|].
  destruct (Py.find c r) as [j|]; [|discriminate]. intros [= <-].
  specialize (IH j eq_refl). simpl. lia.
Qed.

(** For a bound that is not negative.  When the first full stop of the
    text is among its first [max_length] characters, the summary is the
    text up to and including that full stop.  Otherwise it is the text
    itself when that has at most [max_length] characters, and its first
    [max_length] characters followed by ["..."] when it is longer.  So a
    summary never has more than [max_length + 3] characters. *)
Theorem extract_summary_cases (text : string) (max_length : Z) :
  (0 <= max_length)%Z ->
  (forall i, Py.find "."%char text = Some i -> (Z.of_nat i < max_length)%Z ->
             extract_summary text max_length = Py.take (S i) text)
  /\ ((forall i, Py.find "."%char text = Some i -> (max_length <= Z.of_nat i)%Z) ->
      extract_summary text max_length
      = if (Z.of_nat (String.length text) <=? max_length)%Z then text
        else Py.take (Z.to_nat max_length) text ++ "...")
  /\ (Z.of_nat (String.length (extract_summary text max_length)) <= max_length + 3)%Z.
Proof.
  intros Hpos.
  assert (Hslice : slice_to max_length text = Py.take (Z.to_nat max_length) text).
  { unfold slice_to. rewrite (proj2 (Z.ltb_ge max_length 0) Hpos). reflexivity. }
  assert (Hfirst : forall i, Py.find "."%char text = Some i ->
                             (Z.of_nat i < max_length)%Z ->
                             extract_summary text max_length = Py.take (S i) text).
  { intros i Hfind Hi. unfold extract_summary. rewrite Hslice.
    rewrite (proj2 (has_char_take "."%char (Z.to_nat max_length) text))
      by (exists i; split; [exact Hfind | lia]).
    unfold split_head. rewrite Hfind. apply take_through, Hfind. }
  assert (Hrest : (forall i, Py.find "."%char text = Some i ->
                             (max_length <= Z.of_nat i)%Z) ->
                  extract_summary text max_length
                  = if (Z.of_nat (String.length text) <=? max_length)%Z then text
                    else Py.take (Z.to_nat max_length) text ++ "...").
  { intros Hlate. unfold extract_summary. rewrite Hslice.
    destruct (Py.has_char "."%char (Py.take (Z.to_nat max_length) text)) eqn:Ehas.
    - apply has_char_take in Ehas. destruct Ehas as (i & Hfind & Hi).
      specialize (Hlate i Hfind). lia.
    - rewrite Z.gtb_ltb.
      destruct (Z.ltb_spec max_length (Z.of_nat (String.length text)));
        destruct (Z.leb_spec (Z.of_nat (String.length text)) max_length);
        try lia; reflexivity. }
  split; [exact Hfirst|]. split; [exact Hrest|].
  destruct (Py.find "."%char text) as [i|] eqn:Hfind.
  - destruct (Z.lt_ge_cases (Z.of_nat i) max_length) as [Hi|Hi].
    + rewrite (Hfirst i eq_refl Hi), length_take.
      pose proof (find_in_range _ _ _ Hfind). lia.
    + rewrite Hrest by (intros j [= <-]; exact Hi).
      destruct (Z.leb_spec (Z.of_nat (String.length text)) max_length); [lia|].
      rewrite length_append, length_take. simpl. lia.
  - rewrite Hrest by (intros j Hj; discriminate).
    destruct (Z.leb_spec (Z.of_nat (String.length text)) max_length); [lia|].
    rewrite length_append, length_take. simpl. lia.
Qed.

Lemma extract_summary_cases_witness :
  extract_summary "Tea first. Milk later." DEFAULT_MAX_LENGTH = "Tea first."
  /\ extract_summary "No full stop here" 8 = "No full ...".
Proof.
  destruct (extract_summary_cases "Tea first. Milk later." DEFAULT_MAX_LENGTH)
    as (Hfirst & _ & _); [unfold DEFAULT_MAX_LENGTH; lia|].
  destruct (extract_summary_cases "No full stop here" 8) as (_ & Hrest & _); [lia|].
  split.
  - apply (Hfirst 9); [reflexivity | unfold DEFAULT_MAX_LENGTH; lia].
  - apply Hrest. intros i Hi. discriminate.
Defined.

(** ** From the replies to the aggregator *)

Lemma NoDup_map_injective {A B} (f : A -> B) (xs : list A) :
  (forall a b, f a = f b -> a = b) -> NoDup xs -> NoDup (map f xs).
Proof.
  intros Hinj Hnd. induction Hnd as [|x xs Hx Hnd IH]; [constructor|].
  cbn [map]. constructor; [|exact IH].
  intros Hin. apply in_map_iff in Hin. destruct Hin as (y & Hy & Hin).
  apply Hinj in Hy. subst y. exact (Hx Hin).
Qed.

Lemma round_numbers_NoDup n : NoDup (map Z.of_nat (seq 1 n)).
Proof. apply NoDup_map_injective; [intros a b; apply Nat2Z.inj | apply seq_NoDup]. Qed.

Section TranscriptFlow.
Context `{JsonLib} `{Backend}.

(** What the rounds leave behind: for every round run and every node, the
    main text parsed from the node's reply of that round is stored, and
    the reply is still in the node's history. *)
Lemma run_rounds_store p nodes :
  NoDup (map id nodes) ->
  forall round_nums st evs st',
    NoDup round_nums ->
    run_rounds p nodes round_nums st = (evs, Ok st') ->
    (forall r, ~ In r round_nums ->
       PyDict.get r (responses_by_round st') = PyDict.get r (responses_by_round st))
    /\ forall r node, In r round_nums -> In node nodes ->
         exists content main_text position comments turns,
           parse_summary_json content
             (PyDict.get_default (id node) [] (outgoing p)) (labels p) r
           = Ok (main_text, position, comments)
           /\ stored_text st' r (id node) = Some main_text
           /\ PyDict.get (id node) (histories st') = Some turns
           /\ In (AssistantMessage content
                    (PyDict.get_default (id node) (id node) (labels p))) turns.
Proof.
  intros Hnd. induction round_nums as [|r0 rest IH]; intros st evs st' Hrs Hrun.
  - injection Hrun as _ <-. split; [reflexivity | intros r node []].
  - cbn [run_rounds] in Hrun. apply gbind_ok in Hrun.
    destruct Hrun as (evs1 & st1 & evs2 & Hround & Hrest & _).
    inversion Hrs as [|? ? Hfresh Hrs']; subst.
    destruct (IH _ _ _ Hrs' Hrest) as [Hother Hstored].
    destruct (run_round_records p nodes r0 st st1 evs1 Hnd Hround) as [Hkeep Hrec].
    split.
    + intros r Hr. rewrite Hother by (intros Hin; apply Hr; right; exact Hin).
      apply Hkeep. intros ->. apply Hr. left. reflexivity.
    + intros r node [<-|Hr] Hin; [|apply Hstored; assumption].
      destruct (Hrec node Hin)
        as (system & turns & content & main_text & position & comments
            & _ & _ & Hparse & Hafter & Hst).
      unfold call_history in Hafter. cbn [app] in Hafter.
      destruct (run_rounds_histories p nodes Hnd rest _ _ _ Hrest node _ _ Hin Hafter)
        as (turns' & Hfinal & _ & _).
      exists content, main_text, position, comments. eexists.
      split; [exact Hparse|]. split.
      * unfold stored_text in *. rewrite (Hother r0 Hfresh). exact Hst.
      * split; [exact Hfinal|]. right. apply in_app_iff. left.
        apply in_app_iff. right. left. reflexivity.
Qed.

End TranscriptFlow.

(** From the replies to the aggregator.  After [n] completed rounds of a
    debate over nodes with distinct ids, for every round up to [n] and
    every node: the reply the node gave in that round is in its history,
    and the main text parsed from it, the reply without its
    [SUMMARY_JSON] part, stands under the round and the node's label in
    the transcript the aggregator is prompted with. *)
Theorem aggregator_reads_every_main_text `{JsonLib} `{Backend} (config : Config)
  (n : nat) (evs : list event) (st : session) :
  NoDup (map id (cfg_nodes config)) ->
  debate_rounds config n = (evs, Ok st) ->
  exists maps,
    build_neighbor_maps (cfg_nodes config) (cfg_edges config) = Ok maps
    /\ forall (r : nat) (node : Node),
         1 <= r <= n -> In node (cfg_nodes config) ->
         exists content main_text position comments turns,
           PyDict.get (id node) (histories st) = Some turns
           /\ In (AssistantMessage content
                    (PyDict.get_default (id node) (id node)
                       (node_labels (cfg_nodes config)))) turns
           /\ parse_summary_json content
                (PyDict.get_default (id node) [] (fst maps))
                (node_labels (cfg_nodes config)) (Z.of_nat r)
              = Ok (main_text, position, comments)
           /\ occurs_in
                (transcript_line (node_labels (cfg_nodes config)) (Z.of_nat r)
                   (id node) main_text)
                (build_aggregator_prompt (resolve_question config)
                   (responses_by_round st) (node_labels (cfg_nodes config))).
Proof.
  intros Hnd Hrun. unfold debate_rounds in Hrun.
  apply gbind_lift_ok in Hrun. destruct Hrun as (maps & Hmaps & Hrun).
  exists maps. split; [exact Hmaps|].
  destruct (run_rounds_store (make_plan config maps) (cfg_nodes config) Hnd
              _ _ _ _ (round_numbers_NoDup n) Hrun) as [_ Hstored].
  intros r node Hr Hin.
  destruct (Hstored (Z.of_nat r) node) as
    (content & main_text & position & comments & turns & Hparse & Hst & Hget & Hmsg).
  { apply in_map, in_seq. lia. }
  { exact Hin. }
  cbn [make_plan outgoing labels] in *.
  exists content, main_text, position, comments, turns.
  split; [exact Hget|]. split; [exact Hmsg|]. split; [exact Hparse|].
  unfold stored_text in Hst.
  destruct (PyDict.get (Z.of_nat r) (responses_by_round st)) as [table|] eqn:Htable;
    [|discriminate].
  apply (transcript_line_occurs _ _ _ _ table); [exact Htable|].
  apply get_in_value, Hst.
Qed.

Lemma aggregator_reads_every_main_text_witness :
  exists content main_text position comments,
    @parse_summary_json (StdJson no_floats) content ["b"]
      (node_labels (cfg_nodes tea_config)) 1
    = Ok (main_text, position, comments)
    /\ occurs_in
         (transcript_line (node_labels (cfg_nodes tea_config)) 1 "a" main_text)
         (build_aggregator_prompt (resolve_question tea_config)
            (responses_by_round tea_session) (node_labels (cfg_nodes tea_config))).
Proof.
  destruct (@aggregator_reads_every_main_text (StdJson no_floats) TeaBackend
              tea_config 2 tea_events tea_session)
    as (maps & Hmaps & Hall).
  - repeat constructor; simpl; intuition discriminate.
  - vm_compute; reflexivity.
  - injection Hmaps as <-.
    destruct (Hall 1 (mkNode "a" "Ay" None))
      as (content & main_text & position & comments & turns & _ & _ & Hparse & Hocc).
    + lia.
    + simpl; auto.
    + exists content, main_text, position, comments.
      split; [exact Hparse | exact Hocc].
Defined.

(** ** Sessions of the endpoint *)

Lemma relay_not_terminal evs : forallb (fun f => negb (terminal f)) (map relay evs) = true.
Proof.
  induction evs as [|e evs IH]; [reflexivity|]. destruct e; exact IH.
Qed.

Lemma build_neighbor_maps_returns nodes edges :
  exists maps, build_neighbor_maps nodes edges = Ok maps.
Proof.
  destruct (process_edges_ok nodes edges _ _
              (empty_neighbors_ok nodes) (empty_neighbors_ok nodes))
    as (out & inc & Hrun & _). exists (out, inc). exact Hrun.
Qed.

(** In a list that ends with its only terminal frame, a terminal frame
    is that last one. *)
Lemma terminal_is_last (body : list frame) last before f after :
  forallb (fun f => negb (terminal f)) body = true ->
  (body ++ [last] = before ++ f :: after)%list ->
  terminal f = true ->
  before = body /\ f = last /\ after = [].
Proof.
  revert before. induction body as [|b body IH]; intros before Hbody Heq Hf.
  - destruct before as [|x before].
    + injection Heq as <- <-. auto.
    + injection Heq as _ Heq. destruct before; discriminate.
  - cbn [forallb] in Hbody. apply andb_true_iff in Hbody. destruct Hbody as [Hb Hbody].
    destruct before as [|x before].
    + injection Heq as <- _. rewrite Hf in Hb. discriminate.
    + injection Heq as <- Heq.
      destruct (IH before Hbody Heq Hf) as (-> & -> & ->). auto.
Qed.

Section SessionFacts.
Context `{JsonLib} `{Backend}.

(** When every frame is taken, a session is relayed events and one
    terminal frame. *)
Lemma session_frames_shape received :
  exists body last,
    session_frames received = (body ++ [last])%list
    /\ terminal last = true
    /\ forallb (fun f => negb (terminal f)) body = true.
Proof.
  destruct received as [|config api_key]; cbn [session_frames].
  - exists [], (ErrorFrame "Invalid JSON format"). auto.
  - destruct (List.length (cfg_nodes config) <? 2)%nat.
    + exists [], (ErrorFrame "At least 2 agents are required"). auto.
    + destruct (falsy api_key).
      * exists [], (ErrorFrame "API key is required"). auto.
      * destruct (run_debate config) as [messages [u|e]].
        -- exists (map relay messages), CompleteFrame.
           split; [reflexivity|]. split; [reflexivity | apply relay_not_terminal].
        -- exists (map relay messages), (ExceptionFrame e).
           split; [reflexivity|]. split; [reflexivity | apply relay_not_terminal].
Qed.

(** What was sent is the beginning of the session. *)
Lemma endpoint_prefix c received :
  first_message c = Some received ->
  exists rest, session_frames received = (websocket_endpoint c ++ rest)%list.
Proof.
  intros Hmsg. unfold websocket_endpoint. rewrite Hmsg.
  destruct (frames_taken c) as [taken|].
  - exists (skipn taken (session_frames received)). symmetry. apply firstn_skipn.
  - exists []. symmetry. apply app_nil_r.
Qed.

(** A session in which a terminal frame was sent last was sent whole. *)
Lemma endpoint_complete c frames last :
  websocket_endpoint c = (frames ++ [last])%list ->
  terminal last = true ->
  exists received,
    first_message c = Some received
    /\ session_frames received = (frames ++ [last])%list.
Proof.
  intros Hsent Hlast.
  destruct (first_message c) as [received|] eqn:Hmsg.
  - exists received. split; [reflexivity|].
    destruct (endpoint_prefix c received Hmsg) as [rest Hrest].
    rewrite Hsent, <- app_assoc in Hrest. cbn [app] in Hrest.
    destruct (session_frames_shape received) as (body & t & Hshape & _ & Hbody).
    rewrite Hshape in Hrest.
    destruct (terminal_is_last body t frames last rest Hbody Hrest Hlast)
      as (-> & -> & _).
    exact Hshape.
  - unfold websocket_endpoint in Hsent. rewrite Hmsg in Hsent.
    destruct frames; discriminate.
Qed.

(** The frames of a session that runs the debate. *)
Lemma session_of_debate received frames last :
  session_frames received = (frames ++ [last])%list ->
  last = CompleteFrame \/ (exists e, last = ExceptionFrame e) ->
  exists config api_key messages outcome,
    received = Decoded config api_key
    /\ 2 <= List.length (cfg_nodes config)
    /\ falsy api_key = false
    /\ run_debate config = (messages, outcome)
    /\ frames = map relay messages
    /\ last = match outcome with
              | Ok _ => CompleteFrame
              | Raise e => ExceptionFrame e
              end.
Proof.
  intros Hrun Hlast.
  assert (Hsingle : forall error, session_frames received = [ErrorFrame error] ->
                                  False).
  { intros error Heq. rewrite Heq in Hrun.
    change [ErrorFrame error] with ([] ++ [ErrorFrame error])%list in Hrun.
    apply app_inj_tail in Hrun. destruct Hrun as [_ Hl].
    destruct Hlast as [->|[e ->]]; discriminate. }
  destruct received as [|config api_key]; cbn [session_frames] in *.
  - exfalso. apply (Hsingle _ eq_refl).
  - destruct (Nat.ltb_spec (List.length (cfg_nodes config)) 2) as [Hlt|Hge].
    + exfalso. apply (Hsingle _ eq_refl).
    + destruct (falsy api_key) eqn:Hkey.
      * exfalso. apply (Hsingle _ eq_refl).
      * destruct (run_debate config) as [messages outcome] eqn:Hdebate.
        destruct outcome as [u|e]; apply app_inj_tail in Hrun;
          destruct Hrun as [<- <-];
          [exists config, api_key, messages, (Ok u)
          |exists config, api_key, messages, (Raise e)]; auto 7.
Qed.

(** The rounds of a debate, seen from [run_debate]. *)
Lemma debate_rounds_schedule config evs st :
  debate_rounds config (Z.to_nat (resolve_rounds config)) = (evs, Ok st) ->
  position_keys evs
  = schedule (cfg_nodes config) (round_range (resolve_rounds config)).
Proof.
  unfold debate_rounds. intros Hrun. apply gbind_lift_ok in Hrun.
  destruct Hrun as (maps & _ & Hrun).
  apply (run_rounds_schedule _ _ _ _ _ _ Hrun).
Qed.

Lemma debate_rounds_failure config evs e :
  debate_rounds config (Z.to_nat (resolve_rounds config)) = (evs, Raise e) ->
  exists missed,
    missed <> []
    /\ schedule (cfg_nodes config) (round_range (resolve_rounds config))
       = (position_keys evs ++ missed)%list.
Proof.
  unfold debate_rounds. intros Hrun.
  destruct (build_neighbor_maps_returns (cfg_nodes config) (cfg_edges config))
    as [maps Hmaps].
  rewrite Hmaps in Hrun. unfold lift, gbind at 1 in Hrun. cbn [app] in Hrun.
  destruct (run_rounds _ _ _ _) as [evs' r] eqn:Hrounds.
  injection Hrun as <- ->.
  apply (run_rounds_failure_prefix _ _ _ _ _ _ Hrounds).
Qed.

End SessionFacts.

(** No session has more than one terminal frame (an error frame or
    [complete]), and nothing is sent after one: whatever the client does,
    whatever is received and whatever the models answer, a terminal frame
    is the last frame sent and the frames before it are relayed debate
    events.  A client that sends its text and stays to the end gets
    exactly one terminal frame; one that leaves earlier may get none, and
    one that leaves before it sends gets no frame at all. *)
Theorem terminal_frame_is_last_and_unique `{JsonLib} `{Backend} (c : client) :
  (forall before f after,
     websocket_endpoint c = (before ++ f :: after)%list ->
     terminal f = true ->
     after = [] /\ forallb (fun f => negb (terminal f)) before = true)
  /\ (forall received,
        first_message c = Some received -> frames_taken c = None ->
        exists body last,
          websocket_endpoint c = (body ++ [last])%list /\ terminal last = true)
  /\ (first_message c = None -> websocket_endpoint c = []).
Proof.
  split; [|split].
  - intros before f after Hsent Hf.
    destruct (first_message c) as [received|] eqn:Hmsg.
    + destruct (endpoint_prefix c received Hmsg) as [rest Hrest].
      rewrite Hsent, <- app_assoc in Hrest. cbn [app] in Hrest.
      destruct (session_frames_shape received) as (body & t & Hshape & _ & Hbody).
      rewrite Hshape in Hrest.
      destruct (terminal_is_last body t before f (after ++ rest)%list Hbody Hrest Hf)
        as (-> & _ & Hnil).
      apply app_eq_nil in Hnil. destruct Hnil as [-> _]. auto.
    + unfold websocket_endpoint in Hsent. rewrite Hmsg in Hsent.
      destruct before; discriminate.
  - intros received Hmsg Hstays. unfold websocket_endpoint. rewrite Hmsg, Hstays.
    destruct (session_frames_shape received) as (body & last & Hshape & Hlast & _).
    exists body, last. auto.
  - intros Hmsg. unfold websocket_endpoint. rewrite Hmsg. reflexivity.
Qed.

(** A session that ends with [complete] received a configuration with at
    least two nodes and an API key, and has sent, before [complete]: the
    events of all rounds, whose position events are one per (round, node)
    in schedule order, each position event at the top level and each
    message event wrapped; then the aggregator's summary as a wrapped
    message from ["aggregator"] to ["all"]. *)
Theorem completed_session_frames `{JsonLib} `{Backend} (c : client)
  (frames : list frame) :
  websocket_endpoint c = (frames ++ [CompleteFrame])%list ->
  exists config api_key evs content,
    first_message c = Some (Decoded config api_key)
    /\ 2 <= List.length (cfg_nodes config)
    /\ falsy api_key = false
    /\ frames
       = (map relay evs
          ++ [MessageFrame (MessageEvent "aggregator" "all" "" content
                              (resolve_rounds config))])%list
    /\ position_keys evs
       = schedule (cfg_nodes config) (round_range (resolve_rounds config)).
Proof.
  intros Hsent.
  destruct (endpoint_complete c frames CompleteFrame Hsent eq_refl)
    as (received & Hmsg & Hrun).
  destruct (session_of_debate received frames CompleteFrame Hrun (or_introl eq_refl))
    as (config & api_key & messages & outcome & -> & Hnodes & Hkey & Hdebate & -> & Hlast).
  destruct outcome as [u|e]; [|discriminate].
  rewrite run_debate_outcome in Hdebate
    by (destruct (cfg_nodes config); [simpl in Hnodes; lia | discriminate]).
  destruct (debate_rounds config (Z.to_nat (resolve_rounds config)))
    as [evs [st|e]] eqn:Hrounds; [|discriminate].
  destruct (aggregator_create _) as [content|]; [|discriminate].
  injection Hdebate as <-.
  exists config, api_key, evs, content.
  split; [exact Hmsg|]. split; [exact Hnodes|]. split; [exact Hkey|]. split.
  - rewrite map_app. reflexivity.
  - apply (debate_rounds_schedule config evs st Hrounds).
Qed.

(** A session that ends with the error frame of an exception raised in
    the debate has sent, before it, exactly the events of the steps that
    completed: their position events are a prefix of the schedule, and
    when no step is missing it is the aggregator's call that failed. *)
Theorem failed_session_frames `{JsonLib} `{Backend} (c : client)
  (frames : list frame) (e : exn) :
  websocket_endpoint c = (frames ++ [ExceptionFrame e])%list ->
  exists config api_key evs missed,
    first_message c = Some (Decoded config api_key)
    /\ frames = map relay evs
    /\ schedule (cfg_nodes config) (round_range (resolve_rounds config))
       = (position_keys evs ++ missed)%list
    /\ (missed = [] -> e = BackendError).
Proof.
  intros Hsent.
  destruct (endpoint_complete c frames (ExceptionFrame e) Hsent eq_refl)
    as (received & Hmsg & Hrun).
  destruct (session_of_debate received frames (ExceptionFrame e) Hrun
              (or_intror (ex_intro _ e eq_refl)))
    as (config & api_key & messages & outcome & -> & Hnodes & Hkey & Hdebate & -> & Hlast).
  destruct outcome as [u|e']; [discriminate|]. injection Hlast as ->.
  rewrite run_debate_outcome in Hdebate
    by (destruct (cfg_nodes config); [simpl in Hnodes; lia | discriminate]).
  destruct (debate_rounds config (Z.to_nat (resolve_rounds config)))
    as [evs [st|e0]] eqn:Hrounds.
  - destruct (aggregator_create _) as [content|]; [discriminate|].
    injection Hdebate as <- <-.
    exists config, api_key, evs, []. split; [exact Hmsg|]. split; [reflexivity|].
    split; [|reflexivity].
    rewrite app_nil_r. symmetry. apply (debate_rounds_schedule config evs st Hrounds).
  - injection Hdebate as <- <-.
    destruct (debate_rounds_failure config evs e0 Hrounds) as (missed & Hne & Hsched).
    exists config, api_key, evs, missed. split; [exact Hmsg|]. split; [reflexivity|].
    split; [exact Hsched | intros Hnil; contradiction].
Qed.

Lemma completed_session_frames_witness :
  exists config api_key evs content,
    Some (Decoded tea_config (Some "sk-test")) = Some (Decoded config api_key)
    /\ 2 <= List.length (cfg_nodes config)
    /\ falsy api_key = false
    /\ removelast (@websocket_endpoint (StdJson no_floats) TeaBackend staying_client)
       = (map relay evs
          ++ [MessageFrame (MessageEvent "aggregator" "all" "" content
                              (resolve_rounds config))])%list
    /\ position_keys evs
       = schedule (cfg_nodes config) (round_range (resolve_rounds config)).
Proof.
  apply (@completed_session_frames (StdJson no_floats) TeaBackend staying_client).
  vm_compute; reflexivity.
Defined.

Lemma failed_session_frames_witness :
  exists config api_key evs missed,
    Some (Decoded tea_config (Some "sk-test")) = Some (Decoded config api_key)
    /\ [] = map relay evs
    /\ schedule (cfg_nodes config) (round_range (resolve_rounds config))
       = (position_keys evs ++ missed)%list
    /\ (missed = [] -> BackendError = BackendError).
Proof.
  apply (@failed_session_frames (StdJson no_floats) SilentBackend staying_client
           [] BackendError).
  vm_compute; reflexivity.
Defined.

(** ** The opening turn *)

Lemma resolve_question_nonempty config : resolve_question config <> "".
Proof.
  unfold resolve_question.
  destruct (Py.strip _) as [|c r] eqn:E; cbn [Py.truthy]; discriminate.
Qed.

(** Every node opens on the same question.  After at least one completed
    round over nodes with distinct ids, the history of every node starts
    with its system message, then the user turn of round 1, which is the
    initial prompt quoting the question the debate runs on (the
    configured one trimmed, or the default, never the empty text) whatever
    the node's neighbors are, then the node's first reply. *)
Theorem first_turn_quotes_the_question `{JsonLib} `{Backend} (config : Config)
  (n : nat) (evs : list event) (st : session) :
  NoDup (map id (cfg_nodes config)) ->
  1 <= n ->
  debate_rounds config n = (evs, Ok st) ->
  resolve_question config <> ""
  /\ occurs_in (quoted (resolve_question config))
       (build_initial_prompt (resolve_question config))
  /\ forall node, In node (cfg_nodes config) ->
       exists system content rest,
         PyDict.get (id node) (histories st)
         = Some (system
                 :: UserMessage (build_initial_prompt (resolve_question config)) "user"
                 :: AssistantMessage content
                      (PyDict.get_default (id node) (id node)
                         (node_labels (cfg_nodes config)))
                 :: rest).
Proof.
  intros Hnd Hn Hrun. split; [apply resolve_question_nonempty|]. split.
  { unfold build_initial_prompt. find_occurrence. }
  unfold debate_rounds in Hrun.
  apply gbind_lift_ok in Hrun. destruct Hrun as (maps & _ & Hrun).
  destruct n as [|n]; [lia|]. cbn [seq map] in Hrun. cbn [run_rounds] in Hrun.
  apply gbind_ok in Hrun. destruct Hrun as (evs1 & st1 & evs2 & Hfirst & Hrest & _).
  intros node Hin.
  destruct (run_round_records _ _ _ _ _ _ Hnd Hfirst) as [_ Hrec].
  destruct (Hrec node Hin)
    as (system & turns & content & main_text & position & comments
        & Hbefore & _ & _ & Hafter & _).
  cbn [initial_session histories make_plan outgoing labels] in Hbefore.
  rewrite (initial_history _ _ _ node Hnd Hin) in Hbefore.
  injection Hbefore as _ <-.
  unfold call_history in Hafter. cbn [app] in Hafter.
  destruct (run_rounds_histories _ _ Hnd _ _ _ _ Hrest node _ _ Hin Hafter)
    as (turns' & Hfinal & _ & _).
  cbn [app] in Hfinal. eexists _, content, turns'. exact Hfinal.
Qed.

Lemma first_turn_quotes_the_question_witness :
  exists system content rest,
    PyDict.get "b" (histories tea_session)
    = Some (system
            :: UserMessage (build_initial_prompt "Tea or milk first?") "user"
            :: AssistantMessage content "Bee" :: rest).
Proof.
  destruct (@first_turn_quotes_the_question (StdJson no_floats) TeaBackend
              tea_config 2 tea_events tea_session)
    as (_ & _ & Hnodes).
  - repeat constructor; simpl; intuition discriminate.
  - lia.
  - vm_compute; reflexivity.
  - apply (Hnodes (mkNode "b" "Bee" (Some " Be brief. "))). simpl; auto.
Defined.
